(** * sema: model factory, benchmark runner and scoring functions

  A shallow embedding of the Python sources of the evaluation harness
  (src/benchmarks/measures.py, benchmark.py, hotpotqa.py, tools.py,
  src/models/base_model.py, models.py, ollama_model.py, openai_model.py,
  claude_model.py, gemini_model.py, src/agents/agent.py and
  src/utils/logger.py), followed by the properties stated about them.

  Conventions of the embedding:
  - a Python [str] is a [list ascii]; a character is read as the Unicode
    code point of the same number, so the model covers U+0000..U+00FF
    (ASCII and Latin-1) with Python's own classification of those
    characters;
  - a Python [float] coming out of the scoring functions is an exact
    rational ([Q]), rounding is not modelled; [==] on floats is
    [Qeq_bool];
  - a function that can raise returns a [result]; a function with effects
    threads the state it touches (caches, the environment, files, logs);
  - a dict used as a map is a [gmap], a [Counter] is a [gmultiset]. *)

From Stdlib Require Import Ascii String QArith Lqa.
From stdpp Require Import gmap gmultiset strings list.

Set Default Proof Using "Type".

(** ** Python values shared by all modules *)

Module Py.

Abbreviation str := (list ascii) (only parsing).

(** String literals are written as Rocq strings. *)
Coercion list_ascii_of_string : string >-> list.

(** Exception classes the sources raise or catch.  [BaseExceptionOnly]
    stands for the classes outside [Exception] (KeyboardInterrupt,
    asyncio.CancelledError, SystemExit). *)
Inductive exn_class :=
| ValueError
| FileNotFoundError
| ZeroDivisionError
| JSONDecodeError
| OtherException (name : str)
| BaseExceptionOnly (name : str).

Record exn := Exn { exn_cls : exn_class; exn_msg : str }.

(** [isinstance(e, Exception)] *)
Definition is_Exception (e : exn) : bool :=
  match exn_cls e with
  | BaseExceptionOnly _ => false
  | _ => true
  end.

(** [str(e)] *)
Definition str_of_exn (e : exn) : str := exn_msg e.

Inductive result (A : Type) :=
| Ok (a : A)
| Raise (e : exn).
Arguments Ok {A} a.
Arguments Raise {A} e.

Definition bind {A B} (m : result A) (k : A -> result B) : result B :=
  match m with
  | Ok a => k a
  | Raise e => Raise e
  end.

Definition is_Ok {A} (m : result A) : bool :=
  match m with Ok _ => true | Raise _ => false end.

(** [None] or a string, for values typed [Any] that the code passes to
    [str(...)]. *)
Inductive pyval :=
| PyNone
| PyStr (s : str).

(** Code point of a character. *)
Definition ord (c : ascii) : N := N_of_ascii c.

Definition between (lo hi : N) (c : ascii) : bool :=
  ((lo <=? ord c) && (ord c <=? hi))%N.

(** [str.lower] on one code point below U+0100: A-Z, then
    U+00C0..U+00D6 and U+00D8..U+00DE, move up by 32. *)
Definition lower_char (c : ascii) : ascii :=
  if between 65 90 c || between 192 214 c || between 216 222 c
  then ascii_of_N (ord c + 32)
  else c.

(** [str.isspace], the separator set of [str.split()] without arguments:
    U+0009..U+000D, U+001C..U+0020, U+0085, U+00A0. *)
Definition isspace (c : ascii) : bool :=
  between 9 13 c || between 28 32 c || between 133 133 c || between 160 160 c.

(** The regular expression class [\w] on [str] patterns: alphanumeric
    code points (letters, decimal digits, other digits and numerics)
    and the underscore. *)
Definition is_word (c : ascii) : bool :=
  between 48 57 c || between 65 90 c || between 97 122 c || between 95 95 c
  || between 170 170 c || between 178 179 c || between 181 181 c
  || between 185 186 c || between 188 190 c
  || between 192 214 c || between 216 246 c || between 248 255 c.

Definition dquote : ascii := ascii_of_N 34.

(** [string.punctuation] *)
Definition punctuation : str :=
  "!" ++ dquote :: "#$%&'()*+,-./:;<=>?@[\]^_`{|}~".

(** [text.lower()] *)
Definition lower (text : str) : str := map lower_char text.

Definition emit (cur : str) : list str :=
  match cur with [] => [] | _ => [cur] end.

(** [text.split()]: the maximal runs of non-whitespace characters.
    [cur] is the run being read. *)
Fixpoint split_from (cur : str) (text : str) : list str :=
  match text with
  | [] => emit cur
  | c :: text' =>
      if isspace c then emit cur ++ split_from [] text'
      else split_from (cur ++ [c]) text'
  end.

Definition split (text : str) : list str := split_from [] text.

(** [sep.join(parts)] *)
Fixpoint join (sep : str) (parts : list str) : str :=
  match parts with
  | [] => []
  | [p] => p
  | p :: rest => p ++ sep ++ join sep rest
  end.

(** [sep in text] on strings: [sep] occurs as a substring. *)
Fixpoint contains (sep : str) (text : str) : bool :=
  bool_decide (sep `prefix_of` text)
  || match text with
     | [] => false
     | _ :: text' => contains sep text'
     end.

Fixpoint lstrip (ch : ascii) (text : str) : str :=
  match text with
  | c :: text' => if bool_decide (c = ch) then lstrip ch text' else text
  | [] => []
  end.

(** [text.rstrip(ch)] *)
Definition rstrip (ch : ascii) (text : str) : str :=
  reverse (lstrip ch (reverse text)).

(** [a / b] on numbers *)
Definition truediv (a b : Q) : result Q :=
  if Qeq_bool b 0 then Raise (Exn ZeroDivisionError "division by zero")
  else Ok (a / b)%Q.

End Py.

Import Py.

(** ** src/benchmarks/measures.py *)

Module Measures.

(** *** The regular expression [\b(a|an|the)\b] *)

Definition is_word_at (o : option ascii) : bool :=
  match o with Some c => is_word c | None => false end.

(** [\b] between two positions: exactly one side is a word character;
    the ends of the text count as non-word. *)
Definition word_boundary (before after : option ascii) : bool :=
  xorb (is_word_at before) (is_word_at after).

Definition articles : list str := ["a" : str; "an" : str; "the" : str].

(** One alternative followed by [\b]; gives the alternative and the
    unread text. *)
Definition match_alt (alt text : str) : option (str * str) :=
  if bool_decide (alt `prefix_of` text) then
    let rest := drop (length alt) text in
    if word_boundary (last alt) (head rest) then Some (alt, rest) else None
  else None.

(** The alternatives in the order of the pattern. *)
Fixpoint first_alt (alts : list str) (text : str) : option (str * str) :=
  match alts with
  | [] => None
  | alt :: alts' =>
      match match_alt alt text with
      | Some r => Some r
      | None => first_alt alts' text
      end
  end.

(** The pattern at the current position; [prev] is the character before
    it. *)
Definition match_here (prev : option ascii) (text : str) : option (str * str) :=
  if word_boundary prev (head text) then first_alt articles text else None.

(** [re.sub(pattern, ' ', text)] from the current position: leftmost
    matches, left to right, each replaced by one space.  [fuel] bounds
    the number of positions visited. *)
Fixpoint sub_from (fuel : nat) (prev : option ascii) (text : str) : str :=
  match text with
  | [] => []
  | c :: text' =>
      match fuel with
      | 0 => text
      | S fuel' =>
          match match_here prev text with
          | Some (alt, rest) => " " ++ sub_from fuel' (last alt) rest
          | None => c :: sub_from fuel' (Some c) text'
          end
      end
  end.

Definition remove_articles (text : str) : str :=
  sub_from (length text) None text.

Definition white_space_fix (text : str) : str :=
  join " " (split text).

Definition remove_punc (text : str) : str :=
  filter (fun ch => ch ∉ punctuation) text.

Definition normalize_answer (s : str) : str :=
  white_space_fix (remove_articles (remove_punc (lower s))).

(** [Counter(tokens)] *)
Definition Counter (tokens : list str) : gmultiset str :=
  list_to_set_disj tokens.

(** [sum((Counter(a) & Counter(b)).values())] *)
Definition num_same (prediction_tokens ground_truth_tokens : list str) : nat :=
  size (Counter prediction_tokens ∩ Counter ground_truth_tokens).

Definition of_nat (n : nat) : Q := inject_Z (Z.of_nat n).

Definition precision_of (n : nat) (tokens : list str) : result Q :=
  match tokens with
  | [] => Ok 0%Q
  | _ => truediv (of_nat n) (of_nat (length tokens))
  end.

Definition f1_score (prediction ground_truth : str) : result Q :=
  let prediction_tokens := split (normalize_answer prediction) in
  let ground_truth_tokens := split (normalize_answer ground_truth) in
  let n := num_same prediction_tokens ground_truth_tokens in
  if decide (n = 0) then Ok 0%Q
  else
    bind (precision_of n prediction_tokens) (fun precision =>
    bind (precision_of n ground_truth_tokens) (fun recall =>
    if Qeq_bool (precision + recall) 0 then Ok 0%Q
    else truediv (2 * precision * recall) (precision + recall))).

Definition exact_match_score (prediction ground_truth : str) : Q :=
  if decide (normalize_answer prediction = normalize_answer ground_truth)
  then 1%Q else 0%Q.

End Measures.

Import Measures.

(** ** src/benchmarks/tools.py *)

Module Tools.

(** A parsed dataset object: the keys [HotpotQA.run] reads.  [_id] and
    [context] are read with [dict.get] and may be absent. *)
Record item := Item {
  item_id : option str;
  item_question : str;
  item_context : option (list (str * list str));
  item_answer : pyval;
}.

(** The HTTP requests [download_file] sends through [requests]. *)
Inductive request :=
| Head (url : str)
| Get (url : str) (range_from : option nat).

(** What a streamed GET gives: the status check of [raise_for_status], the
    chunks that arrive, and the failure that ends the stream early. *)
Record response := Response {
  status_error : option exn;
  chunks : list str;
  stream_error : option exn;
}.

(** The remote side.  Each answer may depend on the requests sent so far;
    [on_head] gives the [Content-Length] read by [int(...)]. *)
Record network := Network {
  on_head : list request → str → result nat;
  on_get : list request → str → option nat → result response;
}.

(** The local files by path, and the requests sent so far. *)
Record world := World {
  files : gmap (list ascii) (list ascii);
  requests : list request;
}.

Definition send (r : request) (w : world) : world :=
  {| files := files w; requests := requests w ++ [r] |}.

Definition write_file (path content : str) (w : world) : world :=
  {| files := <[path := content]> (files w); requests := requests w |}.

(** [os.path.exists(path)] *)
Definition exists_ (path : str) (w : world) : bool :=
  bool_decide (is_Some (files w !! path)).

(** [text.endswith(suffix)] *)
Definition endswith (suffix text : str) : bool :=
  bool_decide (suffix `suffix_of` text).

(** [os.path.join(a, b)] on POSIX paths *)
Definition path_join (a b : str) : str :=
  if bool_decide (("/" : str) `prefix_of` b) then b
  else if bool_decide (a = []) || endswith "/" a then a ++ b
  else a ++ "/" ++ b.

(** [path[:path.rfind('/') + 1]]: the path up to its last slash, with
    it. *)
Fixpoint upto_last_slash (path : str) : str :=
  match path with
  | [] => []
  | c :: path' =>
      if bool_decide ("/"%char ∈ path') then c :: upto_last_slash path'
      else if bool_decide (c = "/"%char) then [c]
      else []
  end.

(** [os.path.dirname(path)] on POSIX paths *)
Definition dirname (path : str) : str :=
  let head := upto_last_slash path in
  if bool_decide (head ≠ []) && negb (bool_decide (Forall (λ c, c = "/"%char) head))
  then rstrip "/" head
  else head.

(** [os.makedirs(name, exist_ok=True)]: the empty name is no directory,
    [FileNotFoundError] is raised for it; a directory with a name is
    taken to be there or to be created. *)
Definition makedirs (name : str) : result unit :=
  match name with
  | [] => Raise (Exn FileNotFoundError "[Errno 2] No such file or directory: ''")
  | _ :: _ => Ok ()
  end.

(** What reading a file opened in text mode gives for its content: the
    line ends CR LF and CR become LF (universal newlines). *)
Fixpoint universal_newlines (content : str) : str :=
  match content with
  | [] => []
  | c :: content' =>
      if bool_decide (c = ascii_of_N 13) then
        ascii_of_N 10
        :: match content' with
           | d :: content'' =>
               if bool_decide (d = ascii_of_N 10) then universal_newlines content''
               else universal_newlines content'
           | [] => []
           end
      else c :: universal_newlines content'
  end.

(** The lines of a text that was read, each with its line end: what
    [for line in f] yields. *)
Fixpoint lines_from (cur : str) (text : str) : list str :=
  match text with
  | [] => emit cur
  | c :: text' =>
      if bool_decide (c = ascii_of_N 10) then (cur ++ [c]) :: lines_from [] text'
      else lines_from (cur ++ [c]) text'
  end.

Fixpoint mapM {A B} (f : A → result B) (l : list A) : result (list B) :=
  match l with
  | [] => Ok []
  | x :: l' => bind (f x) (fun y => bind (mapM f l') (fun ys => Ok (y :: ys)))
  end.

Section tools.

(** [json.load] of the text of a whole file and [json.loads] of one line.
    What they give is read as dataset objects: the file of a partition
    holds a list of records, and a line holds one record, as the return
    type of [load_json] and the manifest have it. *)
Context (json_load : str → result (list item)) (json_loads : str → result item).
Context (net : network).

(** The body of the [try] in [download_file]: one attempt. *)
Definition download_attempt (url destination_path : str) (w : world)
  : world * result unit :=
  let resume_pos :=
    match files w !! destination_path with
    | Some content => length content
    | None => 0
    end in
  let w1 := send (Head url) w in
  match on_head net (requests w) url with
  | Raise e => (w1, Raise e)
  | Ok total_size =>
      if bool_decide (resume_pos < total_size) then
        let range := if bool_decide (0 < resume_pos) then Some resume_pos else None in
        let w2 := send (Get url range) w1 in
        match on_get net (requests w1) url range with
        | Raise e => (w2, Raise e)
        | Ok r =>
            match status_error r with
            | Some e => (w2, Raise e)
            | None =>
                let old :=
                  if bool_decide (0 < resume_pos)
                  then default [] (files w !! destination_path)
                  else [] in
                let w3 := write_file destination_path (old ++ concat (chunks r)) w2 in
                match stream_error r with
                | Some e => (w3, Raise e)
                | None => (w3, Ok ())
                end
            end
        end
      else (w1, Ok ())
  end.

(** The statements after the [for] loop of [download_file], reached only
    when the loop body never ran. *)
Definition download_whole (url destination_path : str) (w : world)
  : world * result unit :=
  let w1 := send (Get url None) w in
  match on_get net (requests w) url None with
  | Raise e => (w1, Raise e)
  | Ok r =>
      match status_error r, stream_error r with
      | Some e, _ | None, Some e => (w1, Raise e)
      | None, None => (write_file destination_path (concat (chunks r)) w1, Ok ())
      end
  end.

(** [for attempt in range(max_retries)] over the attempts still to run. *)
Fixpoint download_loop (url destination_path : str) (max_retries : nat)
    (attempts : list nat) (w : world) : world * result unit :=
  match attempts with
  | [] => download_whole url destination_path w
  | attempt :: attempts' =>
      match download_attempt url destination_path w with
      | (w', Ok _) => (w', Ok ())
      | (w', Raise e) =>
          if is_Exception e then
            if bool_decide (attempt = max_retries - 1) then (w', Raise e)
            else download_loop url destination_path max_retries attempts' w'
          else (w', Raise e)
      end
  end.

(** [download_file(url, destination_path, max_retries=3)] *)
Definition download_file (url destination_path : str) (max_retries : nat)
    (w : world) : world * result unit :=
  match makedirs (dirname destination_path) with
  | Raise e => (w, Raise e)
  | Ok _ => download_loop url destination_path max_retries (seq 0 max_retries) w
  end.

Definition load_json (file_path : str) (w : world) : result (list item) :=
  match files w !! file_path with
  | None => Raise (Exn FileNotFoundError ("File not found: " ++ file_path))
  | Some content =>
      let text := universal_newlines content in
      if endswith ".jsonl" file_path then mapM json_loads (lines_from [] text)
      else if endswith ".json" file_path then json_load text
      else Raise (Exn ValueError ("Unsupported file format: " ++ file_path))
  end.

End tools.

End Tools.

Import Tools.

(** ** src/benchmarks/benchmark.py and src/benchmarks/hotpotqa.py *)

Module Benchmark.

Inductive verdict := PASS | FAIL.

Global Instance verdict_eq_dec : EqDecision verdict.
Proof. solve_decision. Defined.

Inductive DatasetType := TRAIN | VALIDATE | TEST | ALL.

(** A benchmark object: its folder and the three partitions, each [None]
    until it is loaded. *)
Record benchmark := Bench {
  data_folder : str;
  dataset_type : DatasetType;
  _train_data : option (list item);
  _validate_data : option (list item);
  _test_data : option (list item);
}.

(** What the module's logger is given. *)
Inductive log_record :=
| ErrorNotLoaded (partition : DatasetType)
| InfoProcessing (position total : nat) (question_head : str)
| ErrorProcessing (index : nat) (e : exn)
| InfoScores (em f1 : Q).

(** The properties [train_data], [validate_data] and [test_data]: an unset
    partition is logged as an error and [None] is returned. *)
Definition partition_property (which : DatasetType) (stored : option (list item))
  : list log_record * option (list item) :=
  match stored with
  | None => ([ErrorNotLoaded which], None)
  | Some _ => ([], stored)
  end.

Definition train_data (self : benchmark) := partition_property TRAIN (_train_data self).
Definition validate_data (self : benchmark) := partition_property VALIDATE (_validate_data self).
Definition test_data (self : benchmark) := partition_property TEST (_test_data self).

(** One manifest entry of benchmarks.json. *)
Record dataset_entry := Entry { entry_name : str; entry_url : str }.

Section hotpotqa.

Context (json_load : str → result (list item)) (json_loads : str → result item).
Context (net : network).

(** [HotpotQA.load_dataset] *)
Definition load_dataset (self : benchmark) (dataset : option dataset_entry)
    (force_reload : bool) (w : world) : world * result (option (list item)) :=
  match dataset with
  | None => (w, Ok None)
  | Some entry =>
      let file_path := path_join (data_folder self) (entry_name entry) in
      let '(w', downloaded) :=
        if negb (exists_ file_path w) || force_reload
        then download_file net (entry_url entry) file_path 3 w
        else (w, Ok ()) in
      (w', bind downloaded (fun _ =>
           bind (load_json json_load json_loads file_path w') (fun data =>
           Ok (Some data))))
  end.

End hotpotqa.

Record evaluation := Evaluation { ev_em : Q; ev_f1 : Q; ev_result : verdict }.

(** [str(v) if v is not None else ""] *)
Definition str_or_empty (v : pyval) : str :=
  match v with PyNone => [] | PyStr s => s end.

(** [HotpotQA.evaluate] *)
Definition evaluate (prediction label : pyval) : result evaluation :=
  let pred_str := str_or_empty prediction in
  let label_str := str_or_empty label in
  let em := exact_match_score pred_str label_str in
  bind (f1_score pred_str label_str) (fun f1 =>
  Ok {| ev_em := em; ev_f1 := f1;
        ev_result := if Qeq_bool em 1 then PASS else FAIL |}).

(** The [id] of a result: the item's [_id], or its index. *)
Inductive sample_id :=
| IdGiven (v : str)
| IdIndex (i : nat).

Record sample_result := SampleResult {
  r_id : sample_id;
  r_question : str;
  r_prediction : pyval;
  r_ground_truth : pyval;
  r_em : Q;
  r_f1 : Q;
  r_result : verdict;
  r_error : option str;
}.

Record metrics := Metrics {
  exact_match : Q;
  f1 : Q;
  num_samples : nat;
  num_passed : nat;
}.

Record run_output := RunOutput {
  out_metrics : metrics;
  out_results : list sample_result;
}.

(** [data[:num_samples]] *)
Definition slice_to (num_samples : Z) (data : list item) : list item :=
  if (0 <=? num_samples)%Z then take (Z.to_nat num_samples) data
  else take (Z.to_nat (Z.of_nat (length data) + num_samples)) data.

Definition limit (num_samples : option Z) (data : list item) : list item :=
  match num_samples with
  | None => data
  | Some k => slice_to k data
  end.

Section run.

(** The callback is any coroutine: it may read and change a state of its
    own ([W]), return a prediction or raise. *)
Context {W : Type}.
Context (callback : str → list (str * list str) → W → W * result pyval).

(** What [run] has done so far besides computing: the callback's state,
    the arguments of the calls made to it, and the log. *)
Record run_state := RunState {
  rs_world : W;
  rs_calls : list (str * list (str * list str));
  rs_log : list log_record;
}.

Definition log (verbose : bool) (r : log_record) (st : run_state) : run_state :=
  if verbose
  then {| rs_world := rs_world st; rs_calls := rs_calls st; rs_log := rs_log st ++ [r] |}
  else st.

Record totals := Totals {
  results : list sample_result;
  total_em : Q;
  total_f1 : Q;
}.

Definition item_sample_id (x : item) (i : nat) : sample_id :=
  match item_id x with Some v => IdGiven v | None => IdIndex i end.

(** The body of the [try]: the call, then the evaluation. *)
Definition attempt_item (x : item) (st : run_state)
  : run_state * result (pyval * evaluation) :=
  let question := item_question x in
  let context := default [] (item_context x) in
  let '(w', r) := callback question context (rs_world st) in
  let st' := {| rs_world := w'; rs_calls := rs_calls st ++ [(question, context)];
                rs_log := rs_log st |} in
  (st', bind r (fun prediction =>
        bind (evaluate prediction (item_answer x)) (fun ev =>
        Ok (prediction, ev)))).

Definition passed_result (x : item) (i : nat) (prediction : pyval) (ev : evaluation)
  : sample_result :=
  {| r_id := item_sample_id x i; r_question := item_question x;
     r_prediction := prediction; r_ground_truth := item_answer x;
     r_em := ev_em ev; r_f1 := ev_f1 ev; r_result := ev_result ev;
     r_error := None |}.

Definition failed_result (x : item) (i : nat) (e : exn) : sample_result :=
  {| r_id := item_sample_id x i; r_question := item_question x;
     r_prediction := PyStr []; r_ground_truth := item_answer x;
     r_em := 0; r_f1 := 0; r_result := FAIL;
     r_error := Some (str_of_exn e) |}.

(** [for i, item in enumerate(data)] from index [i] on; [n] is
    [len(data)].  An exception outside [Exception] leaves the loop and
    [run]. *)
Fixpoint run_loop (verbose : bool) (n i : nat) (data : list item)
    (st : run_state) (acc : totals) : run_state * result totals :=
  match data with
  | [] => (st, Ok acc)
  | x :: data' =>
      let st0 := log verbose (InfoProcessing (i + 1) n (take 50 (item_question x))) st in
      let '(st1, attempt) := attempt_item x st0 in
      let step (st2 : run_state) (r : sample_result) (em f1 : Q) :=
        let st3 := log verbose (InfoScores (r_em r) (r_f1 r)) st2 in
        run_loop verbose n (S i) data' st3
          {| results := results acc ++ [r];
             total_em := total_em acc + em; total_f1 := total_f1 acc + f1 |} in
      match attempt with
      | Ok (prediction, ev) =>
          step st1 (passed_result x i prediction ev) (ev_em ev) (ev_f1 ev)
      | Raise e =>
          if is_Exception e then
            step (log true (ErrorProcessing i e) st1) (failed_result x i e) 0%Q 0%Q
          else (st1, Raise e)
      end
  end.

Definition count_passed (rs : list sample_result) : nat :=
  length (filter (fun r => r_result r = PASS) rs).

Definition aggregate (acc : totals) : run_output :=
  let n := length (results acc) in
  let avg_em := if bool_decide (0 < n) then (total_em acc / of_nat n)%Q else 0%Q in
  let avg_f1 := if bool_decide (0 < n) then (total_f1 acc / of_nat n)%Q else 0%Q in
  {| out_metrics := {| exact_match := avg_em; f1 := avg_f1; num_samples := n;
                       num_passed := count_passed (results acc) |};
     out_results := results acc |}.

Definition log_all (rs : list log_record) (st : run_state) : run_state :=
  {| rs_world := rs_world st; rs_calls := rs_calls st; rs_log := rs_log st ++ rs |}.

(** [HotpotQA.run] *)
Definition run (self : benchmark) (dataset : str) (num_samples : option Z)
    (verbose : bool) (st : run_state) : run_state * result run_output :=
  let selected :=
    if decide (dataset = "train") then Ok (train_data self)
    else if decide (dataset = "validate") then Ok (validate_data self)
    else if decide (dataset = "test") then Ok (test_data self)
    else Raise (Exn ValueError ("Unknown dataset: " ++ dataset)) in
  match selected with
  | Raise e => (st, Raise e)
  | Ok (logged, None) =>
      (log_all logged st,
       Raise (Exn ValueError ("Dataset " ++ dquote :: dataset ++ dquote :: " not loaded")))
  | Ok (logged, Some data) =>
      let data := limit num_samples data in
      let '(st', r) :=
        run_loop verbose (length data) 0 data (log_all logged st)
          {| results := []; total_em := 0; total_f1 := 0 |} in
      (st', bind r (fun acc => Ok (aggregate acc)))
  end.

End run.

End Benchmark.

Import Benchmark.

(** ** src/models/base_model.py, models.py and the provider clients *)

Module Models.

(** *** base_model.py: [LLMConfig] and its two class-level caches *)

(** An [LLMConfig] object.  [obj_id] is its identity ([id(obj)]): [is]
    compares it, and every construction takes a fresh one.  No code of
    the package assigns to a field of an existing object. *)
Record LLMConfig := Config {
  obj_id : nat;
  name : str;
  provider : str;
  description : str;
  base_url : str;
  api_key : str;
  temperature : option Q;
}.

(** One model definition of models.json.  A key may be absent;
    [temperature] may also be [null]. *)
Record entry := ModelEntry {
  e_provider : option str;
  e_type : option str;
  e_description : option str;
  e_base_url : option str;
  e_api_key : option str;
  e_temperature : option (option Q);
}.

(** The configuration files by resolved path, each with what [json.load]
    gives for its present content. *)
Abbreviation config_files := (gmap (list ascii) (result (gmap (list ascii) entry))).

(** The class attributes [_file_cache] and [_instance_cache], and the
    identity the next object gets. *)
Record store := Store {
  _file_cache : gmap (list ascii) (gmap (list ascii) entry);
  _instance_cache : gmap (list ascii * list ascii) LLMConfig;
  next_id : nat;
}.

Definition empty_store : store :=
  {| _file_cache := ∅; _instance_cache := ∅; next_id := 0 |}.

Section load.

(** [Path.resolve] and the path of models.json next to the module. *)
Context (resolve : str → str) (models_json : str).

(** [(Path(path) if path else Path(__file__).with_name('models.json')).resolve()] *)
Definition config_path_of (path : option str) : str :=
  match path with
  | Some (c :: p) => resolve (c :: p)
  | _ => resolve models_json
  end.

Definition instance_of (model : str) (e : entry) (id : nat) : LLMConfig :=
  {| obj_id := id;
     name := model;
     provider := default (default [] (e_type e)) (e_provider e);
     description := default [] (e_description e);
     base_url := default [] (e_base_url e);
     api_key := default [] (e_api_key e);
     temperature := default (Some 1%Q) (e_temperature e) |}.

(** [LLMConfig.load] *)
Definition load (model : str) (path : option str) (fs : config_files) (st : store)
  : store * result LLMConfig :=
  let config_path := config_path_of path in
  let cache_key := (config_path, model) in
  match _instance_cache st !! cache_key with
  | Some instance => (st, Ok instance)
  | None =>
      match fs !! config_path with
      | None => (st, Raise (Exn FileNotFoundError ("Config file not found: " ++ config_path)))
      | Some content =>
          let '(st1, loaded) :=
            match _file_cache st !! config_path with
            | Some data => (st, Ok data)
            | None =>
                match content with
                | Ok data =>
                    ({| _file_cache := <[config_path := data]> (_file_cache st);
                        _instance_cache := _instance_cache st;
                        next_id := next_id st |}, Ok data)
                | Raise e => (st, Raise e)
                end
            end in
          match loaded with
          | Raise e => (st1, Raise e)
          | Ok data =>
              match data !! model with
              | None =>
                  (st1, Raise (Exn ValueError
                     ("Model " ++ dquote :: model ++ dquote :: " not found in " ++ config_path)))
              | Some e =>
                  let instance := instance_of model e (next_id st1) in
                  ({| _file_cache := _file_cache st1;
                      _instance_cache := <[cache_key := instance]> (_instance_cache st1);
                      next_id := S (next_id st1) |}, Ok instance)
              end
          end
      end
  end.

End load.

(** *** models.py: the classes of the clients and the registry *)

Inductive llm_class :=
| AsyncOpenAILLM
| AsyncOllamaLLM
| AsyncGeminiLLM
| AsyncAnthropicLLM
| CustomLLM (class_name : str).

Global Instance llm_class_eq_dec : EqDecision llm_class.
Proof. solve_decision. Defined.

Definition _provider_registry : gmap (list ascii) llm_class :=
  list_to_map
    [("openai" : str, AsyncOpenAILLM); ("azure" : str, AsyncOpenAILLM);
     ("azure_openai" : str, AsyncOpenAILLM); ("ollama" : str, AsyncOllamaLLM);
     ("gemini" : str, AsyncGeminiLLM); ("google" : str, AsyncGeminiLLM);
     ("claude" : str, AsyncAnthropicLLM); ("anthropic" : str, AsyncAnthropicLLM)].

(** [AsyncLLM.register_provider] *)
Definition register_provider (provider : str) (cls : llm_class)
    (registry : gmap (list ascii) llm_class) : gmap (list ascii) llm_class :=
  <[lower provider := cls]> registry.

(** *** ollama_model.py: [AsyncOllamaLLM.__init__] *)

(** [text.split(sep)] with a one-character separator: every field, the
    empty ones too. *)
Fixpoint split_on (sep : ascii) (cur : str) (text : str) : list str :=
  match text with
  | [] => [cur]
  | c :: text' =>
      if bool_decide (c = sep) then cur :: split_on sep [] text'
      else split_on sep (cur ++ [c]) text'
  end.

(** [text.removesuffix(suffix)] *)
Definition removesuffix (suffix text : str) : str :=
  if endswith suffix text then take (length text - length suffix) text else text.

Inductive ollama_client :=
| InjectedClient (handle : nat)
| AsyncOllama (host : str).

Record AsyncOllamaLLM_obj := OllamaLLM {
  ollama_config : LLMConfig;
  _client : ollama_client;
}.

(** [AsyncOllamaLLM.__init__(config, client=...)] on [os.environ] *)
Definition AsyncOllamaLLM_init (config : LLMConfig) (client : option nat)
    (environ : gmap (list ascii) (list ascii))
  : gmap (list ascii) (list ascii) * AsyncOllamaLLM_obj :=
  match client with
  | Some handle =>
      (environ, {| ollama_config := config; _client := InjectedClient handle |})
  | None =>
      let host : str :=
        match base_url config with
        | [] => "http://localhost:11434"
        | _ => removesuffix "/v1" (rstrip "/" (base_url config))
        end in
      let no_proxy : str := default [] (environ !! ("NO_PROXY" : str)) in
      let environ' :=
        if negb (contains "localhost" no_proxy) && negb (contains "127.0.0.1" no_proxy)
        then
          let entries := filter (fun e => e ≠ []) (split_on "," [] no_proxy) in
          let entries := entries ++ ["localhost" : str; "127.0.0.1" : str] in
          <[("NO_PROXY" : str) := join "," entries]> environ
        else environ in
      (environ', {| ollama_config := config; _client := AsyncOllama host |})
  end.

(** *** The constructors of the provider clients *)

(** The keyword arguments of a call: each value is [None] or an object,
    and an object is taken to be truthy, as the clients of the SDKs
    are. *)
Abbreviation keywords := (gmap (list ascii) (option nat)).

(** [value or None] on a string *)
Definition or_None (value : str) : option str :=
  match value with
  | [] => None
  | _ :: _ => Some value
  end.

(** The [_client] of an instance of one of the three classes that ask an
    SDK for it: the object passed as [client], or the object the SDK's
    constructor returned. *)
Inductive sdk_client :=
| Injected (handle : nat)
| Built (object : nat).

(** What an instance is made of, by its class. *)
Inductive llm_body :=
| OfOpenAI (config : LLMConfig) (client : sdk_client)
| OfAnthropic (config : LLMConfig) (client : sdk_client)
| OfGemini (config : LLMConfig) (client : sdk_client)
| OfOllama (obj : AsyncOllamaLLM_obj)
| OfCustom (class_name : str) (object : nat).

(** The object [llm_class(config, **kwargs)] returns; [llm_id] is its
    identity, a fresh one at every construction. *)
Record llm := LLM {
  llm_id : nat;
  llm_body_of : llm_body;
}.

Definition class_of (body : llm_body) : llm_class :=
  match body with
  | OfOpenAI _ _ => AsyncOpenAILLM
  | OfAnthropic _ _ => AsyncAnthropicLLM
  | OfGemini _ _ => AsyncGeminiLLM
  | OfOllama _ => AsyncOllamaLLM
  | OfCustom class_name _ => CustomLLM class_name
  end.

(** [self.config] of an instance of one of the four classes of the
    package. *)
Definition config_of (body : llm_body) : option LLMConfig :=
  match body with
  | OfOpenAI config _ | OfAnthropic config _ | OfGemini config _ => Some config
  | OfOllama obj => Some (ollama_config obj)
  | OfCustom _ _ => None
  end.

(** What is not part of the sources: the constructors of the SDK clients,
    [AsyncOpenAI(api_key, base_url)], [AsyncAnthropic(api_key, base_url)]
    and [genai.Client(api_key)], each of which may read the environment
    and may raise; the call of a class registered from outside, which may
    change the environment; and the text of the interpreter's
    [TypeError] for a keyword a constructor does not take. *)
Record externals := Externals {
  AsyncOpenAI_new :
    option str → option str → gmap (list ascii) (list ascii) → result nat;
  AsyncAnthropic_new :
    option str → option str → gmap (list ascii) (list ascii) → result nat;
  genai_Client_new : option str → gmap (list ascii) (list ascii) → result nat;
  custom_new :
    str → LLMConfig → keywords → gmap (list ascii) (list ascii)
    → gmap (list ascii) (list ascii) * result nat;
  unexpected_keyword : llm_class → keywords → str;
}.

Section constructors.

Context (ext : externals).

(** Binding the keyword arguments to [__init__(self, config, *, client=None)],
    the signature of the four classes of the package: a keyword other
    than [client] is a [TypeError]. *)
Definition bind_client (cls : llm_class) (kwargs : keywords) : result (option nat) :=
  if bool_decide (delete ("client" : str) kwargs = ∅)
  then Ok (default None (kwargs !! ("client" : str)))
  else Raise (Exn (OtherException "TypeError") (unexpected_keyword ext cls kwargs)).

(** [client or build()] *)
Definition client_or (client : option nat) (build : result nat) : result sdk_client :=
  match client with
  | Some handle => Ok (Injected handle)
  | None => bind build (fun object => Ok (Built object))
  end.

(** [llm_class(config, **kwargs)] on [os.environ] *)
Definition construct (cls : llm_class) (config : LLMConfig) (kwargs : keywords)
    (environ : gmap (list ascii) (list ascii))
  : gmap (list ascii) (list ascii) * result llm_body :=
  match cls with
  | AsyncOpenAILLM =>
      (environ,
       bind (bind_client cls kwargs) (fun client =>
       bind (client_or client
               (AsyncOpenAI_new ext (or_None (api_key config))
                  (or_None (base_url config)) environ)) (fun c =>
       Ok (OfOpenAI config c))))
  | AsyncAnthropicLLM =>
      (environ,
       bind (bind_client cls kwargs) (fun client =>
       bind (client_or client
               (AsyncAnthropic_new ext (or_None (api_key config))
                  (or_None (base_url config)) environ)) (fun c =>
       Ok (OfAnthropic config c))))
  | AsyncGeminiLLM =>
      (environ,
       bind (bind_client cls kwargs) (fun client =>
       bind (client_or client
               (genai_Client_new ext (or_None (api_key config)) environ)) (fun c =>
       Ok (OfGemini config c))))
  | AsyncOllamaLLM =>
      match bind_client cls kwargs with
      | Raise e => (environ, Raise e)
      | Ok client =>
          let '(environ', obj) := AsyncOllamaLLM_init config client environ in
          (environ', Ok (OfOllama obj))
      end
  | CustomLLM class_name =>
      let '(environ', created) := custom_new ext class_name config kwargs environ in
      (environ', bind created (fun object => Ok (OfCustom class_name object)))
  end.

End constructors.

(** *** models.py: [AsyncLLM.__new__] *)

Section factory.

Context (resolve : str → str) (models_json : str) (ext : externals).

(** The store once an object has taken the next identity. *)
Definition allocated (st : store) : store :=
  {| _file_cache := _file_cache st; _instance_cache := _instance_cache st;
     next_id := S (next_id st) |}.

(** [AsyncLLM.__new__] *)
Definition AsyncLLM_new (registry : gmap (list ascii) llm_class) (model : str)
    (config_path : option str) (kwargs : keywords)
    (fs : config_files) (st : store) (environ : gmap (list ascii) (list ascii))
  : store * gmap (list ascii) (list ascii) * result llm :=
  let '(st', loaded) := load resolve models_json model config_path fs st in
  match loaded with
  | Raise e => (st', environ, Raise e)
  | Ok config =>
      let provider := lower (provider config) in
      let llm_class :=
        match registry !! provider with
        | Some cls => cls
        | None => AsyncOpenAILLM
        end in
      let '(environ', created) := construct ext llm_class config kwargs environ in
      match created with
      | Raise e => (st', environ', Raise e)
      | Ok body => (allocated st', environ', Ok (LLM (next_id st') body))
      end
  end.

End factory.

(** *** The [@retry] decorator of the provider clients *)

(** Modelled from the spec: the retry controller of the tenacity package,
    which is not part of the sources; only the decorator line with its
    arguments is.  The controller runs the decorated coroutine; a result
    is returned at once; an exception the [retry] predicate rejects
    propagates at once; otherwise, when [stop] says so, the last
    exception is raised again ([reraise=True]) or a [RetryError] is
    ([reraise=False]), and else the controller sleeps for [wait] and
    runs the coroutine again. *)
Record retry_policy := RetryPolicy {
  reraise : bool;
  stop_after_attempt : nat;
  wait : nat → nat;
  retry_if : exn → bool;
}.

(** [wait_exponential(multiplier, min, max)] after attempt number [n] *)
Definition wait_exponential (multiplier min_ max_ : nat) (n : nat) : nat :=
  Nat.max (Nat.max 0 min_) (Nat.min (multiplier * 2 ^ (n - 1)) max_).

(** What the controller did: the outcome of every attempt, in order, and
    the sleeps between them. *)
Record retry_trace (A : Type) := RetryTrace {
  outcomes : list (result A);
  sleeps : list nat;
}.
Arguments RetryTrace {A} outcomes sleeps.
Arguments outcomes {A} r.
Arguments sleeps {A} r.

Section retry.

Context {W A : Type}.
Context (policy : retry_policy).

(** One run of the decorated coroutine, on the state it works on. *)
Context (fn : W → W * result A).

(** Modelled from the spec: the loop of tenacity's controller, which is not
    part of the sources.  The controller from attempt [attempt_number]
    on; [remaining] is the number of attempts [stop] still allows after
    this one. *)
Fixpoint retry_from (remaining attempt_number : nat) (w : W) (tr : retry_trace A)
  : W * retry_trace A * result A :=
  let '(w', outcome) := fn w in
  let tr' := RetryTrace (outcomes tr ++ [outcome]) (sleeps tr) in
  match outcome with
  | Ok a => (w', tr', Ok a)
  | Raise e =>
      if retry_if policy e then
        match remaining with
        | 0 =>
            (w', tr',
             if reraise policy then Raise e
             else Raise (Exn (OtherException "RetryError") []))
        | S remaining' =>
            retry_from remaining' (S attempt_number) w'
              (RetryTrace (outcomes tr') (sleeps tr' ++ [wait policy attempt_number]))
        end
      else (w', tr', Raise e)
  end.

Definition retrying (w : W) : W * retry_trace A * result A :=
  retry_from (stop_after_attempt policy - 1) 1 w (RetryTrace [] []).

End retry.

(** The decorator line shared by [AsyncOpenAILLM.__call__],
    [AsyncAnthropicLLM.__call__], [AsyncOllamaLLM.__call__] and
    [AsyncGeminiLLM.__call__]:
    [@retry(reraise=True, stop=stop_after_attempt(3),
            wait=wait_exponential(multiplier=1, min=1, max=10),
            retry=retry_if_exception_type(Exception))] *)
Definition call_policy : retry_policy :=
  {| reraise := true;
     stop_after_attempt := 3;
     wait := wait_exponential 1 1 10;
     retry_if := is_Exception |}.

Section call.

Context {W Request Response : Type}.

(** The body of a client's [__call__]: the request built from the prompt
    and the options, one call of the provider's SDK, and
    [_extract_content] on its response. *)
Context (sdk_call : Request → W → W * result Response).
Context (_extract_content : Response → result str).

Definition call_once (request : Request) (w : W) : W * result str :=
  let '(w', response) := sdk_call request w in
  (w', bind response _extract_content).

(** A provider client's [__call__] *)
Definition call (request : Request) (w : W) : W * retry_trace str * result str :=
  retrying call_policy (call_once request) w.

End call.

End Models.

Import Models.

(** ** src/benchmarks/benchmark.py and hotpotqa.py: loading the partitions *)

Module Loading.

Global Instance DatasetType_eq_dec : EqDecision DatasetType.
Proof. solve_decision. Defined.

(** The value of a member of the enumeration. *)
Definition value (t : DatasetType) : str :=
  match t with
  | TRAIN => "train"
  | VALIDATE => "validate"
  | TEST => "test"
  | ALL => "all"
  end.

(** The members in the order of their definition, as [for item in cls]
    visits them. *)
Definition members : list DatasetType := [TRAIN; VALIDATE; TEST; ALL].

(** [DatasetType.from_value(value, default)]: a member, or [default] as it
    was passed. *)
Definition from_value {D : Type} (value_ : str) (default_ : D) : DatasetType + D :=
  let value_lower := lower value_ in
  match find (fun item => bool_decide (value item = value_lower)) members with
  | Some item => inl item
  | None => inr default_
  end.

(** [DatasetType.from_value(value)]: the default of the signature is
    evaluated in the class body, where [VALIDATE] still names the string. *)
Definition from_value_default (value_ : str) : DatasetType + list ascii :=
  from_value value_ ("validate" : str).

(** The entries of one benchmark in benchmarks.json, each read with
    [dict.get]. *)
Record datasets := Datasets {
  ds_train : option dataset_entry;
  ds_validate : option dataset_entry;
  ds_test : option dataset_entry;
}.

(** [self.dataset_type in (DatasetType.ALL, which)] *)
Definition selects (t which : DatasetType) : bool :=
  bool_decide (t = ALL) || bool_decide (t = which).

Definition set_train (data : option (list item)) (self : benchmark) : benchmark :=
  {| data_folder := data_folder self; dataset_type := dataset_type self;
     _train_data := data; _validate_data := _validate_data self;
     _test_data := _test_data self |}.

Definition set_validate (data : option (list item)) (self : benchmark) : benchmark :=
  {| data_folder := data_folder self; dataset_type := dataset_type self;
     _train_data := _train_data self; _validate_data := data;
     _test_data := _test_data self |}.

Definition set_test (data : option (list item)) (self : benchmark) : benchmark :=
  {| data_folder := data_folder self; dataset_type := dataset_type self;
     _train_data := _train_data self; _validate_data := _validate_data self;
     _test_data := data |}.

Section load_data.

Context (json_load : str → result (list item)) (json_loads : str → result item).
Context (net : network).

(** What [load_json] gives for the benchmarks.json of the package. *)
Context (benchmarks_json : result (gmap (list ascii) datasets)).

(** One of the three [if] statements of [load_data]: the partition is
    assigned when [load_dataset] has returned. *)
Definition load_partition (which : DatasetType) (entry : option dataset_entry)
    (assign : option (list item) → benchmark → benchmark)
    (force_reload : bool) (self : benchmark) (w : world)
  : world * benchmark * result unit :=
  if selects (dataset_type self) which then
    let '(w', loaded) := load_dataset json_load json_loads net self entry force_reload w in
    match loaded with
    | Ok data => (w', assign data self, Ok ())
    | Raise e => (w', self, Raise e)
    end
  else (w, self, Ok ()).

(** [HotpotQA.load_data]; the class name in lower case is hotpotqa. *)
Definition load_data (force_reload : bool) (self : benchmark) (w : world)
  : world * benchmark * result unit :=
  match benchmarks_json with
  | Raise e => (w, self, Raise e)
  | Ok benchmarks =>
      match benchmarks !! ("hotpotqa" : str) with
      | None =>
          (w, self,
           Raise (Exn ValueError "Benchmark hotpotqa not found in benchmarks.json"))
      | Some entries =>
          let '(w1, self1, r1) :=
            load_partition TRAIN (ds_train entries) set_train force_reload self w in
          match r1 with
          | Raise e => (w1, self1, Raise e)
          | Ok _ =>
              let '(w2, self2, r2) :=
                load_partition VALIDATE (ds_validate entries) set_validate
                  force_reload self1 w1 in
              match r2 with
              | Raise e => (w2, self2, Raise e)
              | Ok _ =>
                  load_partition TEST (ds_test entries) set_test force_reload self2 w2
              end
          end
      end
  end.

(** [os.path.normpath(os.path.expanduser(path))] *)
Context (normalize_path : str → str).

(** [HotpotQA(data_folder, dataset_type)]: [Benchmark.__init__] sets the
    three partitions to [None], creates the folder and calls
    [load_data()]. *)
Definition HotpotQA_init (folder : option str) (t : DatasetType) (w : world)
  : world * result benchmark :=
  let location :=
    normalize_path
      match folder with
      | Some (c :: f) => c :: f
      | _ => "~/.sema/benchmarks" : str
      end in
  match makedirs location with
  | Raise e => (w, Raise e)
  | Ok _ =>
      let '(w', self, r) :=
        load_data false
          {| data_folder := location; dataset_type := t;
             _train_data := None; _validate_data := None; _test_data := None |} w in
      (w', bind r (fun _ => Ok self))
  end.

End load_data.

End Loading.

(** ** src/agents/agent.py *)

Module Agents.

Record AgentConfig := AgentConfig_ {
  model : str;
  max_steps : Z;
  verbose : bool;
  temperature : option Q;
}.

(** An agent: its configuration and the private attribute [_llm]. *)
Record Agent := Agent_ {
  config : AgentConfig;
  _llm : option llm;
}.

Section agent.

Context (resolve : str → str) (models_json : str) (ext : externals).

(** The property [Agent.llm], on the registry of [AsyncLLM], the
    configuration files, the store of [LLMConfig] and the environment. *)
Definition Agent_llm (registry : gmap (list ascii) llm_class) (self : Agent)
    (fs : config_files) (st : store) (environ : gmap (list ascii) (list ascii))
  : Agent * store * gmap (list ascii) (list ascii) * result llm :=
  match _llm self with
  | Some client => (self, st, environ, Ok client)
  | None =>
      let '(st', environ', created) :=
        AsyncLLM_new resolve models_json ext registry (model (config self)) None ∅
          fs st environ in
      match created with
      | Ok client =>
          ({| config := config self; _llm := Some client |}, st', environ', Ok client)
      | Raise e => (self, st', environ', Raise e)
      end
  end.

(** [Agent.reset] *)
Definition reset (self : Agent) : Agent :=
  {| config := config self; _llm := None |}.

End agent.

End Agents.

(** ** src/utils/logger.py *)

Module Logger.

Inductive handler :=
| ConsoleHandler
| FileHandler (log_file : str).

(** The loggers of the process: the root logger with its handlers, and
    the level of every named logger ([NOTSET], 0, when never set). *)
Record logging := Logging {
  root_level : nat;
  root_handlers : list handler;
  named_levels : gmap (list ascii) nat;
}.

(** A logger object: the root logger, or the logger of a name that does
    not name the root logger. *)
Inductive logger :=
| Root
| Named (name : str).

(** [get_logger(name)], which is [logging.getLogger(name)]: the empty name
    and the name root give the root logger itself. *)
Definition get_logger (name : str) : logger :=
  if bool_decide (name = []) || bool_decide (name = ("root" : str)) then Root
  else Named name.

(** [logger.level] *)
Definition level_of (target : logger) (lg : logging) : nat :=
  match target with
  | Root => root_level lg
  | Named name => default 0 (named_levels lg !! name)
  end.

(** [logger.setLevel(level)] *)
Definition setLevel (target : logger) (level : nat) (lg : logging) : logging :=
  match target with
  | Root =>
      {| root_level := level; root_handlers := root_handlers lg;
         named_levels := named_levels lg |}
  | Named name =>
      {| root_level := root_level lg; root_handlers := root_handlers lg;
         named_levels := <[name := level]> (named_levels lg) |}
  end.

Definition addHandler (h : handler) (lg : logging) : logging :=
  {| root_level := root_level lg; root_handlers := root_handlers lg ++ [h];
     named_levels := named_levels lg |}.

Section setup.

(** Opening the log file once its directory has been created: the
    exception raised, if any. *)
Context (open_log : str → option exn).

(** [setup_logging(log_file, level)] *)
Definition setup_logging (log_file : option str) (level : nat) (lg : logging)
  : logging * result unit :=
  match root_handlers lg with
  | _ :: _ => (lg, Ok ())
  | [] =>
      let lg1 := addHandler ConsoleHandler (setLevel Root level lg) in
      match log_file with
      | Some (c :: f) =>
          match makedirs (dirname (c :: f)) with
          | Raise e => (lg1, Raise e)
          | Ok _ =>
              match open_log (c :: f) with
              | Some e => (lg1, Raise e)
              | None => (addHandler (FileHandler (c :: f)) lg1, Ok ())
              end
          end
      | _ => (lg1, Ok ())
      end
  end.

End setup.

(** [with suppress_logging(level, logger): body]: the body runs between
    the two [setLevel] calls; the second one is in a [finally]. *)
Definition suppress_logging {A : Type} (level : nat) (target : option logger)
    (body : logging → logging * result A) (lg : logging) : logging * result A :=
  let target_logger := default Root target in
  let original_level := level_of target_logger lg in
  let '(lg', outcome) := body (setLevel target_logger level lg) in
  (setLevel target_logger original_level lg', outcome).

End Logger.

(** ** src/benchmarks/hotpotqa.py: the loop of [run] on records as they are parsed *)

Module Records.

(** A dataset object as [json.load] gives it, before [run] has read any
    key: each of the four keys may be missing. *)
Record json_object := JsonObject {
  key_id : option str;
  key_question : option str;
  key_context : option (list (str * list str));
  key_answer : option pyval;
}.

(** [KeyError(key)], whose [str] is the [repr] of the key *)
Definition KeyError (key : str) : exn :=
  Exn (OtherException "KeyError") ("'" ++ key ++ "'").

(** The head of the loop body, before the [try]: [item['question']] and
    [item['answer']] raise for a missing key, [item.get('context', [])]
    does not; [item.get('_id', i)] comes later and does not either. *)
Definition read_keys (o : json_object) : result item :=
  match key_question o with
  | None => Raise (KeyError "question")
  | Some question =>
      match key_answer o with
      | None => Raise (KeyError "answer")
      | Some ground_truth =>
          Ok {| item_id := key_id o; item_question := question;
                item_context := key_context o; item_answer := ground_truth |}
      end
  end.

Section run.

Context {W : Type}.
Context (callback : str → list (str * list str) → W → W * result pyval).

(** [for i, item in enumerate(data)] from index [i] on, as
    [Benchmark.run_loop], with the subscripts at the head of the body: a
    [KeyError] there is outside the [try] and leaves the loop and [run]. *)
Fixpoint run_loop_records (verbose : bool) (n i : nat) (data : list json_object)
    (st : run_state) (acc : totals) : run_state * result totals :=
  match data with
  | [] => (st, Ok acc)
  | o :: data' =>
      match read_keys o with
      | Raise e => (st, Raise e)
      | Ok x =>
          let st0 := log verbose (InfoProcessing (i + 1) n (take 50 (item_question x))) st in
          let '(st1, attempt) := attempt_item callback x st0 in
          let step (st2 : run_state) (r : sample_result) (em f1 : Q) :=
            let st3 := log verbose (InfoScores (r_em r) (r_f1 r)) st2 in
            run_loop_records verbose n (S i) data' st3
              {| results := results acc ++ [r];
                 total_em := total_em acc + em; total_f1 := total_f1 acc + f1 |} in
          match attempt with
          | Ok (prediction, ev) =>
              step st1 (passed_result x i prediction ev) (ev_em ev) (ev_f1 ev)
          | Raise e =>
              if is_Exception e then
                step (log true (ErrorProcessing i e) st1) (failed_result x i e) 0%Q 0%Q
              else (st1, Raise e)
          end
      end
  end.

(** [HotpotQA.run] from the loop on: [data] is the partition after the
    limit. *)
Definition run_samples (verbose : bool) (data : list json_object) (st : run_state)
  : run_state * result run_output :=
  let '(st', r) :=
    run_loop_records verbose (length data) 0 data st
      {| results := []; total_em := 0; total_f1 := 0 |} in
  (st', bind r (fun acc => Ok (aggregate acc))).

End run.

End Records.

(** * Notions used in the statements *)

Module Notions.

(** ** The substitution, by runs of word characters

    What [re.sub] does with the pattern, told without the scan: a
    maximal run of word characters that is one of the three articles
    becomes one space, every other character stays.  [w] is the run being
    read, which began at a word boundary. *)
Definition is_article (w : str) : bool := bool_decide (w ∈ articles).

Definition flush (w : str) : str := if is_article w then " " : str else w.

Fixpoint by_runs (w : str) (text : str) : str :=
  match text with
  | [] => flush w
  | c :: text' =>
      if is_word c then by_runs (w ++ [c]) text'
      else flush w ++ c :: by_runs [] text'
  end.

(** The same from a position inside a run that began earlier: the rest of
    that run stays. *)
Fixpoint inside_run (text : str) : str :=
  match text with
  | [] => []
  | c :: text' => c :: (if is_word c then inside_run text' else by_runs [] text')
  end.

(** The word characters a text begins with, and what follows them. *)
Fixpoint word_prefix (text : str) : str :=
  match text with
  | c :: text' => if is_word c then c :: word_prefix text' else []
  | [] => []
  end.

Fixpoint after_word (text : str) : str :=
  match text with
  | c :: text' => if is_word c then after_word text' else text
  | [] => []
  end.

Definition tail_runs (text : str) : str :=
  match text with [] => [] | c :: text' => c :: by_runs [] text' end.

(** ** Tokens *)

Definition is_token (t : str) : Prop :=
  t ≠ [] ∧ Forall (λ c, isspace c = false) t.

(** A text as its tokens and the whitespace between them. *)
Inductive Tokenized : str → list str → Prop :=
| Tokenized_nil : Tokenized [] []
| Tokenized_space c text parts :
    isspace c = true → Tokenized text parts → Tokenized (c :: text) parts
| Tokenized_last t : is_token t → Tokenized t [t]
| Tokenized_token t c text parts :
    is_token t → isspace c = true → Tokenized text parts →
    Tokenized (t ++ c :: text) (t :: parts).

(** ** A run of the benchmark *)

Definition sum_of (f : sample_result → Q) (rs : list sample_result) : Q :=
  foldr (fun r s => (f r + s)%Q) 0%Q rs.

(** The arguments [run] calls the callback with for a sample. *)
Definition call_args (x : item) : str * list (str * list str) :=
  (item_question x, default [] (item_context x)).

(** What the callback does on the samples when it is called on each in
    order, from the state [w]. *)
Fixpoint callback_outcomes {W : Type}
    (callback : str → list (str * list str) → W → W * result pyval)
    (data : list item) (w : W) : list (result pyval) :=
  match data with
  | [] => []
  | x :: data' =>
      let '(w', o) := callback (call_args x).1 (call_args x).2 w in
      o :: callback_outcomes callback data' w'
  end.

(** The result [run] records for the sample [x] at index [i] when the
    callback's outcome is [o]. *)
Definition recorded (x : item) (i : nat) (o : result pyval) (r : sample_result) : Prop :=
  match o with
  | Ok prediction =>
      ∃ ev, evaluate prediction (item_answer x) = Ok ev
            ∧ r = passed_result x i prediction ev
  | Raise e => r = failed_result x i e
  end.

Inductive recorded_from
  : nat → list item → list (result pyval) → list sample_result → Prop :=
| recorded_nil i : recorded_from i [] [] []
| recorded_cons i x data o outs r rs :
    recorded x i o r → recorded_from (S i) data outs rs →
    recorded_from i (x :: data) (o :: outs) (r :: rs).

(** ** Attempts of a retried call *)

(** What the coroutine gives when it is run [n] times in a row. *)
Fixpoint run_in_a_row {W A} (fn : W → W * result A) (n : nat) (w : W)
  : list (result A) :=
  match n with
  | 0 => []
  | S n' => let '(w', outcome) := fn w in outcome :: run_in_a_row fn n' w'
  end.

(** The state the coroutine leaves when it has been run [n] times in a row. *)
Fixpoint state_after {W A} (fn : W → W * result A) (n : nat) (w : W) : W :=
  match n with
  | 0 => w
  | S n' => state_after fn n' (fn w).1
  end.

(** An attempt after which the controller went on. *)
Definition retried {A} (o : result A) : Prop :=
  ∃ e, o = Raise e ∧ is_Exception e = true.

End Notions.

Import Notions.

(** * Inputs of the examples *)

Module Samples.

(** A callback that answers with the question. *)
Definition echo (question : str) (context : list (str * list str)) (w : unit)
  : unit * result pyval :=
  (w, Ok (PyStr question)).

(** A callback that counts its calls and raises on the second one. *)
Definition second_call_fails (question : str) (context : list (str * list str))
    (calls : nat) : nat * result pyval :=
  (S calls,
   if bool_decide (calls = 1)
   then Raise (Exn (OtherException "RuntimeError") "no answer")
   else Ok (PyStr question)).

(** A callback whose exception has no message, as [asyncio.TimeoutError()]
    has none, and one that raises outside [Exception]. *)
Definition times_out (question : str) (context : list (str * list str))
    (w : unit) : unit * result pyval :=
  (w, Raise (Exn (OtherException "TimeoutError") [])).

Definition cancelled (question : str) (context : list (str * list str))
    (w : unit) : unit * result pyval :=
  (w, Raise (Exn (BaseExceptionOnly "CancelledError") [])).

Definition three_items : list item :=
  [Item (Some ("q1" : str)) "Paris" None (PyStr "Paris");
   Item None "Rome" None (PyStr "Rome");
   Item None "Oslo" (Some []) (PyStr "Bergen")].

Definition unloaded_bench : benchmark :=
  Bench "data" ALL None None None.

Definition loaded_bench : benchmark :=
  Bench "data" VALIDATE None (Some three_items) None.

Definition one_item_bench : benchmark :=
  Bench "data" VALIDATE None (Some [Item None "Rome" None (PyStr "Rome")]) None.

(** models.json with one model, and after a second model was added. *)
Definition entry0 : entry :=
  ModelEntry (Some ("openai" : str)) None None None None None.

Definition fs_one : config_files :=
  {[ ("models.json" : str) := Ok {[ ("m1" : str) := entry0 ]} ]}.

Definition fs_two : config_files :=
  {[ ("models.json" : str) :=
       Ok (<[("m2" : str) := entry0]> {[ ("m1" : str) := entry0 ]}) ]}.

(** The store after m1 was loaded from the file with one model. *)
Definition store_one : store :=
  (load id "models.json" "m1" None fs_one empty_store).1.

(** A model of a provider the registry does not know. *)
Definition tgi_entry : entry :=
  ModelEntry (Some ("TGI" : str)) None None (Some ("http://tgi:8080" : str)) None None.

Definition tgi_files : config_files :=
  {[ ("models.json" : str) := Ok {[ ("local-7b" : str) := tgi_entry ]} ]}.

Definition tgi_config : LLMConfig := instance_of "local-7b" tgi_entry 0.

Definition tgi_store : store :=
  {| _file_cache :=
       {[ ("models.json" : str) := {[ ("local-7b" : str) := tgi_entry ]} ]};
     _instance_cache :=
       {[ ("models.json" : str, "local-7b" : str) := tgi_config ]};
     next_id := 1 |}.

Definition llama_config : LLMConfig :=
  instance_of "llama3" (ModelEntry None None None None None None) 0.

(** SDK constructors of which the one of the OpenAI client needs an API
    key, from its argument or from OPENAI_API_KEY in the environment, and
    raises without one. *)
Definition sdk_needs_key : externals :=
  {| AsyncOpenAI_new := fun api_key base_url environ =>
       if bool_decide (api_key = None)
          && bool_decide (environ !! ("OPENAI_API_KEY" : str) = None)
       then Raise (Exn (OtherException "OpenAIError")
                     "The api_key client option must be set")
       else Ok 11;
     AsyncAnthropic_new := fun _ _ _ => Ok 12;
     genai_Client_new := fun _ _ => Ok 13;
     custom_new := fun _ _ _ environ => (environ, Ok 14);
     unexpected_keyword := fun _ _ => "got an unexpected keyword argument" |}.

(** An SDK that answers from a script: each call takes the next outcome. *)
Definition scripted (request : unit) (script : list (result str))
  : list (result str) * result str :=
  match script with
  | [] => ([], Raise (Exn (OtherException "StopAsyncIteration") []))
  | o :: script' => (script', o)
  end.

Definition connection_error : exn := Exn (OtherException "APIConnectionError") "down".
Definition timeout_error : exn := Exn (OtherException "APITimeoutError") "slow".
Definition rate_limit_error : exn := Exn (OtherException "RateLimitError") "busy".
Definition cancelled_error : exn := Exn (BaseExceptionOnly "CancelledError") [].

End Samples.

Import Samples.

(** * Notions used in the further statements *)

Module Observations.

Import Loading.

(** No run of word characters of the text is an article; [w] is the run
    being read. *)
Fixpoint article_free (w : str) (text : str) : Prop :=
  match text with
  | [] => w ∉ articles
  | c :: text' =>
      if is_word c then article_free (w ++ [c]) text'
      else (w ∉ articles) ∧ article_free [] text'
  end.

(** The partition [run] reads for a name, when the name is one of the
    three. *)
Definition partition_named (self : benchmark) (dataset : str)
  : option (option (list item)) :=
  if decide (dataset = "train") then Some (_train_data self)
  else if decide (dataset = "validate") then Some (_validate_data self)
  else if decide (dataset = "test") then Some (_test_data self)
  else None.

(** An outcome [run] goes on after: a prediction, or an instance of
    [Exception]. *)
Definition survivable (o : result pyval) : Prop :=
  ∀ e, o = Raise e → is_Exception e = true.

(** The requests of [k] attempts of a download of [url]: each attempt is a
    HEAD request, followed or not by a GET request. *)
Inductive Attempts (url : str) : nat → list request → Prop :=
| Attempts_none : Attempts url 0 []
| Attempts_head k sent :
    Attempts url k sent → Attempts url (S k) (Head url :: sent)
| Attempts_get k range sent :
    Attempts url k sent → Attempts url (S k) (Head url :: Get url range :: sent).

(** The manifest entry of a partition. *)
Definition entry_of (which : DatasetType) (entries : datasets) : option dataset_entry :=
  match which with
  | TRAIN => ds_train entries
  | VALIDATE => ds_validate entries
  | TEST => ds_test entries
  | ALL => None
  end.

(** The instance cache of a store is coherent: a cached object carries the
    model name of its key and an identity already given out, and no two
    keys hold the same object. *)
Definition coherent (st : store) : Prop :=
  ∀ k c, _instance_cache st !! k = Some c →
    name c = k.2
    ∧ obj_id c < next_id st
    ∧ ∀ k' c', _instance_cache st !! k' = Some c' → obj_id c' = obj_id c → k' = k.

(** The value of NO_PROXY, as [os.environ.get('NO_PROXY', '')] reads it. *)
Definition no_proxy_of (environ : gmap (list ascii) (list ascii)) : str :=
  default [] (environ !! ("NO_PROXY" : str)).

End Observations.

(** * Inputs of the further examples *)

Module Scenarios.

Import Loading.

(** A callback that is cancelled on its second call. *)
Definition cancelled_second (question : str) (context : list (str * list str))
    (calls : nat) : nat * result pyval :=
  (S calls,
   if bool_decide (calls = 1)
   then Raise (Exn (BaseExceptionOnly "CancelledError") [])
   else Ok (PyStr question)).

(** Three parsed records, the last of which has no answer, and the two
    items the first two are read as. *)
Definition three_objects : list Records.json_object :=
  [Records.JsonObject (Some ("q1" : str)) (Some ("Paris" : str)) None (Some (PyStr "Paris"));
   Records.JsonObject None (Some ("Rome" : str)) None (Some (PyStr "Rome"));
   Records.JsonObject None (Some ("Oslo" : str)) (Some []) None].

Definition two_items : list item :=
  [Item (Some ("q1" : str)) "Paris" None (PyStr "Paris");
   Item None "Rome" None (PyStr "Rome")].

(** A server that announces one length and then fails every GET. *)
Definition failing_get (announced : nat) : network :=
  {| on_head := fun _ _ => Ok announced;
     on_get := fun _ _ _ => Raise (Exn (OtherException "ConnectionError") "reset") |}.

(** A folder with one file, of four characters. *)
Definition one_file : world :=
  {| files := {[ ("d/dev.json" : str) := ("[{}]" : str) ]}; requests := [] |}.

(** The entries of a benchmark that has a validation file only, the
    manifest that holds them, and a benchmark object for the folder of
    [one_file] with nothing loaded. *)
Definition dev_entries : datasets :=
  {| ds_train := None;
     ds_validate := Some (Entry "dev.json" "http://h/dev.json");
     ds_test := None |}.

Definition dev_manifest : gmap (list ascii) datasets :=
  {[ ("hotpotqa" : str) := dev_entries ]}.

Definition fresh_bench (t : DatasetType) : benchmark :=
  {| data_folder := "d"; dataset_type := t;
     _train_data := None; _validate_data := None; _test_data := None |}.

(** An agent for the model local-7b that has not used its client yet, and
    the agent once it has. *)
Definition tgi_agent : Agents.Agent :=
  {| Agents.config :=
       {| Agents.model := "local-7b"; Agents.max_steps := 5;
          Agents.verbose := false; Agents.temperature := None |};
     Agents._llm := None |}.

Definition keyed_environ : gmap (list ascii) (list ascii) :=
  {[ ("OPENAI_API_KEY" : str) := ("sk-test" : str) ]}.

Definition tgi_client : llm := LLM 1 (OfOpenAI tgi_config (Built 11)).

Definition tgi_agent_used : Agents.Agent :=
  {| Agents.config := Agents.config tgi_agent; Agents._llm := Some tgi_client |}.

End Scenarios.

(** * Properties *)

(** ** Characters *)

Ltac each_ascii c := destruct c as [[] [] [] [] [] [] [] []].

Lemma lower_char_idem c : lower_char (lower_char c) = lower_char c.
Proof. each_ascii c; reflexivity. Qed.

Lemma isspace_not_word c : isspace c = true → is_word c = false.
Proof. each_ascii c; vm_compute; congruence. Qed.

Lemma word_prefix_after text : text = word_prefix text ++ after_word text.
Proof. induction text as [|c t IH]; simpl; [done|]. destruct (is_word c); simpl; congruence. Qed.

Lemma after_word_head text : is_word_at (head (after_word text)) = false.
Proof. induction text as [|c t IH]; simpl; [done|]. destruct (is_word c) eqn:E; simpl; auto. Qed.

Lemma by_runs_prefix text w :
  by_runs w text = flush (w ++ word_prefix text) ++ tail_runs (after_word text).
Proof.
  revert w; induction text as [|c t IH]; intros w; simpl.
  - by rewrite !app_nil_r.
  - destruct (is_word c) eqn:E; simpl.
    + rewrite IH. by rewrite <-app_assoc.
    + by rewrite app_nil_r.
Qed.

Lemma inside_run_prefix text :
  inside_run text = word_prefix text ++ tail_runs (after_word text).
Proof.
  induction text as [|c t IH]; simpl; [done|].
  destruct (is_word c) eqn:E; simpl; [by rewrite IH|done].
Qed.

Lemma articles_word alt :
  alt ∈ articles →
  Forall (λ c, is_word c = true) alt ∧ alt ≠ [] ∧ is_word_at (last alt) = true.
Proof.
  unfold articles. rewrite !elem_of_cons, elem_of_nil.
  intros [->|[->|[->|[]]]]; (split; [repeat constructor|split; [done|reflexivity]]).
Qed.

(** What a match is. *)
Lemma match_alt_Some alt text r :
  match_alt alt text = Some r →
  r = (alt, drop (length alt) text) ∧ text = alt ++ r.2
  ∧ is_word_at (last alt) ≠ is_word_at (head r.2).
Proof.
  unfold match_alt. case_bool_decide as Hp; [|done].
  destruct (word_boundary _ _) eqn:Hb; [|done]. intros [= <-]. simpl.
  destruct Hp as [k ->]. rewrite drop_app_length. split_and!; [done..|].
  rewrite drop_app_length in Hb. unfold word_boundary in Hb.
  destruct (is_word_at (last alt)), (is_word_at (head k)); done.
Qed.

Lemma first_alt_Some alts text r :
  first_alt alts text = Some r →
  r.1 ∈ alts ∧ text = r.1 ++ r.2 ∧ is_word_at (last r.1) ≠ is_word_at (head r.2).
Proof.
  induction alts as [|alt alts IH]; simpl; [done|].
  destruct (match_alt alt text) as [r'|] eqn:E.
  - intros [= ->]. apply match_alt_Some in E as (-> & ? & ?). simpl in *.
    split_and!; [left|done..].
  - intros H. destruct (IH H) as (? & ? & ?). split_and!; [by right|done..].
Qed.

Lemma match_here_Some prev text alt rest :
  match_here prev text = Some (alt, rest) →
  is_word_at prev = false ∧ alt ∈ articles ∧ text = alt ++ rest
  ∧ is_word_at (head rest) = false.
Proof.
  unfold match_here. destruct (word_boundary _ _) eqn:Hb; [|done].
  intros H. apply first_alt_Some in H as (Hin & -> & Hne). simpl in *.
  destruct (articles_word _ Hin) as (Hw & Hnil & Hl).
  rewrite Hl in Hne. split_and!; [|done..|by destruct (is_word_at (head rest))].
  unfold word_boundary in Hb. destruct alt as [|a alt]; [done|]. simpl in Hb.
  apply Forall_cons in Hw as [Ha _]. rewrite Ha in Hb. by destruct (is_word_at prev).
Qed.

Lemma match_alt_app alt rest :
  match_alt alt (alt ++ rest)
  = if word_boundary (last alt) (head rest) then Some (alt, rest) else None.
Proof.
  unfold match_alt. rewrite bool_decide_eq_true_2 by (by eexists).
  by rewrite drop_app_length.
Qed.

Lemma match_alt_mismatch a alt b text :
  a ≠ b → match_alt (a :: alt) (b :: text) = None.
Proof.
  intros Hne. unfold match_alt. rewrite bool_decide_eq_false_2; [done|].
  intros [k Hk]. simplify_eq/=.
Qed.

Lemma match_here_article prev rest alt :
  is_word_at prev = false → alt ∈ articles → is_word_at (head rest) = false →
  match_here prev (alt ++ rest) = Some (alt, rest).
Proof.
  intros Hp Hin Hr. unfold match_here, word_boundary. rewrite Hp.
  unfold articles in Hin. rewrite !elem_of_cons, elem_of_nil in Hin.
  destruct Hin as [->|[->|[->|[]]]].
  - change (first_alt articles ("a" ++ rest)) with
      (match match_alt "a" ("a" ++ rest) with Some r => Some r | None =>
         first_alt ["an" : str; "the" : str] ("a" ++ rest) end).
    rewrite match_alt_app. unfold word_boundary. by rewrite Hr.
  - change (first_alt articles ("an" ++ rest)) with
      (match match_alt "a" ("a" ++ ("n" ++ rest)) with Some r => Some r | None =>
         match match_alt "an" ("an" ++ rest) with Some r => Some r | None =>
         first_alt ["the" : str] ("an" ++ rest) end end).
    rewrite !match_alt_app. unfold word_boundary. by rewrite Hr.
  - change (first_alt articles ("the" ++ rest)) with
      (match match_alt "a" ("the" ++ rest) with Some r => Some r | None =>
         match match_alt "an" ("the" ++ rest) with Some r => Some r | None =>
         match match_alt "the" ("the" ++ rest) with Some r => Some r | None =>
         None end end end).
    rewrite match_alt_app. unfold word_boundary. rewrite Hr.
    replace (match_alt "a" ("the" ++ rest)) with (@None (list ascii * list ascii))
      by (symmetry; by apply (match_alt_mismatch "a" [] "t")).
    replace (match_alt "an" ("the" ++ rest)) with (@None (list ascii * list ascii))
      by (symmetry; by apply (match_alt_mismatch "a" ["n"%char] "t")).
    done.
Qed.

Lemma word_prefix_boundary rest :
  is_word_at (head rest) = false → word_prefix rest = [] ∧ after_word rest = rest.
Proof. destruct rest as [|c r]; simpl; [done|]. by intros ->. Qed.

Lemma word_prefix_app w rest :
  Forall (λ c, is_word c = true) w → is_word_at (head rest) = false →
  word_prefix (w ++ rest) = w ∧ after_word (w ++ rest) = rest.
Proof.
  intros Hw Hr. induction Hw as [|c w Hc Hw IH]; simpl.
  - by apply word_prefix_boundary.
  - rewrite Hc. destruct IH as [-> ->]. done.
Qed.

Lemma flush_article alt : alt ∈ articles → flush alt = " ".
Proof. intros H. unfold flush, is_article. by rewrite bool_decide_eq_true_2. Qed.

Lemma flush_other w : w ∉ articles → flush w = w.
Proof. intros H. unfold flush, is_article. by rewrite bool_decide_eq_false_2. Qed.

(** The substitution does what the runs say, from either kind of
    position, when the fuel covers the text. *)
Lemma sub_from_runs fuel : ∀ prev text,
  length text ≤ fuel →
  sub_from fuel prev text
  = if is_word_at prev then inside_run text else by_runs [] text.
Proof.
  induction fuel as [|fuel IH]; intros prev [|c text] Hlen; simpl in Hlen; try lia.
  - by destruct (is_word_at prev).
  - by destruct (is_word_at prev).
  - cbn [sub_from]. destruct (match_here prev (c :: text)) as [[alt rest]|] eqn:E.
    + apply match_here_Some in E as (Hp & Hin & Heq & Hr). rewrite Hp.
      destruct (articles_word _ Hin) as (Hw & Hnil & Hl).
      rewrite IH, Hl.
      2:{ apply (f_equal length) in Heq. rewrite length_app in Heq. simpl in Heq.
          destruct alt; [done|]. simpl in Heq. lia. }
      rewrite Heq, by_runs_prefix, inside_run_prefix.
      destruct (word_prefix_app alt rest Hw Hr) as [-> ->].
      destruct (word_prefix_boundary rest Hr) as [-> ->].
      by rewrite app_nil_l, flush_article.
    + rewrite IH by lia. cbn [is_word_at].
      destruct (is_word_at prev) eqn:Hp; [done|].
      destruct (is_word c) eqn:Hc; [|simpl; by rewrite Hc].
      change (c :: inside_run text)
        with (c :: (if true then inside_run text else by_runs [] text)).
      rewrite <-Hc.
      change (c :: (if is_word c then inside_run text else by_runs [] text))
        with (inside_run (c :: text)).
      rewrite by_runs_prefix, inside_run_prefix, app_nil_l.
      rewrite flush_other; [done|]. intros Hin.
      rewrite (word_prefix_after (c :: text)) in E.
      rewrite match_here_article in E; [done..|]. apply after_word_head.
Qed.

(** Removing the articles, by runs of word characters. *)
Lemma remove_articles_runs text : remove_articles text = by_runs [] text.
Proof. unfold remove_articles. by rewrite sub_from_runs. Qed.

Lemma by_runs_word w u text :
  Forall (λ c, is_word c = true) u → by_runs w (u ++ text) = by_runs (w ++ u) text.
Proof.
  intros Hu. revert w. induction Hu as [|c u Hc Hu IH]; intros w; simpl.
  - by rewrite app_nil_r.
  - rewrite Hc, IH. by rewrite <-app_assoc.
Qed.

Lemma by_runs_app w u c v :
  is_word c = false → by_runs w (u ++ c :: v) = by_runs w u ++ c :: by_runs [] v.
Proof.
  intros Hc. revert w. induction u as [|d u IH]; intros w; simpl.
  - by rewrite Hc.
  - destruct (is_word d); [apply IH|]. rewrite IH. by rewrite <-app_assoc.
Qed.

Lemma flush_cases w : flush w = " " ∨ (flush w = w ∧ w ∉ articles).
Proof. unfold flush, is_article. case_bool_decide; auto. Qed.

Lemma by_runs_idem text : ∀ w,
  Forall (λ c, is_word c = true) w → by_runs [] (by_runs w text) = by_runs w text.
Proof.
  induction text as [|c text IH]; intros w Hw; simpl.
  - destruct (flush_cases w) as [->|[-> Hn]]; [done|].
    rewrite <-(app_nil_r w) at 1. rewrite by_runs_word by done. simpl.
    by apply flush_other.
  - destruct (is_word c) eqn:Hc.
    + apply IH. apply Forall_app; split; [done|]. by constructor.
    + destruct (flush_cases w) as [->|[-> Hn]].
      * simpl. rewrite Hc. simpl. by rewrite IH.
      * rewrite by_runs_app by done. f_equal.
        -- rewrite <-(app_nil_r w) at 1. rewrite by_runs_word by done. simpl.
           by apply flush_other.
        -- f_equal. by apply IH.
Qed.

Lemma remove_articles_idem text :
  remove_articles (remove_articles text) = remove_articles text.
Proof. rewrite !remove_articles_runs. by apply by_runs_idem. Qed.

(** ** split and join *)

Lemma split_from_token u : ∀ cur text,
  Forall (λ c, isspace c = false) u →
  split_from cur (u ++ text) = split_from (cur ++ u) text.
Proof.
  induction u as [|c u IH]; intros cur text Hu; simpl.
  - by rewrite app_nil_r.
  - apply Forall_cons in Hu as [-> Hu]. rewrite IH by done. by rewrite <-app_assoc.
Qed.

Lemma split_from_app u : ∀ cur c v,
  isspace c = true →
  split_from cur (u ++ c :: v) = split_from cur u ++ split_from [] v.
Proof.
  induction u as [|d u IH]; intros cur c v Hc; simpl.
  - by rewrite Hc.
  - destruct (isspace d); [|by apply IH]. rewrite IH by done. by rewrite <-app_assoc.
Qed.

Lemma split_token t : is_token t → split t = [t].
Proof.
  intros [Hne Ht]. unfold split. rewrite <-(app_nil_r t) at 1.
  rewrite split_from_token by done. simpl. by destruct t.
Qed.

Lemma split_join parts : split (join " " parts) = parts ≫= split.
Proof.
  induction parts as [|p parts IH]; [done|].
  destruct parts as [|q parts].
  - simpl. by rewrite app_nil_r.
  - change (join " " (p :: q :: parts)) with (p ++ " "%char :: join " " (q :: parts)).
    unfold split at 1. rewrite split_from_app by done.
    fold (split p). fold (split (join " " (q :: parts))). by rewrite IH.
Qed.

Lemma split_from_tokens text : ∀ cur,
  Forall (λ c, isspace c = false) cur →
  Forall is_token (split_from cur text).
Proof.
  induction text as [|c text IH]; intros cur Hcur; simpl.
  - destruct cur; simpl; [constructor|]. by constructor.
  - destruct (isspace c) eqn:Hc.
    + apply Forall_app; split; [|by apply IH].
      destruct cur; simpl; [constructor|]. by constructor.
    + apply IH. apply Forall_app; split; [done|]. by repeat constructor.
Qed.

Lemma split_tokens text : Forall is_token (split text).
Proof. by apply split_from_tokens. Qed.

Lemma bind_split_tokens parts : Forall is_token parts → parts ≫= split = parts.
Proof.
  induction 1 as [|t parts Ht _ IH]; [done|].
  change ((t :: parts) ≫= split) with (split t ++ parts ≫= split).
  by rewrite IH, split_token.
Qed.

(** Splitting what [white_space_fix] built gives the same tokens. *)
Lemma split_white_space_fix text : split (white_space_fix text) = split text.
Proof.
  unfold white_space_fix. rewrite split_join. apply bind_split_tokens, split_tokens.
Qed.

Lemma Tokenized_split_from text : ∀ cur,
  Forall (λ c, isspace c = false) cur →
  Tokenized (cur ++ text) (split_from cur text).
Proof.
  induction text as [|c text IH]; intros cur Hcur; simpl.
  - rewrite app_nil_r. destruct cur; [constructor|]. by constructor.
  - destruct (isspace c) eqn:Hc.
    + destruct cur as [|d cur]; simpl.
      * constructor; [done|]. by apply (IH []).
      * apply (Tokenized_token (d :: cur)); [done..|]. by apply (IH []).
    + replace (cur ++ c :: text) with ((cur ++ [c]) ++ text) by (by rewrite <-app_assoc).
      apply IH. apply Forall_app; split; [done|]. by repeat constructor.
Qed.

Lemma Tokenized_split text : Tokenized text (split text).
Proof. by apply (Tokenized_split_from text []). Qed.

Lemma split_cons_space c text : isspace c = true → split (c :: text) = split text.
Proof. intros Hc. unfold split. simpl. by rewrite Hc. Qed.

Lemma split_app_space u c v :
  isspace c = true → split (u ++ c :: v) = split u ++ split v.
Proof. intros. unfold split. by apply split_from_app. Qed.

Lemma split_runs_Tokenized text parts :
  Tokenized text parts →
  split (by_runs [] text) = parts ≫= (λ t, split (by_runs [] t)).
Proof.
  induction 1 as [|c text parts Hc _ IH|t Ht|t c text parts Ht Hc _ IH].
  - done.
  - simpl. rewrite (isspace_not_word c Hc). simpl. by rewrite split_cons_space.
  - simpl. by rewrite app_nil_r.
  - rewrite by_runs_app by (by apply isspace_not_word).
    rewrite split_app_space by done. by rewrite IH.
Qed.

Lemma split_runs_join parts :
  split (by_runs [] (join " " parts)) = parts ≫= (λ t, split (by_runs [] t)).
Proof.
  induction parts as [|p parts IH]; [done|].
  destruct parts as [|q parts].
  - simpl. by rewrite app_nil_r.
  - change (join " " (p :: q :: parts)) with (p ++ " "%char :: join " " (q :: parts)).
    rewrite by_runs_app by done. rewrite split_app_space by done. by rewrite IH.
Qed.

(** Collapsing the whitespace first does not change the tokens left after
    the articles are removed. *)
Lemma split_remove_articles_fix text :
  split (remove_articles (white_space_fix text)) = split (remove_articles text).
Proof.
  rewrite !remove_articles_runs. unfold white_space_fix.
  rewrite split_runs_join. symmetry. apply split_runs_Tokenized, Tokenized_split.
Qed.

(** ** Characters of the result *)

Section chars.
Context (P : ascii → Prop) (Hsp : P " "%char).

Lemma by_runs_Forall text : ∀ w, Forall P w → Forall P text → Forall P (by_runs w text).
Proof using Hsp.
  assert (Hf : ∀ w, Forall P w → Forall P (flush w)).
  { intros w Hw. unfold flush. destruct (is_article w); [by repeat constructor|done]. }
  induction text as [|c text IH]; intros w Hw Ht; simpl; [by apply Hf|].
  apply Forall_cons in Ht as [Hc Ht]. destruct (is_word c).
  - apply IH; [|done]. apply Forall_app; split; [done|]. by repeat constructor.
  - apply Forall_app; split; [by apply Hf|]. constructor; [done|]. by apply IH.
Qed.

Lemma join_Forall parts : Forall (Forall P) parts → Forall P (join " " parts).
Proof using Hsp.
  induction 1 as [|p parts Hp Hps IH]; [constructor|].
  destruct parts as [|q parts]; [done|].
  change (join " " (p :: q :: parts)) with (p ++ " "%char :: join " " (q :: parts)).
  apply Forall_app; split; [done|]. by constructor.
Qed.

Lemma emit_Forall cur : Forall P cur → Forall (Forall P) (emit cur).
Proof. intros H. destruct cur; simpl; constructor; [done|constructor]. Qed.

Lemma split_from_Forall text : ∀ cur,
  Forall P cur → Forall P text → Forall (Forall P) (split_from cur text).
Proof.
  induction text as [|c text IH]; intros cur Hcur Ht; simpl.
  - by apply emit_Forall.
  - apply Forall_cons in Ht as [Hc Ht]. destruct (isspace c).
    + apply Forall_app; split; [by apply emit_Forall|]. by apply IH.
    + apply IH; [|done]. apply Forall_app; split; [done|]. by repeat constructor.
Qed.

Lemma normalize_step_Forall text :
  Forall P text → Forall P (white_space_fix (remove_articles text)).
Proof using Hsp.
  intros Ht. unfold white_space_fix, split. apply join_Forall, split_from_Forall; [constructor|].
  rewrite remove_articles_runs. by apply by_runs_Forall.
Qed.
End chars.

Lemma lower_fixed text : Forall (λ c, lower_char c = c) text → lower text = text.
Proof. induction 1 as [|c text Hc _ IH]; [done|]. unfold lower in *. simpl. by rewrite Hc, IH. Qed.

Lemma remove_punc_fixed text : Forall (λ c, c ∉ punctuation) text → remove_punc text = text.
Proof.
  induction 1 as [|c text Hc _ IH]; [done|]. unfold remove_punc in *.
  rewrite filter_cons_True by done. by rewrite IH.
Qed.

Lemma remove_punc_lower_Forall s :
  Forall (λ c, lower_char c = c ∧ c ∉ punctuation) (remove_punc (lower s)).
Proof.
  unfold remove_punc. apply Forall_forall. intros c Hc.
  apply list_elem_of_filter in Hc as [Hp Hc]. split; [|done].
  unfold lower in Hc. apply list_elem_of_fmap in Hc as (d & -> & _).
  apply lower_char_idem.
Qed.

(** C8: normalizing is idempotent: for every string [s], normalizing the
    normalized string gives the normalized string again, where normalizing
    lower-cases, strips the punctuation, replaces the standalone articles
    a, an, the, and collapses the whitespace. *)
Theorem normalize_answer_idempotent (s : str) :
  normalize_answer (normalize_answer s) = normalize_answer s.
Proof.
  unfold normalize_answer at 1.
  assert (Hclean : Forall (λ c, lower_char c = c ∧ c ∉ punctuation) (normalize_answer s)).
  { apply normalize_step_Forall; [|apply remove_punc_lower_Forall].
    split; [done|]. apply (bool_decide_unpack _). by vm_compute. }
  rewrite lower_fixed by (eapply Forall_impl; [exact Hclean|by intros ? []]).
  rewrite remove_punc_fixed by (eapply Forall_impl; [exact Hclean|by intros ? []]).
  unfold normalize_answer, white_space_fix at 1.
  by rewrite split_remove_articles_fix, remove_articles_idem.
Qed.

(** ** The F1 score *)

Lemma Counter_size (tokens : list str) : size (Counter tokens) = length tokens.
Proof.
  unfold Counter. induction tokens as [|t tokens IH].
  - by rewrite list_to_set_disj_nil, gmultiset_size_empty.
  - by rewrite list_to_set_disj_cons, gmultiset_size_disj_union,
      gmultiset_size_singleton, IH.
Qed.

Lemma num_same_le_l pt gt : num_same pt gt ≤ length pt.
Proof.
  unfold num_same. rewrite <-Counter_size. apply gmultiset_subseteq_size. multiset_solver.
Qed.

Lemma num_same_le_r pt gt : num_same pt gt ≤ length gt.
Proof.
  unfold num_same. rewrite <-(Counter_size gt). apply gmultiset_subseteq_size. multiset_solver.
Qed.

Lemma of_nat_pos n : 0 < n → (0 < of_nat n)%Q.
Proof. intros H. unfold of_nat, Qlt. simpl. lia. Qed.

Lemma of_nat_le n m : n ≤ m → (of_nat n <= of_nat m)%Q.
Proof. intros H. unfold of_nat. rewrite <-Zle_Qle. lia. Qed.

Lemma truediv_nonzero a b : (0 < b)%Q → truediv a b = Ok (a / b)%Q.
Proof.
  intros Hb. unfold truediv. destruct (Qeq_bool b 0) eqn:E; [|done].
  apply Qeq_bool_eq in E. rewrite E in Hb. by apply Qlt_irrefl in Hb.
Qed.

Lemma precision_of_ratio n tokens :
  0 < n ≤ length tokens →
  precision_of n tokens = truediv (of_nat n) (of_nat (length tokens))
  ∧ ∃ p, precision_of n tokens = Ok p ∧ (0 < p)%Q ∧ (p <= 1)%Q.
Proof.
  intros [Hn Hle]. unfold precision_of. destruct tokens as [|t tokens]; [simpl in Hle; lia|].
  split; [done|]. set (m := length (t :: tokens)) in *.
  assert (Hm : (0 < of_nat m)%Q) by (apply of_nat_pos; lia).
  rewrite truediv_nonzero by done. eexists; split; [done|]. split.
  - apply Qlt_shift_div_l; [done|]. rewrite Qmult_0_l. by apply of_nat_pos.
  - apply Qle_shift_div_r; [done|]. rewrite Qmult_1_l. by apply of_nat_le.
Qed.

Lemma harmonic_bounds p r :
  (0 < p)%Q → (p <= 1)%Q → (0 < r)%Q → (r <= 1)%Q →
  (0 <= 2 * p * r / (p + r))%Q ∧ (2 * p * r / (p + r) <= 1)%Q.
Proof.
  intros Hp Hp1 Hr Hr1. assert (Hs : (0 < p + r)%Q) by lra. split.
  - apply Qle_shift_div_l; [done|]. nra.
  - apply Qle_shift_div_r; [done|]. nra.
Qed.

(** The two ways through [f1_score]. *)
Lemma f1_score_cases prediction ground_truth :
  let pt := split (normalize_answer prediction) in
  let gt := split (normalize_answer ground_truth) in
  let n := num_same pt gt in
  (n = 0 ∧ f1_score prediction ground_truth = Ok 0%Q)
  ∨ (0 < n ∧ n ≤ length pt ∧ n ≤ length gt
     ∧ ∃ p r,
         precision_of n pt = Ok p ∧ precision_of n gt = Ok r
         ∧ (0 < p)%Q ∧ (p <= 1)%Q ∧ (0 < r)%Q ∧ (r <= 1)%Q
         ∧ f1_score prediction ground_truth
           = truediv (2 * p * r) (p + r)).
Proof.
  intros pt gt n. unfold f1_score. fold pt gt n.
  pose proof (num_same_le_l pt gt) as Hl. pose proof (num_same_le_r pt gt) as Hr.
  fold n in Hl, Hr. destruct (decide (n = 0)) as [Hn|Hn]; [by left|right].
  destruct (precision_of_ratio n pt) as (_ & p & Ep & Hp0 & Hp1); [lia|].
  destruct (precision_of_ratio n gt) as (_ & r & Er & Hr0 & Hr1); [lia|].
  split_and!; [lia|done|done|]. exists p, r. rewrite Ep, Er. cbn [bind].
  destruct (Qeq_bool (p + r) 0) eqn:E; [|done].
  apply Qeq_bool_eq in E. lra.
Qed.

Lemma f1_score_is_Ok prediction ground_truth :
  ∃ score, f1_score prediction ground_truth = Ok score.
Proof.
  destruct (f1_score_cases prediction ground_truth)
    as [[_ ->]|(_ & _ & _ & p & r & _ & _ & Hp & _ & Hr & _ & ->)]; [by eexists|].
  rewrite truediv_nonzero by lra. by eexists.
Qed.

(** C10: [f1_score] is total and never divides by zero.  For every pair of
    strings it returns a score, and the score lies between 0 and 1.  When
    the multiset intersection of the normalized tokens is empty, which it
    is whenever either side has no token, the score is exactly 0 and no
    division is reached; otherwise the three divisions it performs
    succeed, each with a positive divisor. *)
Theorem f1_score_total_and_bounded (prediction ground_truth : str) :
  let prediction_tokens := split (normalize_answer prediction) in
  let ground_truth_tokens := split (normalize_answer ground_truth) in
  let n := num_same prediction_tokens ground_truth_tokens in
  ∃ score,
    f1_score prediction ground_truth = Ok score
    ∧ (0 <= score)%Q ∧ (score <= 1)%Q
    ∧ (prediction_tokens = [] ∨ ground_truth_tokens = [] → n = 0)
    ∧ (n = 0 → score = 0%Q)
    ∧ (n ≠ 0 →
       ∃ precision recall,
         truediv (of_nat n) (of_nat (length prediction_tokens)) = Ok precision
         ∧ truediv (of_nat n) (of_nat (length ground_truth_tokens)) = Ok recall
         ∧ truediv (2 * precision * recall) (precision + recall) = Ok score
         ∧ (0 < of_nat (length prediction_tokens))%Q
         ∧ (0 < of_nat (length ground_truth_tokens))%Q
         ∧ (0 < precision + recall)%Q).
Proof.
  intros pt gt n.
  assert (Hempty : pt = [] ∨ gt = [] → n = 0).
  { pose proof (num_same_le_l pt gt) as Hl. pose proof (num_same_le_r pt gt) as Hr.
    fold n in Hl, Hr. intros [E|E]; rewrite E in *; simpl in *; lia. }
  destruct (f1_score_cases prediction ground_truth)
    as [[Hn Hf]|(Hn & Hlp & Hlg & p & r & Ep & Er & Hp0 & Hp1 & Hr0 & Hr1 & Hf)];
    fold pt gt n in Hn |- *.
  - fold pt gt n in Hf. exists 0%Q. by split_and!.
  - fold pt gt n in Hlp, Hlg, Ep, Er.
    assert (Hs : (0 < p + r)%Q) by lra.
    rewrite truediv_nonzero in Hf by done.
    destruct (harmonic_bounds p r) as [H0 H1]; try done.
    exists (2 * p * r / (p + r))%Q. split_and!; try done; [lia|].
    intros _. exists p, r.
    destruct (precision_of_ratio n pt) as [<- _]; [lia|].
    destruct (precision_of_ratio n gt) as [<- _]; [lia|].
    split_and!; try done.
    + by apply truediv_nonzero.
    + apply of_nat_pos. lia.
    + apply of_nat_pos. lia.
Qed.

(** C1, as the code has it: normalizing removes the article from
    "a b c", so the prediction has the tokens b and c, and
    [f1_score "a b c" "b c d"] is 4/5 (precision 1, recall 2/3);
    [f1_score "light blue" "blue"] has precision 1/2 and recall 1 and is
    2/3. *)
Theorem f1_worked_examples :
  normalize_answer "a b c" = ("b c" : str)
  ∧ (∃ score, f1_score "a b c" "b c d" = Ok score ∧ (score == 4 # 5)%Q)
  ∧ (let pt := split (normalize_answer "light blue") in
     let gt := split (normalize_answer "blue") in
     precision_of (num_same pt gt) pt = Ok (1 # 2)%Q
     ∧ precision_of (num_same pt gt) gt = Ok (1 # 1)%Q)
  ∧ (∃ score, f1_score "light blue" "blue" = Ok score ∧ (score == 2 # 3)%Q).
Proof.
  cbv zeta. split_and!.
  - by vm_compute.
  - eexists. split; [by vm_compute|]. by vm_compute.
  - by vm_compute.
  - by vm_compute.
  - eexists. split; [by vm_compute|]. by vm_compute.
Qed.

(** C1 as stated fails: [f1_score "a b c" "b c d"] is not 1/2. *)
Lemma f1_abc_is_not_half :
  ∃ score, f1_score "a b c" "b c d" = Ok score ∧ ¬ (score == 1 # 2)%Q.
Proof. eexists. split; [by vm_compute|]. by vm_compute. Qed.

(** ** [HotpotQA.run]: the partition asked for *)

(** C6: [run] raises [ValueError] when the partition name is none of
    train, validate and test, and when the named partition is [None]; in
    both cases the callback is not called and no result is returned. *)
Theorem run_rejects_missing_partition {W : Type}
    (callback : str → list (str * list str) → W → W * result pyval)
    (self : benchmark) (dataset : str) (num_samples : option Z) (verbose : bool)
    (st : run_state) :
  (dataset ≠ "train" ∧ dataset ≠ "validate" ∧ dataset ≠ "test")
  ∨ (dataset = "train" ∧ _train_data self = None)
  ∨ (dataset = "validate" ∧ _validate_data self = None)
  ∨ (dataset = "test" ∧ _test_data self = None) →
  ∃ st' msg,
    run callback self dataset num_samples verbose st = (st', Raise (Exn ValueError msg))
    ∧ rs_calls st' = rs_calls st
    ∧ rs_world st' = rs_world st.
Proof.
  intros H. unfold run.
  destruct H as [(Ht & Hv & Hs)|[[-> Hn]|[[-> Hn]|[-> Hn]]]].
  - rewrite !decide_False by done. by eexists _, _.
  - rewrite decide_True by done. unfold train_data. rewrite Hn. simpl. by eexists _, _.
  - rewrite decide_False by done. rewrite decide_True by done.
    unfold validate_data. rewrite Hn. simpl. by eexists _, _.
  - rewrite decide_False by done. rewrite decide_False by done. rewrite decide_True by done.
    unfold test_data. rewrite Hn. simpl. by eexists _, _.
Qed.

Lemma run_rejects_missing_partition_witness :
  (∃ st' msg,
     run echo loaded_bench "dev" None false (RunState () [] [])
     = (st', Raise (Exn ValueError msg))
     ∧ rs_calls st' = [] ∧ rs_world st' = ())
  ∧ (∃ st' msg,
     run echo unloaded_bench "validate" None false (RunState () [] [])
     = (st', Raise (Exn ValueError msg))
     ∧ rs_calls st' = [] ∧ rs_world st' = ()).
Proof.
  split.
  - apply (run_rejects_missing_partition echo loaded_bench "dev" None false
             (RunState () [] [])).
    left. split_and!; discriminate.
  - apply (run_rejects_missing_partition echo unloaded_bench "validate" None false
             (RunState () [] [])).
    right. right. left. split; reflexivity.
Defined.

(** ** Paths and the text of a file *)

Lemma lstrip_replicate ch text :
  ∃ k, text = replicate k ch ++ lstrip ch text ∧ head (lstrip ch text) ≠ Some ch.
Proof.
  induction text as [|c text IH]; [by exists 0|]. simpl.
  case_bool_decide as Hc.
  - subst c. destruct IH as (k & Hk & Hh). exists (S k). split; [|done].
    simpl. by rewrite <-Hk.
  - exists 0. split; [done|]. simpl. congruence.
Qed.

Lemma rstrip_replicate ch text :
  ∃ k, text = rstrip ch text ++ replicate k ch ∧ last (rstrip ch text) ≠ Some ch.
Proof.
  unfold rstrip. destruct (lstrip_replicate ch (reverse text)) as (k & Hk & Hh).
  exists k. split.
  - rewrite <-(reverse_involutive text) at 1. rewrite Hk at 1.
    by rewrite reverse_app, reverse_replicate.
  - by rewrite last_reverse.
Qed.

Lemma upto_last_slash_nil path : upto_last_slash path = [] ↔ "/"%char ∉ path.
Proof.
  induction path as [|c path IH]; cbn [upto_last_slash].
  - split; [intros _; apply not_elem_of_nil|done].
  - case_bool_decide as Hin.
    + split; [done|]. intros Hno. destruct Hno. by right.
    + case_bool_decide as Hc.
      * split; [done|]. intros Hno. destruct Hno. subst c. left.
      * split; [|done]. intros _. apply not_elem_of_cons. split; [congruence|done].
Qed.

(** A path has no directory part exactly when no slash is in it. *)
Lemma dirname_nil path : dirname path = [] ↔ "/"%char ∉ path.
Proof.
  rewrite <-upto_last_slash_nil. unfold dirname.
  destruct (bool_decide (upto_last_slash path ≠ []) && _) eqn:H; [|done].
  apply andb_true_iff in H as [Hne Hnot]. apply bool_decide_eq_true in Hne.
  apply negb_true_iff, bool_decide_eq_false in Hnot.
  split; [|done]. intros E.
  destruct (rstrip_replicate "/" (upto_last_slash path)) as (k & Hk & _).
  rewrite E in Hk. destruct Hnot. rewrite Hk. cbn. by apply Forall_replicate.
Qed.

Example dirname_values :
  dirname "dev.json" = []
  ∧ dirname "d/dev.json" = ("d" : str)
  ∧ dirname "/dev.json" = ("/" : str)
  ∧ dirname "a//b" = ("a" : str)
  ∧ dirname "a/b/" = ("a/b" : str)
  ∧ dirname "//x" = ("//" : str).
Proof. by vm_compute. Qed.

(** The lines of a text with the three line ends: CR LF, CR and LF each
    end a line, and the last line has no line end. *)
Example lines_of_a_text :
  let CR := ascii_of_N 13 in
  let LF := ascii_of_N 10 in
  lines_from []
    (universal_newlines ("{1}" ++ [CR; LF] ++ "{2}" ++ [CR] ++ "{3}" ++ [LF] ++ "{4}"))
  = [("{1}" : str) ++ [LF]; ("{2}" : str) ++ [LF]; ("{3}" : str) ++ [LF]; ("{4}" : str)].
Proof. by vm_compute. Qed.

(** ** [HotpotQA.load_dataset] and the requests of [download_file] *)
Section download.
Context (net : network).

Lemma download_attempt_requests url dest w :
  ∃ sent, requests (download_attempt net url dest w).1 = requests w ++ Head url :: sent.
Proof.
  unfold download_attempt. destruct (on_head _ _ _) as [total|e]; simpl.
  - case_bool_decide; simpl.
    + destruct (on_get _ _ _ _) as [r|e]; simpl.
      * destruct (status_error r); simpl; [by rewrite <-app_assoc; eexists|].
        destruct (stream_error r); simpl; rewrite <-app_assoc; by eexists.
      * rewrite <-app_assoc; by eexists.
    + by exists [].
  - by exists [].
Qed.

Lemma download_whole_requests url dest w :
  ∃ sent, requests (download_whole net url dest w).1 = requests w ++ sent.
Proof.
  unfold download_whole. destruct (on_get _ _ _ _) as [r|e]; simpl; [|by eexists].
  destruct (status_error r), (stream_error r); simpl; by eexists.
Qed.

Lemma download_loop_requests url dest max attempts : ∀ w,
  ∃ sent, requests (download_loop net url dest max attempts w).1 = requests w ++ sent.
Proof.
  induction attempts as [|a attempts IH]; intros w; simpl.
  - apply download_whole_requests.
  - destruct (download_attempt_requests url dest w) as [sent Hs].
    destruct (download_attempt net url dest w) as [w' [[]|e]]; simpl in *; [by eexists|].
    destruct (is_Exception e); [|by eexists].
    case_bool_decide; [by eexists|].
    destruct (IH w') as [sent' Hs']. rewrite Hs', Hs, <-app_assoc. by eexists.
Qed.

Lemma download_file_no_directory url dest max w :
  dirname dest = [] →
  download_file net url dest max w
  = (w, Raise (Exn FileNotFoundError "[Errno 2] No such file or directory: ''")).
Proof. unfold download_file. by intros ->. Qed.

Lemma download_file_loop url dest max w :
  dirname dest ≠ [] →
  download_file net url dest max w = download_loop net url dest max (seq 0 max) w.
Proof. unfold download_file. by destruct (dirname dest). Qed.

Lemma download_file_requests url dest w :
  dirname dest ≠ [] →
  ∃ sent, requests (download_file net url dest 3 w).1 = requests w ++ Head url :: sent.
Proof.
  intros Hdir. rewrite download_file_loop by done. simpl.
  destruct (download_attempt_requests url dest w) as [sent Hs].
  destruct (download_attempt net url dest w) as [w' [[]|e]]; simpl in *; [by eexists|].
  destruct (is_Exception e); [|by eexists]. simpl.
  destruct (download_loop_requests url dest 3 [1; 2] w') as [sent' Hs'].
  simpl in Hs'. rewrite Hs', Hs, <-app_assoc. simpl. by eexists.
Qed.
End download.

(** C7: without a manifest entry [load_dataset] returns [None] and leaves
    the files and the requests as they are.  With an entry, when the file
    is there and no reload is forced, nothing is sent or written and the
    file is parsed; when the file is absent or a reload is forced,
    [download_file] runs: for a destination without a directory part it
    raises before any request, otherwise it begins with a HEAD request
    for the entry's URL; a failed download propagates, and after a
    download that has returned the file is parsed.  Parsing the file is:
    [FileNotFoundError] when it is not there; for a name in .jsonl,
    [json.loads] of each line of the text read, in order, up to the first
    line that fails; for a name in .json, [json.load] of the text read;
    [ValueError] for another name. *)
Theorem load_dataset_download_policy (json_load : str → result (list item))
    (json_loads : str → result item) (net : network) (self : benchmark)
    (force_reload : bool) (w : world) :
  load_dataset json_load json_loads net self None force_reload w = (w, Ok None)
  ∧ ∀ entry,
      let file_path := path_join (data_folder self) (entry_name entry) in
      let out := load_dataset json_load json_loads net self (Some entry) force_reload w in
      let parsed w' :=
        match files w' !! file_path with
        | None => Raise (Exn FileNotFoundError ("File not found: " ++ file_path))
        | Some content =>
            if endswith ".jsonl" file_path then
              bind (mapM json_loads (lines_from [] (universal_newlines content)))
                (fun data => Ok (Some data))
            else if endswith ".json" file_path then
              bind (json_load (universal_newlines content)) (fun data => Ok (Some data))
            else Raise (Exn ValueError ("Unsupported file format: " ++ file_path))
        end in
      (exists_ file_path w = true ∧ force_reload = false →
         out = (w, parsed w))
      ∧ (exists_ file_path w = false ∨ force_reload = true →
         let download := download_file net (entry_url entry) file_path 3 w in
         out.1 = download.1
         ∧ (dirname file_path = [] →
            out = (w, Raise (Exn FileNotFoundError
                               "[Errno 2] No such file or directory: ''")))
         ∧ (dirname file_path ≠ [] →
            ∃ sent, requests out.1 = requests w ++ Head (entry_url entry) :: sent)
         ∧ match download.2 with
           | Ok _ => out.2 = parsed out.1
           | Raise e => out.2 = Raise e
           end).
Proof.
  split; [done|]. intros entry file_path out parsed. subst out. unfold load_dataset.
  fold file_path.
  assert (Hparse : ∀ w',
    bind (load_json json_load json_loads file_path w') (fun data => Ok (Some data))
    = parsed w').
  { intros w'. unfold load_json, parsed. destruct (files w' !! file_path); [|done].
    cbv zeta. by repeat destruct (endswith _ _). }
  split.
  - intros [-> ->]. cbn. by rewrite Hparse.
  - intros H.
    assert (negb (exists_ file_path w) || force_reload = true) as ->.
    { destruct H as [->| ->]; [done|]. by rewrite orb_true_r. }
    pose proof (download_file_requests net (entry_url entry) file_path w) as Hreq.
    pose proof (download_file_no_directory net (entry_url entry) file_path 3 w) as Hno.
    destruct (download_file net (entry_url entry) file_path 3 w) as [w' [[]|e]];
      cbn in *; rewrite ?Hparse; (split_and!; [done| |exact Hreq|done]).
    + intros Hd. by specialize (Hno Hd).
    + intros Hd. specialize (Hno Hd). by injection Hno as -> ->.
Qed.

(** ** [HotpotQA.run]: the loop over the samples *)

Lemma evaluate_Ok prediction label :
  ∃ ev, evaluate prediction label = Ok ev.
Proof.
  unfold evaluate.
  destruct (f1_score_is_Ok (str_or_empty prediction) (str_or_empty label)) as [q ->].
  by eexists.
Qed.

Section run_facts.
Context {W : Type} (callback : str → list (str * list str) → W → W * result pyval).

Lemma rs_world_log verbose r (st : run_state (W:=W)) : rs_world (log verbose r st) = rs_world st.
Proof. by destruct verbose. Qed.

Lemma rs_calls_log verbose r (st : run_state (W:=W)) : rs_calls (log verbose r st) = rs_calls st.
Proof. by destruct verbose. Qed.

Lemma run_loop_all verbose n : ∀ data i st acc,
  Forall (λ o, ∀ e, o = Raise e → is_Exception e = true)
    (callback_outcomes callback data (rs_world st)) →
  ∃ st' acc' rs,
    run_loop callback verbose n i data st acc = (st', Ok acc')
    ∧ results acc' = results acc ++ rs
    ∧ recorded_from i data (callback_outcomes callback data (rs_world st)) rs
    ∧ (total_em acc' == total_em acc + sum_of r_em rs)%Q
    ∧ (total_f1 acc' == total_f1 acc + sum_of r_f1 rs)%Q
    ∧ rs_calls st' = rs_calls st ++ (call_args <$> data).
Proof.
  induction data as [|x data IH]; intros i st acc Hall.
  - exists st, acc, []. simpl. rewrite !app_nil_r. split_and!; try done; try constructor; ring.
  - cbn [run_loop callback_outcomes] in *. unfold attempt_item.
    rewrite rs_world_log.
    change (item_question x) with (call_args x).1.
    change (default [] (item_context x)) with (call_args x).2.
    destruct (callback (call_args x).1 (call_args x).2 (rs_world st)) as [w' o] eqn:Hcb.
    apply Forall_cons in Hall as [Ho Hall].
    destruct o as [prediction|e]; cbn [bind].
    + destruct (evaluate_Ok prediction (item_answer x)) as [ev Hev]. rewrite Hev. cbn [bind].
      edestruct (IH (S i)) as (st' & acc' & rs & Hrun & Hres & Hrec & Hem & Hf1 & Hcalls);
        [|rewrite Hrun].
      { rewrite rs_world_log. exact Hall. }
      cbn [results total_em total_f1] in *. rewrite rs_world_log in Hrec.
      rewrite rs_calls_log in Hcalls. cbn [rs_calls] in Hcalls. rewrite rs_calls_log in Hcalls.
      exists st', acc', (passed_result x i prediction ev :: rs).
      split_and!; [done|by rewrite Hres, <-app_assoc|..].
      * constructor; [by exists ev|done].
      * rewrite Hem. simpl. ring.
      * rewrite Hf1. simpl. ring.
      * rewrite Hcalls, <-app_assoc. done.
    + rewrite (Ho e eq_refl).
      edestruct (IH (S i)) as (st' & acc' & rs & Hrun & Hres & Hrec & Hem & Hf1 & Hcalls);
        [|rewrite Hrun].
      { rewrite rs_world_log. cbn [log rs_world]. exact Hall. }
      cbn [results total_em total_f1] in *. rewrite rs_world_log in Hrec.
      cbn [log rs_world] in Hrec.
      rewrite rs_calls_log in Hcalls. cbn [log rs_calls] in Hcalls. rewrite rs_calls_log in Hcalls.
      exists st', acc', (failed_result x i e :: rs).
      split_and!; [done|by rewrite Hres, <-app_assoc|..].
      * constructor; [done|done].
      * rewrite Hem. simpl. ring.
      * rewrite Hf1. simpl. ring.
      * rewrite Hcalls, <-app_assoc. done.
Qed.

Lemma recorded_from_length i data outs rs :
  recorded_from i data outs rs → length rs = length data ∧ length outs = length data.
Proof. induction 1; simpl; [done|]. lia. Qed.

Lemma recorded_from_lookup i data outs rs :
  recorded_from i data outs rs →
  ∀ k r, rs !! k = Some r →
    ∃ x o, data !! k = Some x ∧ outs !! k = Some o ∧ recorded x (i + k) o r.
Proof.
  induction 1 as [|i x data o outs r0 rs Hr Hrec IH]; intros k r Hk; [done|].
  destruct k as [|k]; simpl in *.
  - simplify_eq. exists x, o. by rewrite Nat.add_0_r.
  - destruct (IH k r Hk) as (x' & o' & ? & ? & ?). exists x', o'.
    by replace (i + S k) with (S i + k) by lia.
Qed.
End run_facts.

(** C2, as the code has it: when the partition is loaded and the callback
    raises for exactly one of the [N] samples run over, with an instance
    of [Exception], [run] returns [N] results, having called the callback
    on every sample in order.  The result of the failed sample is FAIL with
    both scores 0 and its error field is [str(e)]; no other result has an
    error field; the two aggregate scores are the sums of the per-sample
    scores divided by [N]. *)
Theorem run_survives_one_failure {W : Type}
    (callback : str → list (str * list str) → W → W * result pyval)
    (self : benchmark) (dataset : str) (sample_limit : option Z) (verbose : bool)
    (st : run_state) (data : list item) (k : nat) (e : exn) :
  (dataset = "train" ∧ _train_data self = Some data)
  ∨ (dataset = "validate" ∧ _validate_data self = Some data)
  ∨ (dataset = "test" ∧ _test_data self = Some data) →
  let samples := limit sample_limit data in
  let outs := callback_outcomes callback samples (rs_world st) in
  outs !! k = Some (Raise e) →
  is_Exception e = true →
  (∀ j o, j ≠ k → outs !! j = Some o → is_Ok o = true) →
  ∃ st' out,
    run callback self dataset sample_limit verbose st = (st', Ok out)
    ∧ length (out_results out) = length samples
    ∧ rs_calls st' = rs_calls st ++ (call_args <$> samples)
    ∧ (∃ r, out_results out !! k = Some r
            ∧ r_result r = FAIL ∧ r_em r = 0%Q ∧ r_f1 r = 0%Q
            ∧ r_error r = Some (str_of_exn e))
    ∧ (∀ j r, j ≠ k → out_results out !! j = Some r → r_error r = None)
    ∧ num_samples (out_metrics out) = length samples
    ∧ (exact_match (out_metrics out)
       == sum_of r_em (out_results out) / of_nat (length samples))%Q
    ∧ (f1 (out_metrics out)
       == sum_of r_f1 (out_results out) / of_nat (length samples))%Q.
Proof.
  intros Hpart samples outs Hk He Hothers.
  assert (Hsel : ∃ logged,
    (if decide (dataset = "train") then Ok (train_data self)
     else if decide (dataset = "validate") then Ok (validate_data self)
     else if decide (dataset = "test") then Ok (test_data self)
     else Raise (Exn ValueError ("Unknown dataset: " ++ dataset)))
    = Ok (logged, Some data) ∧ logged = []).
  { exists []. destruct Hpart as [[-> Hd]|[[-> Hd]|[-> Hd]]].
    - rewrite decide_True by done. unfold train_data. by rewrite Hd.
    - rewrite decide_False by done. rewrite decide_True by done.
      unfold validate_data. by rewrite Hd.
    - rewrite decide_False by done. rewrite decide_False by done.
      rewrite decide_True by done. unfold test_data. by rewrite Hd. }
  destruct Hsel as (logged & Hsel & ->). unfold run. rewrite Hsel. fold samples.
  set (st0 := log_all [] st).
  assert (Hw0 : rs_world st0 = rs_world st) by done.
  assert (Hc0 : rs_calls st0 = rs_calls st) by done.
  destruct (run_loop_all callback verbose (length samples) samples 0 st0
              {| results := []; total_em := 0; total_f1 := 0 |})
    as (st' & acc' & rs & Hrun & Hres & Hrec & Hem & Hf1 & Hcalls).
  { rewrite Hw0. fold outs. apply Forall_lookup. intros j o Hj e' ->.
    destruct (decide (j = k)) as [->|Hne]; [by simplify_eq|].
    by specialize (Hothers j _ Hne Hj). }
  rewrite Hrun. cbn [bind results total_em total_f1 app] in *. rewrite Hw0 in Hrec.
  fold outs in Hrec. destruct (recorded_from_length _ _ _ _ Hrec) as [Hlen Hlen'].
  assert (Hkn : k < length samples).
  { rewrite <-Hlen'. by eapply lookup_lt_Some. }
  exists st', (aggregate acc'). unfold aggregate.
  cbn [out_results out_metrics num_samples exact_match f1].
  rewrite Hres, Hlen. rewrite bool_decide_eq_true_2 by lia.
  split_and!; [done|done|by rewrite Hcalls, Hc0| | |done| |].
  - destruct (lookup_lt_is_Some_2 rs k) as [r Hr]; [lia|].
    destruct (recorded_from_lookup _ _ _ _ Hrec k r Hr) as (x & o & Hx & Ho & Hrd).
    rewrite Hk in Ho. injection Ho as <-. simpl in Hrd. subst r. by exists (failed_result x k e).
  - intros j r Hne Hr.
    destruct (recorded_from_lookup _ _ _ _ Hrec j r Hr) as (x & o & Hx & Ho & Hrd).
    specialize (Hothers j o Hne Ho). destruct o as [p|]; [|done].
    destruct Hrd as (ev & _ & ->). done.
  - rewrite Hem. apply Qdiv_comp; [ring|reflexivity].
  - rewrite Hf1. apply Qdiv_comp; [ring|reflexivity].
Qed.

Lemma run_survives_one_failure_witness :
  ∃ st' out,
    run second_call_fails loaded_bench "validate" None false (RunState 0 [] [])
    = (st', Ok out)
    ∧ length (out_results out) = 3
    ∧ rs_calls st' = [] ++ (call_args <$> three_items)
    ∧ (∃ r, out_results out !! 1 = Some r
            ∧ r_result r = FAIL ∧ r_em r = 0%Q ∧ r_f1 r = 0%Q
            ∧ r_error r = Some ("no answer" : str))
    ∧ (∀ j r, j ≠ 1 → out_results out !! j = Some r → r_error r = None)
    ∧ num_samples (out_metrics out) = 3
    ∧ (exact_match (out_metrics out) == sum_of r_em (out_results out) / of_nat 3)%Q
    ∧ (f1 (out_metrics out) == sum_of r_f1 (out_results out) / of_nat 3)%Q.
Proof.
  apply (run_survives_one_failure second_call_fails loaded_bench "validate" None false
           (RunState 0 [] []) three_items 1
           (Exn (OtherException "RuntimeError") "no answer")).
  - right. left. split; reflexivity.
  - reflexivity.
  - reflexivity.
  - intros j o Hne Hj. destruct j as [|[|[|j]]]; simpl in Hj; try done; by simplify_eq.
Defined.

(** C2 as stated fails twice: the error field is the empty string when the
    exception has no message, and an exception outside [Exception] leaves
    [run] without results. *)
Lemma run_failure_without_message :
  (∃ st' out r,
     run times_out one_item_bench "validate" None false (RunState () [] []) = (st', Ok out)
     ∧ out_results out = [r] ∧ r_result r = FAIL ∧ r_error r = Some [])
  ∧ (∃ st' e,
     run cancelled one_item_bench "validate" None false (RunState () [] []) = (st', Raise e)
     ∧ is_Exception e = false).
Proof.
  split.
  - eexists _, _, _. split; [by vm_compute|]. by split_and!.
  - eexists _, _. split; [by vm_compute|]. done.
Qed.

(** ** [LLMConfig.load] *)

Section store.
Context (resolve : str → str) (models_json : str).

Lemma load_hit model path fs st instance :
  _instance_cache st !! (config_path_of resolve models_json path, model) = Some instance →
  load resolve models_json model path fs st = (st, Ok instance).
Proof. intros H. unfold load. by rewrite H. Qed.

Lemma load_Ok_cached model path fs st st1 instance :
  load resolve models_json model path fs st = (st1, Ok instance) →
  _instance_cache st1 !! (config_path_of resolve models_json path, model) = Some instance.
Proof.
  unfold load. set (P := config_path_of resolve models_json path).
  destruct (_instance_cache st !! (P, model)) as [i|] eqn:Hc.
  { by intros [= <- <-]. }
  destruct (fs !! P) as [content|]; [|done].
  destruct (_file_cache st !! P) as [cached|].
  - destruct (cached !! model); [|done]. intros [= <- <-]. simpl. apply lookup_insert_eq.
  - destruct content as [data|e]; [|done].
    destruct (data !! model); [|done]. intros [= <- <-]. simpl. apply lookup_insert_eq.
Qed.
End store.

(** C3, as the code has it: for a path [P] and a model key present in the
    file at [P], in a store whose cached parse of [P], if it has one, has
    the key as well (a fresh store has none), two [load] calls in a row
    return the identical instance, and so does a third call after the
    file's content has changed: the stale instance, the store being left
    as it was. *)
Theorem load_returns_cached_instance (resolve : str → str) (models_json : str)
    (model : str) (path : option str) (fs fs' : config_files) (st : store)
    (data : gmap (list ascii) entry) :
  let P := config_path_of resolve models_json path in
  fs !! P = Some (Ok data) →
  is_Some (data !! model) →
  (∀ cached, _file_cache st !! P = Some cached → is_Some (cached !! model)) →
  ∃ instance st1,
    load resolve models_json model path fs st = (st1, Ok instance)
    ∧ load resolve models_json model path fs st1 = (st1, Ok instance)
    ∧ load resolve models_json model path fs' st1 = (st1, Ok instance).
Proof.
  intros P Hfile [e He] Hcached.
  assert (∃ instance st1, load resolve models_json model path fs st = (st1, Ok instance))
    as (instance & st1 & Hload).
  { unfold load. fold P. destruct (_instance_cache st !! (P, model)); [by eexists _, _|].
    rewrite Hfile. destruct (_file_cache st !! P) as [cached|] eqn:Hc.
    - destruct (Hcached cached eq_refl) as [e' ->]. by eexists _, _.
    - rewrite He. by eexists _, _. }
  exists instance, st1. pose proof (load_Ok_cached _ _ _ _ _ _ _ _ Hload) as Hhit.
  split_and!; [done|by apply load_hit..].
Qed.

Lemma load_returns_cached_instance_witness :
  ∃ instance st1,
    load id "models.json" "m1" None fs_one empty_store = (st1, Ok instance)
    ∧ load id "models.json" "m1" None fs_one st1 = (st1, Ok instance)
    ∧ load id "models.json" "m1" None fs_two st1 = (st1, Ok instance).
Proof.
  apply (load_returns_cached_instance id "models.json" "m1" None fs_one fs_two empty_store
           {[ ("m1" : str) := entry0 ]}).
  - reflexivity.
  - by exists entry0.
  - intros cached H. simpl in H. by rewrite lookup_empty in H.
Defined.

(** C3 as stated fails: once m1 has been loaded and the file parsed, the
    key m2 added to the file later is present in the file at [P], and
    [load] raises [ValueError] for it. *)
Lemma load_stale_file_cache :
  load id "models.json" "m1" None fs_one empty_store
  = (store_one, Ok (instance_of "m1" entry0 0))
  ∧ (∃ data, fs_two !! ("models.json" : str) = Some (Ok data)
             ∧ is_Some (data !! ("m2" : str)))
  ∧ ∃ msg,
      load id "models.json" "m2" None fs_two store_one
      = (store_one, Raise (Exn ValueError msg)).
Proof.
  split_and!.
  - reflexivity.
  - eexists. split; [reflexivity|]. by exists entry0.
  - eexists. vm_compute. reflexivity.
Qed.

(** ** [AsyncLLM] *)

Lemma construct_class ext cls config kwargs environ body :
  (construct ext cls config kwargs environ).2 = Ok body →
  class_of body = cls
  ∧ ((∀ class_name, cls ≠ CustomLLM class_name) → config_of body = Some config).
Proof.
  unfold construct. destruct cls as [| | | |class_name]; cbn.
  - destruct (bind_client _ _ _) as [client|e]; cbn; [|done].
    destruct (client_or _ _) as [c|e]; cbn; [|done]. by intros [= <-].
  - destruct (bind_client _ _ _) as [client|e]; cbn; [|done].
    unfold AsyncOllamaLLM_init. destruct client as [handle|]; cbn; by intros [= <-].
  - destruct (bind_client _ _ _) as [client|e]; cbn; [|done].
    destruct (client_or _ _) as [c|e]; cbn; [|done]. by intros [= <-].
  - destruct (bind_client _ _ _) as [client|e]; cbn; [|done].
    destruct (client_or _ _) as [c|e]; cbn; [|done]. by intros [= <-].
  - destruct (custom_new _ _ _ _ _) as [environ' [object|e]]; cbn; [|done].
    intros [= <-]. split; [done|]. intros Hne. by destruct (Hne class_name).
Qed.

Lemma construct_keywords ext cls config kwargs environ :
  (∀ class_name, cls ≠ CustomLLM class_name) →
  (∀ handle, kwargs = {[ ("client" : str) := Some handle ]} →
     ∃ body, (construct ext cls config kwargs environ).2 = Ok body)
  ∧ (delete ("client" : str) kwargs ≠ ∅ →
     construct ext cls config kwargs environ
     = (environ, Raise (Exn (OtherException "TypeError")
                          (unexpected_keyword ext cls kwargs)))).
Proof.
  intros Hcls. split.
  - intros handle ->. unfold construct, bind_client.
    rewrite delete_singleton_eq, bool_decide_true by done. rewrite lookup_singleton_eq.
    destruct cls as [| | | |class_name]; cbn; try by eexists.
    by destruct (Hcls class_name).
  - intros Hkw. unfold construct, bind_client. rewrite bool_decide_false by done.
    destruct cls as [| | | |class_name]; cbn; try done. by destruct (Hcls class_name).
Qed.

(** C4, as the code has it: after [register_provider S C], creating a
    model whose configured provider equals [S] once both are lower-cased
    calls [C] with the configuration and the keyword arguments, and
    creating a model whose lower-cased provider is no key of the registry
    calls [AsyncOpenAILLM] with them.  What the call returns is returned,
    with a fresh identity, and what it raises is raised.  An object the
    call returns is an instance of the class called, so not of the
    fallback class unless that is the class called, and for a class of
    the package it holds the configuration.  A class of the package
    returns an instance when it is given a client and nothing else, and
    raises [TypeError] when it is given any other keyword. *)
Theorem factory_dispatches_on_provider (resolve : str → str) (models_json : str)
    (ext : externals) (registry : gmap (list ascii) llm_class) (model : str)
    (path : option str) (kwargs : keywords) (fs : config_files) (st st' : store)
    (environ : gmap (list ascii) (list ascii)) (config : LLMConfig) :
  load resolve models_json model path fs st = (st', Ok config) →
  let created C := construct ext C config kwargs environ in
  let returned C :=
    match (created C).2 with
    | Ok body => (allocated st', (created C).1, Ok (LLM (next_id st') body))
    | Raise e => (st', (created C).1, Raise e)
    end in
  (∀ S C, lower (provider config) = lower S →
     AsyncLLM_new resolve models_json ext (register_provider S C registry)
       model path kwargs fs st environ = returned C)
  ∧ (registry !! lower (provider config) = None →
     AsyncLLM_new resolve models_json ext registry model path kwargs fs st environ
     = returned AsyncOpenAILLM)
  ∧ (∀ C body, (created C).2 = Ok body →
       class_of body = C
       ∧ (C ≠ AsyncOpenAILLM → class_of body ≠ AsyncOpenAILLM)
       ∧ ((∀ class_name, C ≠ CustomLLM class_name) → config_of body = Some config))
  ∧ (∀ C, (∀ class_name, C ≠ CustomLLM class_name) →
       (∀ handle, kwargs = {[ ("client" : str) := Some handle ]} →
          ∃ body, (created C).2 = Ok body)
       ∧ (delete ("client" : str) kwargs ≠ ∅ →
          created C = (environ, Raise (Exn (OtherException "TypeError")
                                         (unexpected_keyword ext C kwargs))))).
Proof.
  intros Hload created returned. subst created returned. cbv beta. split_and!.
  - intros S C HS. unfold AsyncLLM_new. rewrite Hload.
    unfold register_provider. rewrite HS, lookup_insert_eq.
    by destruct (construct ext C config kwargs environ) as [environ' [body|e]].
  - intros Hnone. unfold AsyncLLM_new. rewrite Hload, Hnone.
    by destruct (construct ext AsyncOpenAILLM config kwargs environ) as [environ' [body|e]].
  - intros C body Hbody. destruct (construct_class _ _ _ _ _ _ Hbody) as [Hc Hconfig].
    split_and!; [done|congruence|done].
  - intros C HC. by apply construct_keywords.
Qed.

Lemma factory_dispatches_on_provider_witness :
  let kwargs : keywords := {[ ("client" : str) := Some 7 ]} in
  let created C := construct sdk_needs_key C tgi_config kwargs ∅ in
  let returned C :=
    match (created C).2 with
    | Ok body => (allocated tgi_store, (created C).1, Ok (LLM (next_id tgi_store) body))
    | Raise e => (tgi_store, (created C).1, Raise e)
    end in
  (∀ S C, lower (provider tgi_config) = lower S →
     AsyncLLM_new id "models.json" sdk_needs_key (register_provider S C _provider_registry)
       "local-7b" None kwargs tgi_files empty_store ∅ = returned C)
  ∧ (_provider_registry !! lower (provider tgi_config) = None →
     AsyncLLM_new id "models.json" sdk_needs_key _provider_registry "local-7b" None kwargs
       tgi_files empty_store ∅
     = returned AsyncOpenAILLM)
  ∧ (∀ C body, (created C).2 = Ok body →
       class_of body = C
       ∧ (C ≠ AsyncOpenAILLM → class_of body ≠ AsyncOpenAILLM)
       ∧ ((∀ class_name, C ≠ CustomLLM class_name) → config_of body = Some tgi_config))
  ∧ (∀ C, (∀ class_name, C ≠ CustomLLM class_name) →
       (∀ handle, kwargs = {[ ("client" : str) := Some handle ]} →
          ∃ body, (created C).2 = Ok body)
       ∧ (delete ("client" : str) kwargs ≠ ∅ →
          created C = (∅, Raise (Exn (OtherException "TypeError")
                                   (unexpected_keyword sdk_needs_key C kwargs))))).
Proof.
  apply (factory_dispatches_on_provider id "models.json" sdk_needs_key _provider_registry
           "local-7b" None {[ ("client" : str) := Some 7 ]} tgi_files empty_store
           tgi_store ∅ tgi_config).
  reflexivity.
Defined.

(** C4 as stated fails: no instance is returned when the constructor
    raises.  The model local-7b names no API key and its provider is no
    key of the registry, so the OpenAI client is asked for, and an SDK
    that needs a key raises; and once a class of the package is
    registered for the provider, a keyword it does not take makes the
    call raise [TypeError], whatever the SDK. *)
Lemma factory_raises_with_the_constructor :
  (_provider_registry !! lower (provider tgi_config) = None
   ∧ AsyncLLM_new id "models.json" sdk_needs_key _provider_registry "local-7b" None ∅
       tgi_files empty_store ∅
     = (tgi_store, ∅,
        Raise (Exn (OtherException "OpenAIError") "The api_key client option must be set")))
  ∧ ∀ ext,
      AsyncLLM_new id "models.json" ext
        (register_provider "TGI" AsyncGeminiLLM _provider_registry) "local-7b" None
        {[ ("timeout" : str) := Some 30 ]} tgi_files empty_store ∅
      = (tgi_store, ∅,
         Raise (Exn (OtherException "TypeError")
                  (unexpected_keyword ext AsyncGeminiLLM
                     {[ ("timeout" : str) := Some 30 ]}))).
Proof.
  split; [split; reflexivity|]. intros ext. reflexivity.
Qed.

(** ** [AsyncOllamaLLM.__init__] and the environment *)
Lemma ollama_init_frame config client environ k :
  k ≠ ("NO_PROXY" : str) →
  (AsyncOllamaLLM_init config client environ).1 !! k = environ !! k.
Proof.
  intros Hk. unfold AsyncOllamaLLM_init. destruct client; [done|]. simpl.
  destruct (_ && _); [|done]. by rewrite lookup_insert_ne.
Qed.

Lemma split_on_field sep e : ∀ cur text,
  sep ∉ e → split_on sep cur (e ++ text) = split_on sep (cur ++ e) text.
Proof.
  induction e as [|c e IH]; intros cur text Hsep; simpl.
  - by rewrite app_nil_r.
  - apply not_elem_of_cons in Hsep as [Hc He].
    rewrite bool_decide_eq_false_2 by done. rewrite IH by done. by rewrite <-app_assoc.
Qed.

Lemma split_on_join (sep : ascii) entries :
  entries ≠ [] → Forall (λ e, sep ∉ e) entries →
  split_on sep [] (join [sep] entries) = entries.
Proof.
  intros Hne Hall. induction Hall as [|e entries He Hall IH]; [done|].
  destruct entries as [|e' entries].
  - simpl. rewrite <-(app_nil_r e) at 1. rewrite split_on_field by done. done.
  - change (join [sep] (e :: e' :: entries)) with (e ++ sep :: join [sep] (e' :: entries)).
    rewrite split_on_field by done. cbn [split_on app].
    rewrite bool_decide_eq_true_2 by done. by rewrite IH.
Qed.

Lemma join_app_last sep entries extra :
  entries ≠ [] → extra ≠ [] →
  join sep (entries ++ extra) = join sep entries ++ sep ++ join sep extra.
Proof.
  intros Hne Hex. induction entries as [|e entries IH]; [done|].
  destruct entries as [|e' entries].
  - simpl. destruct extra; [done|]. done.
  - change (join sep ((e :: e' :: entries) ++ extra)) with
      (e ++ sep ++ join sep ((e' :: entries) ++ extra)).
    rewrite IH by done. simpl. by rewrite <-!app_assoc.
Qed.

(** C9, as the code has it: constructing the Ollama client changes no
    environment variable other than NO_PROXY, and none at all when a
    client is injected.  Without an injected client, when the value of
    NO_PROXY contains neither localhost nor 127.0.0.1, NO_PROXY becomes
    its non-empty entries, in order, followed by localhost and 127.0.0.1;
    for a list of non-empty entries that is the old value with
    ,localhost,127.0.0.1 added at its end. *)
Theorem ollama_init_appends_loopback (config : LLMConfig) (client : option nat)
    (environ : gmap (list ascii) (list ascii)) :
  let environ' := (AsyncOllamaLLM_init config client environ).1 in
  let no_proxy : str := default [] (environ !! ("NO_PROXY" : str)) in
  (∀ k, k ≠ ("NO_PROXY" : str) → environ' !! k = environ !! k)
  ∧ (is_Some client → environ' = environ)
  ∧ (client = None →
     contains "localhost" no_proxy = false → contains "127.0.0.1" no_proxy = false →
     environ' !! ("NO_PROXY" : str)
     = Some (join "," (filter (fun e => e ≠ []) (split_on "," [] no_proxy)
                       ++ ["localhost" : str; "127.0.0.1" : str]))
     ∧ ∀ entries,
         entries ≠ [] → Forall (λ e, e ≠ [] ∧ ","%char ∉ e) entries →
         no_proxy = join "," entries →
         environ' !! ("NO_PROXY" : str) = Some (no_proxy ++ ",localhost,127.0.0.1")).
Proof.
  intros environ' no_proxy. split_and!.
  - intros k Hk. by apply ollama_init_frame.
  - intros [h ->]. done.
  - intros -> Hl H1. subst environ'. unfold AsyncOllamaLLM_init. cbv zeta.
    fold no_proxy. rewrite Hl, H1. cbn [negb andb fst].
    rewrite lookup_insert_eq. split; [done|].
    intros entries Hne Hall Hjoin. f_equal. rewrite Hjoin.
    change ("," : str) with [","%char].
    rewrite split_on_join; [|done|by eapply Forall_impl; [exact Hall|intros ? []]].
    assert (filter (λ e : list ascii, e ≠ []) entries = entries) as ->.
    { clear -Hall. induction Hall as [|e entries [He _] _ IH]; [done|].
      rewrite filter_cons_True by done. by rewrite IH. }
    rewrite join_app_last by done. done.
Qed.

(** C9 as stated fails: a NO_PROXY that names 127.0.0.1 only is left as it
    is, localhost is not added; so is one that names both. *)
Lemma ollama_init_keeps_partial_list :
  ((AsyncOllamaLLM_init llama_config None {[ ("NO_PROXY" : str) := ("127.0.0.1" : str) ]}).1
     !! ("NO_PROXY" : str) = Some ("127.0.0.1" : str)
   ∧ ("localhost" : str) ∉ split_on "," [] "127.0.0.1")
  ∧ (AsyncOllamaLLM_init llama_config None
       {[ ("NO_PROXY" : str) := ("localhost,127.0.0.1" : str) ]}).1
     !! ("NO_PROXY" : str) = Some ("localhost,127.0.0.1" : str).
Proof.
  split_and!.
  - reflexivity.
  - apply (bool_decide_unpack _). by vm_compute.
  - reflexivity.
Qed.

(** ** The retry around a provider call *)

Section retry_facts.
Context {W A : Type} (fn : W → W * result A).

Lemma run_in_a_row_length n : ∀ w, length (run_in_a_row fn n w) = n.
Proof.
  induction n as [|n IH]; intros w; [done|]. cbn [run_in_a_row].
  destruct (fn w) as [w' o]. cbn. by rewrite IH.
Qed.

Lemma retry_from_call remaining : ∀ n w tr,
  ∃ new,
    outcomes (retry_from call_policy fn remaining n w tr).1.2 = outcomes tr ++ new
    ∧ new = take (length new) (run_in_a_row fn (S remaining) w)
    ∧ 1 ≤ length new ≤ S remaining
    ∧ last new = Some (retry_from call_policy fn remaining n w tr).2
    ∧ Forall retried (take (length new - 1) new)
    ∧ sleeps (retry_from call_policy fn remaining n w tr).1.2
      = sleeps tr ++ (wait_exponential 1 1 10 <$> seq n (length new - 1))
    ∧ (retried (retry_from call_policy fn remaining n w tr).2 → length new = S remaining)
    ∧ (retry_from call_policy fn remaining n w tr).1.1 = state_after fn (length new) w.
Proof.
  induction remaining as [|remaining IH]; intros n w tr.
  - cbn [retry_from run_in_a_row]. destruct (fn w) as [w' [a|e]] eqn:Hfn; cbn.
    + exists [Ok a]. rewrite app_nil_r.
      split_and!; cbn; rewrite ?Hfn; try done; try lia; try constructor.
    + exists [Raise e]. rewrite app_nil_r.
      destruct (is_Exception e); cbn; split_and!; cbn; rewrite ?Hfn; try done; try lia;
        try constructor.
  - cbn [retry_from]. change (run_in_a_row fn (S (S remaining)) w) with
      (let '(w', outcome) := fn w in outcome :: run_in_a_row fn (S remaining) w').
    destruct (fn w) as [w' [a|e]] eqn:Hfn; cbn [fst snd outcomes sleeps].
    + exists [Ok a]. rewrite app_nil_r.
      split_and!; cbn; rewrite ?Hfn; try done; try lia; try constructor.
      by intros (e & ? & _).
    + cbn [retry_if call_policy]. destruct (is_Exception e) eqn:He; cbn [fst snd outcomes sleeps].
      * destruct (IH (S n) w'
          {| outcomes := outcomes tr ++ [Raise e];
             sleeps := sleeps tr ++ [wait call_policy n] |})
          as (new & Hout & Hpre & Hlen & Hlast & Hall & Hsl & Hfull & Hstate).
        cbn [outcomes sleeps] in *.
        exists (Raise e :: new). rewrite Hout, Hsl, <-!app_assoc.
        split_and!; try done.
        -- cbn [length take]. f_equal. exact Hpre.
        -- cbn. lia.
        -- cbn. lia.
        -- destruct new as [|o new]; [cbn in Hlen; lia|]. exact Hlast.
        -- destruct new as [|o new]; [cbn in Hlen; lia|].
           cbn [length]. replace (S (S (length new)) - 1) with (S (S (length new) - 1)) by lia.
           cbn [take]. constructor; [by exists e|]. exact Hall.
        -- destruct new as [|o new]; [cbn in Hlen; lia|].
           cbn [length]. replace (S (S (length new)) - 1) with (S (S (length new) - 1)) by lia.
           done.
        -- intros Hr. cbn [length]. by rewrite (Hfull Hr).
        -- cbn [length state_after]. by rewrite Hfn.
      * exists [Raise e]. rewrite app_nil_r.
        split_and!; cbn; rewrite ?Hfn; try done; try lia; try constructor.
        intros (e' & [= <-] & He'). congruence.
Qed.
End retry_facts.

(** C5: a provider client's call makes between one and three attempts,
    which are the first runs of the underlying call in a row, each on the
    state the one before left, and its outcome is the outcome of the last
    attempt made, its final state the state after that attempt.  The
    controller goes on as long as it may: a call that raises an instance
    of [Exception] has made all three attempts.  So when every run raises
    an instance of [Exception], three attempts are made and the exception
    of the third is raised, unchanged; and when a run among the first
    three succeeds after runs that raised instances of [Exception], it is
    the last attempt and its result is returned.  Every attempt before
    the last raised an instance of [Exception]; the waits between
    attempts are 1 and 2. *)
Theorem call_retries_at_most_three {W Request Response : Type}
    (sdk_call : Request → W → W * result Response)
    (_extract_content : Response → result str) (request : Request) (w : W) :
  let runs := run_in_a_row (call_once sdk_call _extract_content request) 3 w in
  let attempts := outcomes (call sdk_call _extract_content request w).1.2 in
  let waited := sleeps (call sdk_call _extract_content request w).1.2 in
  let outcome := (call sdk_call _extract_content request w).2 in
  1 ≤ length attempts ≤ 3
  ∧ attempts = take (length attempts) runs
  ∧ last attempts = Some outcome
  ∧ (Forall (λ o, is_Ok o = false) attempts →
     ∃ e, last attempts = Some (Raise e) ∧ outcome = Raise e)
  ∧ (∀ i a, attempts !! i = Some (Ok a) →
     outcome = Ok a ∧ length attempts = S i)
  ∧ (∀ i o, attempts !! i = Some o → S i < length attempts → retried o)
  ∧ waited = take (length attempts - 1) [1; 2]
  ∧ (retried outcome → length attempts = 3)
  ∧ (∀ i a, runs !! i = Some (Ok a) → Forall retried (take i runs) →
     outcome = Ok a ∧ length attempts = S i)
  ∧ (Forall retried runs →
     attempts = runs ∧ ∃ e, runs !! 2 = Some (Raise e) ∧ outcome = Raise e)
  ∧ (call sdk_call _extract_content request w).1.1
    = state_after (call_once sdk_call _extract_content request) (length attempts) w.
Proof.
  intros runs attempts waited outcome. subst attempts waited outcome. unfold call, retrying.
  destruct (retry_from_call (call_once sdk_call _extract_content request) 2 1 w
              (RetryTrace [] []))
    as (new & Hout & Hpre & Hlen & Hlast & Hall & Hsl & Hfull & Hstate).
  cbn [stop_after_attempt call_policy Nat.sub] in *.
  set (run := retry_from call_policy (call_once sdk_call _extract_content request) 2 1 w
                (RetryTrace [] [])) in *.
  fold runs in Hpre.
  assert (Hruns : length runs = 3) by apply run_in_a_row_length.
  cbn [outcomes sleeps app] in Hout, Hsl. rewrite Hout, Hsl.
  assert (Hearly : ∀ i o, new !! i = Some o → S i < length new → retried o).
  { intros i o Hi Hlt. apply (Forall_lookup_1 _ _ i o Hall).
    rewrite lookup_take_lt by lia. done. }
  assert (Hok : ∀ i a, new !! i = Some (Ok a) → run.2 = Ok a ∧ length new = S i).
  { intros i a Hi.
    assert (Hlt : i < length new) by (by eapply lookup_lt_Some).
    destruct (decide (S i < length new)) as [Hs|Hs].
    { destruct (Hearly i _ Hi Hs) as (e & He & _). done. }
    assert (length new = S i) as Hn by lia. split; [|done].
    rewrite last_lookup, Hn in Hlast. cbn in Hlast. rewrite Hi in Hlast. by injection Hlast. }
  assert (Hat : ∀ i, i < length new → new !! i = runs !! i).
  { intros i Hi. rewrite Hpre at 1. by rewrite lookup_take_lt. }
  assert (Hlast' : runs !! (length new - 1) = Some run.2).
  { rewrite <-Hat by lia. rewrite <-Hlast, last_lookup. f_equal. lia. }
  split; [exact Hlen|]. split; [exact Hpre|]. split; [exact Hlast|].
  split_and!; [|exact Hok|exact Hearly| |exact Hfull| | |exact Hstate].
  - intros Hraise. rewrite Hlast.
    assert (Hin : run.2 ∈ new) by (by apply last_Some_elem_of).
    rewrite Forall_forall in Hraise. specialize (Hraise _ Hin).
    destruct run.2 as [a|e]; [done|]. by exists e.
  - destruct Hlen as [H1 H3].
    destruct new as [|o1 [|o2 [|o3 [|o4 new]]]]; cbn in *; try done; lia.
  - intros i a Hi Hbefore.
    assert (Hi3 : i < 3) by (rewrite <-Hruns; by eapply lookup_lt_Some).
    destruct (decide (i < length new)) as [Hlt|Hge].
    { apply (Hok i). by rewrite Hat. }
    assert (Hr : retried run.2).
    { apply (Forall_lookup_1 _ _ (length new - 1) _ Hbefore).
      rewrite lookup_take_lt by lia. exact Hlast'. }
    specialize (Hfull Hr). lia.
  - intros Hevery.
    assert (Hr : retried run.2) by (by apply (Forall_lookup_1 _ _ _ _ Hevery Hlast')).
    specialize (Hfull Hr). rewrite Hfull in Hpre, Hlast'.
    rewrite <-Hruns, firstn_all in Hpre. split; [done|].
    destruct Hr as (e & He & _). exists e. by rewrite <-He.
Qed.

(** The retry on a scripted SDK.  Two failures and then an answer: three
    attempts, waits of 1 and 2, the answer is returned and the fourth
    outcome of the script is left.  Three failures: the third exception
    is raised and the answer that would have come next is left.  An
    exception outside [Exception]: one attempt and no wait. *)
Example call_on_a_script :
  call scripted Ok () [Raise connection_error; Raise timeout_error; Ok ("42" : str);
                       Ok ("43" : str)]
  = ([Ok ("43" : str)],
     RetryTrace [Raise connection_error; Raise timeout_error; Ok ("42" : str)] [1; 2],
     Ok ("42" : str))
  ∧ call scripted Ok () [Raise connection_error; Raise timeout_error;
                         Raise rate_limit_error; Ok ("42" : str)]
    = ([Ok ("42" : str)],
       RetryTrace [Raise connection_error; Raise timeout_error; Raise rate_limit_error]
         [1; 2],
       Raise rate_limit_error)
  ∧ call scripted Ok () [Raise cancelled_error; Ok ("42" : str)]
    = ([Ok ("42" : str)], RetryTrace [Raise cancelled_error] [], Raise cancelled_error).
Proof. split_and!; reflexivity. Qed.

(** * Further properties *)

Import Loading Observations Scenarios.

(** ** The normalized answer *)

Lemma article_free_word u : ∀ w text,
  Forall (λ c, is_word c = true) u →
  article_free w (u ++ text) ↔ article_free (w ++ u) text.
Proof.
  induction u as [|c u IH]; intros w text Hu; simpl.
  - by rewrite app_nil_r.
  - apply Forall_cons in Hu as [-> Hu]. rewrite IH by done. by rewrite <-app_assoc.
Qed.

Lemma article_free_app u : ∀ w c v,
  is_word c = false →
  article_free w (u ++ c :: v) ↔ article_free w u ∧ article_free [] v.
Proof.
  induction u as [|d u IH]; intros w c v Hc; simpl.
  - by rewrite Hc.
  - destruct (is_word d); [by apply IH|]. rewrite IH by done. tauto.
Qed.

Lemma nil_not_article : [] ∉ articles.
Proof. apply (bool_decide_unpack _). by vm_compute. Qed.

Lemma article_free_by_runs text : ∀ w,
  Forall (λ c, is_word c = true) w → article_free [] (by_runs w text).
Proof.
  assert (Hflush : ∀ w, Forall (λ c, is_word c = true) w → article_free [] (flush w)).
  { intros w Hw. destruct (flush_cases w) as [->|[-> Hn]].
    - simpl. split; apply nil_not_article.
    - rewrite <-(app_nil_r w). by apply article_free_word. }
  induction text as [|c text IH]; intros w Hw; simpl; [by apply Hflush|].
  destruct (is_word c) eqn:Hc.
  - apply IH. apply Forall_app; split; [done|]. by constructor.
  - apply article_free_app; [done|]. split; [by apply Hflush|]. by apply IH.
Qed.

Lemma article_free_fixed text : ∀ w, article_free w text → by_runs w text = w ++ text.
Proof.
  induction text as [|c text IH]; intros w H; simpl in *.
  - rewrite app_nil_r. by apply flush_other.
  - destruct (is_word c).
    + rewrite IH by done. by rewrite <-app_assoc.
    + destruct H as [Hw H]. rewrite flush_other by done. by rewrite (IH [] H).
Qed.

Lemma article_free_tokens text parts :
  Tokenized text parts → article_free [] text → Forall (article_free []) parts.
Proof.
  induction 1 as [|c text parts Hc _ IH|t Ht|t c text parts Ht Hc _ IH]; intros H.
  - constructor.
  - simpl in H. rewrite (isspace_not_word c Hc) in H. apply IH, H.
  - by repeat constructor.
  - apply article_free_app in H as [H1 H2]; [|by apply isspace_not_word].
    constructor; [done|]. by apply IH.
Qed.

Lemma article_free_join parts :
  Forall (article_free []) parts → article_free [] (join " " parts).
Proof.
  induction 1 as [|p parts Hp _ IH]; [apply nil_not_article|].
  destruct parts as [|q parts]; [done|].
  change (join " " (p :: q :: parts)) with (p ++ " "%char :: join " " (q :: parts)).
  by apply article_free_app.
Qed.

Lemma article_free_not_article t : article_free [] t → t ∉ articles.
Proof.
  intros H Hin. destruct (articles_word _ Hin) as (Hw & _ & _).
  rewrite <-(app_nil_r t) in H. apply article_free_word in H; [|done]. simpl in H. done.
Qed.

Lemma normalize_answer_chars s :
  Forall (λ c, lower_char c = c ∧ (c ∉ punctuation)) (normalize_answer s).
Proof.
  apply normalize_step_Forall; [|apply remove_punc_lower_Forall].
  split; [done|]. apply (bool_decide_unpack _). by vm_compute.
Qed.

Lemma remove_articles_article_free text : article_free [] (remove_articles text).
Proof. rewrite remove_articles_runs. by apply article_free_by_runs. Qed.

Lemma normalize_answer_article_free s : article_free [] (normalize_answer s).
Proof.
  unfold normalize_answer, white_space_fix. apply article_free_join.
  eapply article_free_tokens; [apply Tokenized_split|].
  apply remove_articles_article_free.
Qed.

Lemma normalize_answer_stages s :
  lower (normalize_answer s) = normalize_answer s
  ∧ remove_punc (normalize_answer s) = normalize_answer s
  ∧ remove_articles (normalize_answer s) = normalize_answer s
  ∧ white_space_fix (normalize_answer s) = normalize_answer s.
Proof.
  pose proof (normalize_answer_chars s) as Hc. split_and!.
  - apply lower_fixed. eapply Forall_impl; [exact Hc|by intros ? []].
  - apply remove_punc_fixed. eapply Forall_impl; [exact Hc|by intros ? []].
  - rewrite remove_articles_runs.
    by rewrite (article_free_fixed _ [] (normalize_answer_article_free s)).
  - unfold normalize_answer at 1. unfold white_space_fix at 1.
    by rewrite split_white_space_fix.
Qed.

Lemma normalize_answer_again s :
  normalize_answer (normalize_answer s) = normalize_answer s.
Proof.
  destruct (normalize_answer_stages s) as (Hl & Hp & Ha & Hw).
  unfold normalize_answer at 1. by rewrite Hl, Hp, Ha, Hw.
Qed.

(** The only whitespace a joined list of tokens has is the separator, and
    it begins and ends with a token. *)
Lemma join_tokens_spaces parts :
  Forall is_token parts →
  Forall (λ c, isspace c = true → c = " "%char) (join " " parts)
  ∧ (∀ c, head (join " " parts) = Some c ∨ last (join " " parts) = Some c →
          isspace c = false).
Proof.
  intros Hall. split.
  - induction Hall as [|p parts [_ Hp] Hps IH]; [constructor|].
    assert (Hp' : Forall (λ c, isspace c = true → c = " "%char) p).
    { eapply Forall_impl; [exact Hp|]. intros c Hc. by rewrite Hc. }
    destruct parts as [|q parts]; [done|].
    change (join " " (p :: q :: parts)) with (p ++ " "%char :: join " " (q :: parts)).
    apply Forall_app; split; [done|]. by constructor.
  - intros c. induction Hall as [|p parts [Hne Hp] Hps IH]; [by intros [|]|].
    destruct parts as [|q parts].
    + simpl. intros [H|H].
      * destruct p as [|d p]; [done|]. simpl in H. injection H as <-.
        by apply Forall_cons in Hp as [? _].
      * apply last_Some_elem_of in H. by eapply Forall_forall in Hp.
    + change (join " " (p :: q :: parts)) with (p ++ " "%char :: join " " (q :: parts)).
      intros [H|H].
      * destruct p as [|d p]; [done|]. simpl in H. injection H as <-.
        by apply Forall_cons in Hp as [? _].
      * apply IH. right. rewrite last_app, last_cons in H.
        destruct (last (join " " (q :: parts))) as [y|] eqn:E'; [congruence|].
        apply last_None in E'. apply Forall_cons in Hps as [[Hq _] _].
        destruct q; [done|]. destruct parts; simpl in E'; done.
Qed.

(** X1: a normalized answer is in normal form.  Each of the four steps of
    [normalize_answer] leaves it as it is; none of its characters is a
    punctuation character or is changed by lower-casing, its only
    whitespace character is the space, and it neither begins nor ends
    with whitespace. *)
Theorem normalize_answer_canonical (s : str) :
  let n := normalize_answer s in
  lower n = n ∧ remove_punc n = n ∧ remove_articles n = n ∧ white_space_fix n = n
  ∧ Forall (λ c, (c ∉ punctuation) ∧ lower_char c = c
                 ∧ (isspace c = true → c = " "%char)) n
  ∧ (∀ c, head n = Some c ∨ last n = Some c → isspace c = false).
Proof.
  intros n. destruct (normalize_answer_stages s) as (Hl & Hp & Ha & Hw).
  destruct (join_tokens_spaces (split (remove_articles (remove_punc (lower s)))))
    as (Hsp & Hends); [apply split_tokens|].
  split_and!; try done.
  apply Forall_forall. intros c Hc.
  pose proof (normalize_answer_chars s) as Hch.
  rewrite Forall_forall in Hch, Hsp. destruct (Hch c Hc) as [? ?].
  split_and!; [done..|]. by apply Hsp.
Qed.

(** X2: the tokens [f1_score] counts.  Every token of a normalized
    answer is non-empty, is none of the articles a, an and the, and has
    no whitespace, no punctuation and no character that lower-casing
    changes. *)
Theorem normalize_answer_tokens (s : str) :
  Forall (λ t, t ≠ [] ∧ (t ∉ articles)
               ∧ Forall (λ c, isspace c = false ∧ (c ∉ punctuation)
                              ∧ lower_char c = c) t)
    (split (normalize_answer s)).
Proof.
  pose proof (split_tokens (normalize_answer s)) as Htok.
  pose proof (article_free_tokens _ _ (Tokenized_split (normalize_answer s))
                (normalize_answer_article_free s)) as Hfree.
  pose proof (split_from_Forall _ (normalize_answer s) [] (Forall_nil_2 _)
                (normalize_answer_chars s)) as Hch.
  fold (split (normalize_answer s)) in Hch.
  rewrite Forall_forall in Htok, Hfree, Hch. apply Forall_forall. intros t Ht.
  destruct (Htok t Ht) as [Hne Hsp]. split_and!; [done|by apply article_free_not_article, Hfree|].
  specialize (Hch t Ht). rewrite Forall_forall in Hsp, Hch. apply Forall_forall.
  intros c Hc. destruct (Hch c Hc). split_and!; [by apply Hsp|done..].
Qed.

(** ** The two scores *)

Lemma exact_match_score_cases p g :
  (normalize_answer p = normalize_answer g ∧ exact_match_score p g = 1%Q)
  ∨ (normalize_answer p ≠ normalize_answer g ∧ exact_match_score p g = 0%Q).
Proof. unfold exact_match_score. case_decide; auto. Qed.

(** X3: [exact_match_score] is 0 or 1, and 1 exactly when the two
    normalized answers are equal; it is 1 of an answer against itself,
    does not depend on the order of its arguments, and does not change
    when the prediction is normalized beforehand. *)
Theorem exact_match_score_relation (prediction ground_truth : str) :
  (exact_match_score prediction ground_truth = 1%Q
   ∨ exact_match_score prediction ground_truth = 0%Q)
  ∧ (exact_match_score prediction ground_truth = 1%Q
     ↔ normalize_answer prediction = normalize_answer ground_truth)
  ∧ exact_match_score prediction prediction = 1%Q
  ∧ exact_match_score prediction ground_truth
    = exact_match_score ground_truth prediction
  ∧ exact_match_score (normalize_answer prediction) ground_truth
    = exact_match_score prediction ground_truth.
Proof.
  split_and!.
  - destruct (exact_match_score_cases prediction ground_truth) as [[_ ->]|[_ ->]]; auto.
  - destruct (exact_match_score_cases prediction ground_truth) as [[H ->]|[H ->]];
      split; try done.
  - unfold exact_match_score. by rewrite decide_True.
  - unfold exact_match_score. repeat case_decide; congruence.
  - unfold exact_match_score. by rewrite normalize_answer_again.
Qed.

Lemma num_same_comm pt gt : num_same pt gt = num_same gt pt.
Proof. unfold num_same. f_equal. multiset_solver. Qed.

Lemma of_nat_add n m : (of_nat (n + m) == of_nat n + of_nat m)%Q.
Proof. unfold of_nat. rewrite Nat2Z.inj_add, inject_Z_plus. reflexivity. Qed.

(** The score without the detour through precision and recall. *)
Lemma f1_score_closed prediction ground_truth :
  let pt := split (normalize_answer prediction) in
  let gt := split (normalize_answer ground_truth) in
  let n := num_same pt gt in
  ∃ score,
    f1_score prediction ground_truth = Ok score
    ∧ (score * of_nat (length pt + length gt) == 2 * of_nat n)%Q.
Proof.
  intros pt gt n.
  destruct (f1_score_cases prediction ground_truth)
    as [[Hn Hf]|(Hn & Hlp & Hlg & p & r & Ep & Er & Hp0 & Hp1 & Hr0 & Hr1 & Hf)];
    fold pt gt n in Hn, Hf |- *.
  - exists 0%Q. split; [done|]. rewrite Hn. unfold of_nat at 2. simpl. ring.
  - fold pt gt n in Hlp, Hlg, Ep, Er.
    assert (Hs : (0 < p + r)%Q) by lra.
    rewrite truediv_nonzero in Hf by done. eexists. split; [exact Hf|].
    destruct (precision_of_ratio n pt) as [Ep' _]; [lia|].
    destruct (precision_of_ratio n gt) as [Er' _]; [lia|].
    rewrite Ep in Ep'. rewrite Er in Er'.
    assert (Ha : (0 < of_nat (length pt))%Q) by (apply of_nat_pos; lia).
    assert (Hb : (0 < of_nat (length gt))%Q) by (apply of_nat_pos; lia).
    assert (Hn0 : (0 < of_nat n)%Q) by (by apply of_nat_pos).
    rewrite truediv_nonzero in Ep', Er' by done.
    injection Ep' as ->. injection Er' as ->. rewrite of_nat_add.
    set (a := of_nat (length pt)) in *. set (b := of_nat (length gt)) in *.
    set (m := of_nat n) in *. field. split_and!; try lra; intros ?; nra.
Qed.

(** X4: [f1_score] always returns, and swapping prediction and ground
    truth gives the same score. *)
Theorem f1_score_symmetric (prediction ground_truth : str) :
  ∃ forth back,
    f1_score prediction ground_truth = Ok forth
    ∧ f1_score ground_truth prediction = Ok back
    ∧ (forth == back)%Q.
Proof.
  destruct (f1_score_closed prediction ground_truth) as (x & Hx & Ex).
  destruct (f1_score_closed ground_truth prediction) as (y & Hy & Ey).
  cbv zeta in Ex, Ey. exists x, y. split_and!; [done..|].
  set (pt := split (normalize_answer prediction)) in *.
  set (gt := split (normalize_answer ground_truth)) in *.
  rewrite (num_same_comm gt pt), (Nat.add_comm (length gt)) in Ey.
  destruct (decide (num_same pt gt = 0)) as [Hn|Hn].
  - destruct (f1_score_cases prediction ground_truth) as [[_ H]|(H & _)];
      fold pt gt in H; [|lia].
    destruct (f1_score_cases ground_truth prediction) as [[_ H']|(H' & _)];
      fold pt gt in H'; [|rewrite num_same_comm in H'; lia].
    congruence.
  - pose proof (num_same_le_l pt gt).
    assert (Hd : (0 < of_nat (length pt + length gt))%Q) by (apply of_nat_pos; lia).
    apply (Qmult_inj_r _ _ (of_nat (length pt + length gt))); [lra|].
    by rewrite Ex, Ey.
Qed.

Lemma gmultiset_subseteq_size_eq `{Countable A} (X Y : gmultiset A) :
  X ⊆ Y → size X = size Y → X = Y.
Proof.
  intros Hsub Hsize.
  assert (size (Y ∖ X) = 0) as Hd by (rewrite gmultiset_size_difference by done; lia).
  apply gmultiset_size_empty_inv in Hd. multiset_solver.
Qed.

Lemma num_same_full pt gt :
  num_same pt gt = length pt → num_same pt gt = length gt → Counter pt = Counter gt.
Proof.
  unfold num_same. intros Hp Hg.
  rewrite <-(Counter_size pt) in Hp. rewrite <-(Counter_size gt) in Hg.
  assert (Counter pt ∩ Counter gt = Counter pt) as H1
    by (apply gmultiset_subseteq_size_eq; [multiset_solver|done]).
  assert (Counter pt ∩ Counter gt = Counter gt) as H2
    by (apply gmultiset_subseteq_size_eq; [multiset_solver|done]).
  congruence.
Qed.

Lemma num_same_self pt : num_same pt pt = length pt.
Proof.
  unfold num_same. rewrite <-(Counter_size pt). f_equal. multiset_solver.
Qed.

(** X5: the score of [f1_score] is 0 exactly when the two normalized
    answers have no token in common, and 1 exactly when the prediction
    has a token and both answers have the same tokens with the same
    multiplicities, in whatever order. *)
Theorem f1_score_extremes (prediction ground_truth : str) :
  let pt := split (normalize_answer prediction) in
  let gt := split (normalize_answer ground_truth) in
  ∃ score,
    f1_score prediction ground_truth = Ok score
    ∧ ((score == 0)%Q ↔ num_same pt gt = 0)
    ∧ ((score == 1)%Q ↔ pt ≠ [] ∧ Counter pt = Counter gt).
Proof.
  intros pt gt. destruct (f1_score_closed prediction ground_truth) as (x & Hx & Ex).
  cbv zeta in Ex. fold pt gt in Ex. exists x. split_and!; [done| |].
  - destruct (f1_score_cases prediction ground_truth)
      as [[Hn Hf]|(Hn & Hlp & _)]; fold pt gt in Hn |- *.
    + fold pt gt in Hf. rewrite Hx in Hf. injection Hf as ->. done.
    + fold pt gt in Hlp. split; [|lia]. intros H0. rewrite H0 in Ex.
      assert ((0 < of_nat (num_same pt gt))%Q) by (by apply of_nat_pos). lra.
  - pose proof (num_same_le_l pt gt) as Hl. pose proof (num_same_le_r pt gt) as Hr.
    split.
    + intros H1. rewrite H1, Qmult_1_l in Ex.
      assert (length pt + length gt = 2 * num_same pt gt) as Hsum.
      { unfold of_nat, Qeq in Ex. simpl in Ex. lia. }
      assert (pt ≠ []).
      { intros E. destruct (f1_score_cases prediction ground_truth)
          as [[Hn Hf]|(Hn & Hlp & _)]; fold pt gt in Hn.
        - fold pt gt in Hf. rewrite Hx in Hf. injection Hf as ->. done.
        - assert (length pt = 0) by (by rewrite E). lia. }
      split; [done|]. apply num_same_full; lia.
    + intros [Hne Hc].
      assert (num_same pt gt = length pt ∧ length gt = length pt) as [Hn Hg].
      { unfold num_same. rewrite <-Hc. rewrite <-!Counter_size, <-Hc. split; [|done].
        f_equal. multiset_solver. }
      rewrite Hn, Hg in Ex.
      assert ((0 < of_nat (length pt))%Q).
      { apply of_nat_pos. destruct pt; [done|simpl; lia]. }
      rewrite of_nat_add in Ex. nra.
Qed.

(** ** [HotpotQA.evaluate] *)

Lemma f1_score_bounds p g q :
  f1_score p g = Ok q → (0 <= q)%Q ∧ (q <= 1)%Q.
Proof.
  destruct (f1_score_cases p g)
    as [[_ ->]|(_ & _ & _ & pr & r & _ & _ & Hp0 & Hp1 & Hr0 & Hr1 & ->)].
  - intros [= <-]. lra.
  - rewrite truediv_nonzero by lra. intros [= <-]. by apply harmonic_bounds.
Qed.

Lemma evaluate_scores prediction label :
  ∃ ev,
    evaluate prediction label = Ok ev
    ∧ ev_em ev = exact_match_score (str_or_empty prediction) (str_or_empty label)
    ∧ f1_score (str_or_empty prediction) (str_or_empty label) = Ok (ev_f1 ev)
    ∧ ev_result ev = (if Qeq_bool (ev_em ev) 1 then PASS else FAIL).
Proof.
  unfold evaluate.
  destruct (f1_score_is_Ok (str_or_empty prediction) (str_or_empty label)) as [q ->].
  by eexists.
Qed.

(** X6: [HotpotQA.evaluate] always returns.  Its verdict is PASS exactly
    when the normalized answers are equal; a PASS with at least one token
    has F1 equal to 1, while a PASS without any token (both answers
    normalize to the empty string) has F1 equal to 0; F1 lies between 0
    and 1. *)
Theorem evaluate_verdict (prediction label : pyval) :
  let pred_tokens := split (normalize_answer (str_or_empty prediction)) in
  ∃ ev,
    evaluate prediction label = Ok ev
    ∧ (ev_result ev = PASS
       ↔ normalize_answer (str_or_empty prediction)
         = normalize_answer (str_or_empty label))
    ∧ (ev_result ev = PASS → pred_tokens ≠ [] → (ev_f1 ev == 1)%Q)
    ∧ (ev_result ev = PASS → pred_tokens = [] → ev_f1 ev = 0%Q)
    ∧ (0 <= ev_f1 ev <= 1)%Q.
Proof.
  intros pred_tokens. unfold evaluate.
  set (p := str_or_empty prediction) in *. set (l := str_or_empty label).
  destruct (f1_score_cases p l)
    as [[Hn Hf]|(Hn & Hlp & Hlg & pr & r & Ep & Er & Hp0 & Hp1 & Hr0 & Hr1 & Hf)];
    fold pred_tokens in Hn.
  - rewrite Hf. cbn [bind]. eexists. split; [done|]. cbn [ev_result ev_f1 ev_em].
    assert (Hpass : (if Qeq_bool (exact_match_score p l) 1 then PASS else FAIL) = PASS
                    ↔ normalize_answer p = normalize_answer l).
    { destruct (exact_match_score_cases p l) as [[H ->]|[H ->]]; by cbn. }
    split_and!; [done| |done|lra|lra].
    intros Hp Hne. apply Hpass in Hp. exfalso. apply Hne.
    unfold pred_tokens in *. rewrite <-Hp in Hn. rewrite num_same_self in Hn.
    by apply nil_length_inv.
  - fold pred_tokens in Hlp.
    assert (Hs : (0 < pr + r)%Q) by lra.
    rewrite truediv_nonzero in Hf by done. rewrite Hf. cbn [bind]. eexists.
    split; [done|]. cbn [ev_result ev_f1 ev_em].
    assert (Hpass : (if Qeq_bool (exact_match_score p l) 1 then PASS else FAIL) = PASS
                    ↔ normalize_answer p = normalize_answer l).
    { destruct (exact_match_score_cases p l) as [[H ->]|[H ->]]; by cbn. }
    destruct (harmonic_bounds pr r) as [H0 H1]; try done.
    split_and!; [done| | |done|done].
    + intros Hp _. apply Hpass in Hp.
      destruct (f1_score_closed p l) as (x & Hx & Ex). cbv zeta in Ex.
      rewrite Hf in Hx. injection Hx as <-.
      rewrite <-Hp in Ex. rewrite num_same_self in Ex. fold pred_tokens in Ex.
      rewrite of_nat_add in Ex.
      assert ((0 < of_nat (length pred_tokens))%Q) by (apply of_nat_pos; lia). nra.
    + intros _ Hnil. assert (length pred_tokens = 0) by (by rewrite Hnil). lia.
Qed.

(** ** [HotpotQA.run]: any number of failures *)

Lemma run_loaded {W : Type}
    (callback : str → list (str * list str) → W → W * result pyval)
    self dataset sample_limit verbose st data :
  partition_named self dataset = Some (Some data) →
  run callback self dataset sample_limit verbose st
  = let samples := limit sample_limit data in
    let '(st', r) :=
      run_loop callback verbose (length samples) 0 samples st
        {| results := []; total_em := 0; total_f1 := 0 |} in
    (st', bind r (fun acc => Ok (aggregate acc))).
Proof.
  unfold partition_named, run, train_data, validate_data, test_data.
  destruct st as [w calls lg].
  repeat case_decide; intros [= ->]; try done;
    unfold partition_property, log_all; cbn; by rewrite app_nil_r.
Qed.

Lemma recorded_scores x i o r :
  recorded x i o r →
  (0 <= r_f1 r)%Q ∧ (r_f1 r <= 1)%Q
  ∧ ((r_result r = PASS ∧ r_em r = 1%Q) ∨ (r_result r = FAIL ∧ r_em r = 0%Q))
  ∧ (r_error r = None ↔ is_Ok o = true).
Proof.
  destruct o as [prediction|e]; simpl.
  - intros (ev & Hev & ->). simpl.
    destruct (evaluate_scores prediction (item_answer x)) as (ev' & Hev' & Hem & Hf & Hr).
    rewrite Hev in Hev'. injection Hev' as <-.
    destruct (f1_score_bounds _ _ _ Hf) as [H0 H1]. split_and!; [done..| |done].
    rewrite Hr, Hem.
    destruct (exact_match_score_cases (str_or_empty prediction)
                (str_or_empty (item_answer x))) as [[_ ->]|[_ ->]]; cbn; auto.
  - intros ->. simpl. split_and!; [lra|lra|by right|done].
Qed.

Lemma recorded_from_sums i data outs rs :
  recorded_from i data outs rs →
  (sum_of r_em rs == of_nat (count_passed rs))%Q
  ∧ (0 <= sum_of r_f1 rs)%Q ∧ (sum_of r_f1 rs <= of_nat (length rs))%Q
  ∧ count_passed rs ≤ length rs.
Proof.
  induction 1 as [|i x data o outs r rs Hr _ IH]; [by cbn|].
  destruct (recorded_scores _ _ _ _ Hr) as (H0 & H1 & Hem & _).
  destruct IH as (IHem & IH0 & IH1 & IHc).
  unfold count_passed in *. cbn [sum_of foldr length].
  fold (sum_of r_em rs). fold (sum_of r_f1 rs).
  replace (S (length rs)) with (1 + length rs) by done. rewrite of_nat_add.
  change (of_nat 1) with 1%Q.
  destruct Hem as [[Hp Hem]|[Hp Hem]]; rewrite Hem.
  - rewrite filter_cons_True by done. cbn [length].
    replace (S (length (filter (λ r, r_result r = PASS) rs)))
      with (1 + length (filter (λ r, r_result r = PASS) rs)) by done.
    rewrite of_nat_add, IHem. change (of_nat 1) with 1%Q.
    split_and!; [reflexivity|lra|lra|lia].
  - rewrite filter_cons_False by (by rewrite Hp). rewrite IHem.
    split_and!; [ring|lra|lra|lia].
Qed.

Section records_facts.
Context {W : Type} (callback : str → list (str * list str) → W → W * result pyval).

(** While the records carry their keys, the loop on the records is the
    loop on the items they are read as. *)
Lemma records_loop_prefix verbose n k : ∀ data i st acc before st' acc',
  mapM Records.read_keys (take k data) = Ok before →
  run_loop callback verbose n i before st acc = (st', Ok acc') →
  Records.run_loop_records callback verbose n i data st acc
  = Records.run_loop_records callback verbose n (i + length before) (drop k data) st' acc'.
Proof.
  induction k as [|k IH]; intros data i st acc before st' acc' Hread Hrun.
  - rewrite take_0 in Hread. injection Hread as <-. cbn in Hrun. injection Hrun as <- <-.
    by rewrite Nat.add_0_r.
  - destruct data as [|o data].
    { injection Hread as <-. cbn in Hrun. injection Hrun as <- <-. by rewrite Nat.add_0_r. }
    cbn [take mapM] in Hread. cbn [drop Records.run_loop_records].
    destruct (Records.read_keys o) as [x|e]; [|done]. cbn [bind] in Hread.
    destruct (mapM Records.read_keys (take k data)) as [before'|e] eqn:Hrest; [|done].
    injection Hread as <-. cbn [run_loop length] in Hrun.
    replace (i + length (x :: before')) with (S i + length before') by (cbn; lia).
    destruct (attempt_item callback x _) as [st1 [[prediction ev]|e]].
    + exact (IH data (S i) _ _ before' st' acc' Hrest Hrun).
    + destruct (is_Exception e); [|done].
      exact (IH data (S i) _ _ before' st' acc' Hrest Hrun).
Qed.

End records_facts.

(** X7: the loop of [run] on the records of a partition, as they were
    parsed.  While the records carry the keys question and answer and
    every failing call raises an instance of [Exception], however many
    calls fail, the loop goes on: the callback is called once per record,
    in order, with the record's question and context.  At the first
    record without one of the two keys the [KeyError] of that key leaves
    [run], after the calls for the records before it.  When there is no
    such record [run] returns one result per record, in order, and
    reports the number of records; its exact-match metric is the number
    of records that passed over the number of records, and its F1 metric
    lies between 0 and 1; both are 0 when there is no record. *)
Theorem run_scores_every_sample {W : Type}
    (callback : str → list (str * list str) → W → W * result pyval)
    (verbose : bool) (st : run_state) (data : list Records.json_object) (k : nat)
    (before : list item) :
  mapM Records.read_keys (take k data) = Ok before →
  let outs := callback_outcomes callback before (rs_world st) in
  Forall survivable outs →
  (∀ o e, data !! k = Some o → Records.read_keys o = Raise e →
     (e = Records.KeyError "question" ∨ e = Records.KeyError "answer")
     ∧ ∃ st',
         Records.run_samples callback verbose data st = (st', Raise e)
         ∧ rs_calls st' = rs_calls st ++ (call_args <$> before))
  ∧ (length data ≤ k →
     ∃ st' out,
       Records.run_samples callback verbose data st = (st', Ok out)
       ∧ recorded_from 0 before outs (out_results out)
       ∧ rs_calls st' = rs_calls st ++ (call_args <$> before)
       ∧ length before = length data
       ∧ num_samples (out_metrics out) = length data
       ∧ num_passed (out_metrics out) ≤ length data
       ∧ (0 < length data →
          (exact_match (out_metrics out)
           == of_nat (num_passed (out_metrics out)) / of_nat (length data))%Q)
       ∧ (length data = 0 →
          exact_match (out_metrics out) = 0%Q ∧ f1 (out_metrics out) = 0%Q)
       ∧ (0 <= f1 (out_metrics out))%Q ∧ (f1 (out_metrics out) <= 1)%Q).
Proof.
  intros Hread outs Hall. unfold Records.run_samples.
  destruct (run_loop_all callback verbose (length data) before 0 st
              {| results := []; total_em := 0; total_f1 := 0 |})
    as (st' & acc' & rs & Hrun & Hres & Hrec & Hem & Hf1 & Hcalls); [exact Hall|].
  rewrite (records_loop_prefix callback verbose (length data) k data 0 st _ before st' acc'
             Hread Hrun).
  fold outs in Hrec. cbn [results total_em total_f1 app] in *.
  split.
  - intros o e Ho He. split.
    { unfold Records.read_keys in He.
      destruct (Records.key_question o); [|left; congruence].
      destruct (Records.key_answer o); [done|right; congruence]. }
    rewrite (drop_S _ _ _ Ho). cbn [Records.run_loop_records]. rewrite He. by exists st'.
  - intros Hk. rewrite drop_ge by done. cbn [Records.run_loop_records bind].
    destruct (recorded_from_length _ _ _ _ Hrec) as [Hlen _].
    destruct (recorded_from_sums _ _ _ _ Hrec) as (Hsum & Hf0 & Hf1' & Hcount).
    assert (Hsame : length before = length data).
    { rewrite take_ge in Hread by done. clear -Hread. revert before Hread.
      induction data as [|o data IH]; intros before; cbn [mapM].
      - by intros [= <-].
      - destruct (Records.read_keys o); [|done]. cbn [bind].
        destruct (mapM Records.read_keys data); [|done]. cbn [bind].
        intros [= <-]. cbn. f_equal. by apply IH. }
    exists st', (aggregate acc'). unfold aggregate.
    cbn [out_results out_metrics num_samples num_passed exact_match f1].
    rewrite Hres, Hlen, Hsame in *.
    split_and!; [done|done|done|done|done|unfold count_passed in *; lia| | | |].
    + intros Hn. rewrite bool_decide_eq_true_2 by done.
      apply Qdiv_comp; [|reflexivity]. rewrite Hem, Hsum. ring.
    + intros Hn. rewrite Hn. by cbn.
    + case_bool_decide as Hn; [|lra].
      assert ((0 < of_nat (length data))%Q) by (by apply of_nat_pos).
      apply Qle_shift_div_l; [done|]. rewrite Hf1. lra.
    + case_bool_decide as Hn; [|lra].
      assert ((0 < of_nat (length data))%Q) by (by apply of_nat_pos).
      apply Qle_shift_div_r; [done|]. rewrite Hf1. lra.
Qed.

Lemma run_scores_every_sample_witness :
  (∀ o e, three_objects !! 2 = Some o → Records.read_keys o = Raise e →
     (e = Records.KeyError "question" ∨ e = Records.KeyError "answer")
     ∧ ∃ st',
         Records.run_samples second_call_fails true three_objects (RunState 0 [] [])
         = (st', Raise e)
         ∧ rs_calls st' = [] ++ (call_args <$> two_items))
  ∧ (length three_objects ≤ 2 →
     ∃ st' out,
       Records.run_samples second_call_fails true three_objects (RunState 0 [] [])
       = (st', Ok out)
       ∧ recorded_from 0 two_items (callback_outcomes second_call_fails two_items 0)
           (out_results out)
       ∧ rs_calls st' = [] ++ (call_args <$> two_items)
       ∧ length two_items = length three_objects
       ∧ num_samples (out_metrics out) = length three_objects
       ∧ num_passed (out_metrics out) ≤ length three_objects
       ∧ (0 < length three_objects →
          (exact_match (out_metrics out)
           == of_nat (num_passed (out_metrics out)) / of_nat (length three_objects))%Q)
       ∧ (length three_objects = 0 →
          exact_match (out_metrics out) = 0%Q ∧ f1 (out_metrics out) = 0%Q)
       ∧ (0 <= f1 (out_metrics out))%Q ∧ (f1 (out_metrics out) <= 1)%Q).
Proof.
  apply (run_scores_every_sample second_call_fails true (RunState 0 [] []) three_objects 2
           two_items).
  - reflexivity.
  - repeat constructor; intros e [= <-]; reflexivity.
Defined.

(** The loop on the two records that carry their keys, with a callback
    that fails on its second call: [run] returns, one record of two has
    passed and the exact-match metric is one half. *)
Example run_samples_on_two_records :
  ∃ st' out,
    Records.run_samples second_call_fails true (take 2 three_objects) (RunState 0 [] [])
    = (st', Ok out)
    ∧ rs_world st' = 2
    ∧ r_error <$> out_results out = [None; Some ("no answer" : str)]
    ∧ num_samples (out_metrics out) = 2
    ∧ num_passed (out_metrics out) = 1
    ∧ (exact_match (out_metrics out) == 1 / 2)%Q.
Proof. eexists _, _. split; [reflexivity|]. by vm_compute. Qed.

(** ** [HotpotQA.run]: an exception outside [Exception] *)

Section run_abort.
Context {W : Type} (callback : str → list (str * list str) → W → W * result pyval).

Lemma run_loop_abort verbose n k e : ∀ data i st acc,
  callback_outcomes callback data (rs_world st) !! k = Some (Raise e) →
  is_Exception e = false →
  Forall survivable (take k (callback_outcomes callback data (rs_world st))) →
  ∃ st',
    run_loop callback verbose n i data st acc = (st', Raise e)
    ∧ rs_calls st' = rs_calls st ++ (call_args <$> take (S k) data).
Proof.
  induction k as [|k IH]; intros [|x data] i st acc Hk He Hall; try done.
  - cbn [run_loop callback_outcomes] in *. unfold attempt_item. rewrite rs_world_log.
    change (item_question x) with (call_args x).1.
    change (default [] (item_context x)) with (call_args x).2.
    destruct (callback (call_args x).1 (call_args x).2 (rs_world st)) as [w' o].
    cbn in Hk. injection Hk as ->. cbn [bind]. rewrite He. eexists. split; [done|].
    cbn. by rewrite rs_calls_log.
  - cbn [run_loop callback_outcomes] in *. unfold attempt_item. rewrite rs_world_log.
    change (item_question x) with (call_args x).1.
    change (default [] (item_context x)) with (call_args x).2.
    destruct (callback (call_args x).1 (call_args x).2 (rs_world st)) as [w' o].
    cbn [lookup list_lookup take] in Hk, Hall.
    apply Forall_cons in Hall as [Ho Hall].
    destruct o as [prediction|e0]; cbn [bind].
    + destruct (evaluate_Ok prediction (item_answer x)) as [ev ->]. cbn [bind].
      edestruct (IH data (S i)) as (st' & Hrun & Hcalls);
        [| exact He | | rewrite Hrun].
      * rewrite rs_world_log. exact Hk.
      * rewrite rs_world_log. exact Hall.
      * eexists. split; [done|]. rewrite Hcalls, rs_calls_log. cbn [rs_calls].
        rewrite rs_calls_log, <-app_assoc. done.
    + rewrite (Ho e0 eq_refl).
      edestruct (IH data (S i)) as (st' & Hrun & Hcalls);
        [| exact He | | rewrite Hrun].
      * rewrite rs_world_log. cbn [log rs_world]. exact Hk.
      * rewrite rs_world_log. cbn [log rs_world]. exact Hall.
      * eexists. split; [done|]. rewrite Hcalls, rs_calls_log. cbn [log rs_calls].
        rewrite rs_calls_log, <-app_assoc. done.
Qed.
End run_abort.

(** X8: when the call for sample [k] raises an exception outside
    [Exception] (a cancellation, a keyboard interrupt), the calls before
    it having returned or raised instances of [Exception], [run] raises
    that exception: no metrics are returned, and the callback has been
    called for the samples up to [k] and for no later one. *)
Theorem run_stops_outside_Exception {W : Type}
    (callback : str → list (str * list str) → W → W * result pyval)
    (self : benchmark) (dataset : str) (sample_limit : option Z) (verbose : bool)
    (st : run_state) (data : list item) (k : nat) (e : exn) :
  partition_named self dataset = Some (Some data) →
  let samples := limit sample_limit data in
  let outs := callback_outcomes callback samples (rs_world st) in
  outs !! k = Some (Raise e) →
  is_Exception e = false →
  Forall survivable (take k outs) →
  ∃ st',
    run callback self dataset sample_limit verbose st = (st', Raise e)
    ∧ rs_calls st' = rs_calls st ++ (call_args <$> take (S k) samples).
Proof.
  intros Hpart samples outs Hk He Hall. rewrite (run_loaded _ _ _ _ _ _ _ Hpart).
  cbv zeta. fold samples.
  destruct (run_loop_abort callback verbose (length samples) k e samples 0 st
              {| results := []; total_em := 0; total_f1 := 0 |} Hk He Hall)
    as (st' & -> & Hcalls).
  by exists st'.
Qed.


Lemma run_stops_outside_Exception_witness :
  ∃ st',
    run cancelled_second loaded_bench "validate" None false (RunState 0 [] [])
    = (st', Raise (Exn (BaseExceptionOnly "CancelledError") []))
    ∧ rs_calls st' = [] ++ (call_args <$> take 2 three_items).
Proof.
  apply (run_stops_outside_Exception cancelled_second loaded_bench "validate" None false
           (RunState 0 [] []) three_items 1).
  - reflexivity.
  - reflexivity.
  - reflexivity.
  - repeat constructor. intros e [=].
Defined.

(** ** [HotpotQA.run]: what [verbose] changes *)

Section run_verbose.
Context {W : Type} (callback : str → list (str * list str) → W → W * result pyval).

Lemma run_loop_verbose n : ∀ data i st1 st2 acc,
  rs_world st1 = rs_world st2 → rs_calls st1 = rs_calls st2 →
  (run_loop callback true n i data st1 acc).2
  = (run_loop callback false n i data st2 acc).2
  ∧ rs_world (run_loop callback true n i data st1 acc).1
    = rs_world (run_loop callback false n i data st2 acc).1
  ∧ rs_calls (run_loop callback true n i data st1 acc).1
    = rs_calls (run_loop callback false n i data st2 acc).1.
Proof.
  induction data as [|x data IH]; intros i st1 st2 acc Hw Hc; [done|].
  cbn [run_loop]. unfold attempt_item. cbn [log rs_world rs_calls]. rewrite Hw, Hc.
  destruct (callback (item_question x) (default [] (item_context x)) (rs_world st2))
    as [w' o].
  destruct o as [prediction|e]; cbn [bind].
  - destruct (evaluate prediction (item_answer x)) as [ev|e]; cbn [bind].
    + by apply IH.
    + destruct (is_Exception e); [by apply IH|done].
  - destruct (is_Exception e); [by apply IH|done].
Qed.
End run_verbose.

(** X9: [verbose] changes nothing but the log: with and without it [run]
    gives the same outcome, leaves the callback's state the same and has
    made the same calls. *)
Theorem run_verbose_only_logs {W : Type}
    (callback : str → list (str * list str) → W → W * result pyval)
    (self : benchmark) (dataset : str) (sample_limit : option Z) (st : run_state) :
  let loud := run callback self dataset sample_limit true st in
  let quiet := run callback self dataset sample_limit false st in
  loud.2 = quiet.2
  ∧ rs_world loud.1 = rs_world quiet.1
  ∧ rs_calls loud.1 = rs_calls quiet.1.
Proof.
  cbv zeta. unfold run.
  destruct (if decide (dataset = "train") then _ else _) as [[logged [data|]]|e]; [|done..].
  destruct (run_loop_verbose callback (length (limit sample_limit data))
              (limit sample_limit data) 0 (log_all logged st) (log_all logged st)
              {| results := []; total_em := 0; total_f1 := 0 |} eq_refl eq_refl)
    as (Hr & Hw & Hc).
  destruct (run_loop callback true _ _ _ _ _) as [st1 r1].
  destruct (run_loop callback false _ _ _ _ _) as [st2 r2].
  cbn in *. by rewrite Hr.
Qed.

(** ** [HotpotQA.run]: nothing to run over *)

(** X10: a run over no sample, because the partition is empty, the limit
    is 0, or the limit is negative and drops as many samples as the
    partition has or more, returns metrics that are all 0 and no result,
    and neither calls the callback nor logs. *)
Theorem run_without_samples {W : Type}
    (callback : str → list (str * list str) → W → W * result pyval)
    (self : benchmark) (dataset : str) (sample_limit : option Z) (verbose : bool)
    (st : run_state) (data : list item) :
  partition_named self dataset = Some (Some data) →
  (data = []
   ∨ (∃ k, sample_limit = Some k ∧ (k = 0 ∨ k <= - Z.of_nat (length data))%Z)) →
  run callback self dataset sample_limit verbose st
  = (st, Ok {| out_metrics := {| exact_match := 0; f1 := 0;
                                 num_samples := 0; num_passed := 0 |};
               out_results := [] |}).
Proof.
  intros Hpart Hnone. rewrite (run_loaded _ _ _ _ _ _ _ Hpart). cbv zeta.
  assert (limit sample_limit data = []) as ->; [|done].
  destruct Hnone as [->|(k & -> & Hk)].
  - destruct sample_limit as [k|]; [|done]. unfold limit, slice_to.
    by destruct (0 <=? k)%Z; rewrite take_nil.
  - unfold limit, slice_to. destruct Hk as [->|Hk]; [done|].
    destruct (0 <=? k)%Z eqn:E.
    + apply Z.leb_le in E. assert (k = 0%Z) as -> by lia. done.
    + replace (Z.to_nat (Z.of_nat (length data) + k)) with 0 by lia. done.
Qed.

Lemma run_without_samples_witness :
  run echo loaded_bench "validate" (Some (-3)%Z) true (RunState () [] [])
  = (RunState () [] [],
     Ok {| out_metrics := {| exact_match := 0; f1 := 0;
                             num_samples := 0; num_passed := 0 |};
           out_results := [] |}).
Proof.
  apply (run_without_samples echo loaded_bench "validate" (Some (-3)%Z) true
           (RunState () [] []) three_items).
  - reflexivity.
  - right. exists (-3)%Z. split; [reflexivity|]. right. cbn. lia.
Defined.

(** ** [download_file]: the attempts and the destination file *)

Section download_facts.
Context (net : network).

Lemma Attempts_app url j k sent sent' :
  Attempts url j sent → Attempts url k sent' → Attempts url (j + k) (sent ++ sent').
Proof.
  induction 1; simpl; intros; [done|apply Attempts_head|apply Attempts_get]; auto.
Qed.

(** One attempt sends a HEAD and at most one GET; it changes no other
    file and only appends to the destination. *)
Lemma download_attempt_step url dest w :
  let out := download_attempt net url dest w in
  (∃ sent, requests out.1 = requests w ++ sent ∧ Attempts url 1 sent)
  ∧ (∀ p, p ≠ dest → files out.1 !! p = files w !! p)
  ∧ (∀ old, files w !! dest = Some old →
       ∃ extra, files out.1 !! dest = Some (old ++ extra)).
Proof.
  unfold download_attempt.
  assert (Hhead : Attempts url 1 [Head url]) by repeat constructor.
  assert (Hget : ∀ range, Attempts url 1 [Head url; Get url range])
    by (intros; apply Attempts_get; constructor).
  assert (Hsame : ∀ old, files w !! dest = Some old →
    ∃ extra, files w !! dest = Some (old ++ extra)).
  { intros old ->. exists []. by rewrite app_nil_r. }
  assert (Hsent : ∀ sent, Attempts url 1 sent →
    ∃ sent', requests w ++ sent = requests w ++ sent' ∧ Attempts url 1 sent')
    by (intros sent ?; by exists sent).
  destruct (on_head _ _ _) as [total|e]; simpl; [|by split_and!; [apply Hsent|..]].
  case_bool_decide; simpl; [|by split_and!; [apply Hsent|..]].
  destruct (on_get _ _ _ _) as [r|e]; simpl;
    [|by rewrite <-app_assoc; split_and!; [apply Hsent, Hget|..]].
  destruct (status_error r); simpl;
    [by rewrite <-app_assoc; split_and!; [apply Hsent, Hget|..]|].
  assert (Hw : ∀ p, p ≠ dest →
    <[dest := (if bool_decide (0 < match files w !! dest with
                                     | Some content => length content
                                     | None => 0
                                     end)
               then default [] (files w !! dest) else []) ++ concat (chunks r)]>
      (files w) !! p = files w !! p).
  { intros p Hp. by rewrite lookup_insert_ne. }
  assert (Hold : ∀ old, files w !! dest = Some old → ∃ extra,
    <[dest := (if bool_decide (0 < match files w !! dest with
                                     | Some content => length content
                                     | None => 0
                                     end)
               then default [] (files w !! dest) else []) ++ concat (chunks r)]>
      (files w) !! dest = Some (old ++ extra)).
  { intros old Hf. rewrite lookup_insert_eq, Hf. simpl. exists (concat (chunks r)).
    destruct old as [|c old]; [done|]. by rewrite bool_decide_true by (simpl; lia). }
  destruct (stream_error r); simpl; rewrite <-app_assoc;
    (split_and!; [apply Hsent, Hget|done..]).
Qed.

(** The loop over the attempts [a], [a + 1], ..., [max_retries - 1]. *)
Lemma download_loop_steps url dest max_retries k : ∀ a w,
  a + S k = max_retries →
  let out := download_loop net url dest max_retries (seq a (S k)) w in
  (∃ sent j, requests out.1 = requests w ++ sent ∧ Attempts url j sent ∧ 1 ≤ j ≤ S k
     ∧ (∀ e, out.2 = Raise e → is_Exception e = true → j = S k))
  ∧ (∀ p, p ≠ dest → files out.1 !! p = files w !! p)
  ∧ (∀ old, files w !! dest = Some old →
       ∃ extra, files out.1 !! dest = Some (old ++ extra)).
Proof.
  induction k as [|k IH]; intros a w Ha; cbn [seq download_loop];
    destruct (download_attempt_step url dest w) as ((sent & Hs & Hat) & Hframe & Hold);
    destruct (download_attempt net url dest w) as [w' [[]|e]] eqn:E; simpl in *.
  - split_and!; [|done..]. exists sent, 1. split_and!; done.
  - destruct (is_Exception e) eqn:He.
    + rewrite bool_decide_true by lia. simpl. split_and!; [|done..].
      exists sent, 1. split_and!; done.
    + simpl. split_and!; [|done..]. exists sent, 1. split_and!; [done..|].
      intros ? [= <-]. congruence.
  - split_and!; [|done..]. exists sent, 1. split_and!; [done|done|lia|lia|done].
  - destruct (is_Exception e) eqn:He.
    + rewrite bool_decide_false by lia.
      destruct (IH (S a) w' ltac:(lia))
        as ((sent' & j & Hs' & Hat' & Hj & Hall) & Hframe' & Hold').
      cbn [seq] in *.
      split_and!.
      * exists (sent ++ sent'), (1 + j). rewrite Hs', Hs, <-app_assoc.
        split_and!; [done|by apply Attempts_app|lia|lia|].
        intros e' He' Hex. rewrite (Hall e' He' Hex). done.
      * intros p Hp. by rewrite Hframe', Hframe.
      * intros old Hf. destruct (Hold old Hf) as [x Hx]. destruct (Hold' _ Hx) as [y Hy].
        exists (x ++ y). by rewrite Hy, <-app_assoc.
    + simpl. split_and!; [|done..]. exists sent, 1. split_and!; [done|done|lia|lia|].
      intros ? [= <-]. congruence.
Qed.

End download_facts.

(** X11: with at least one attempt allowed, [download_file] only ever
    appends to a destination file that is already there: whatever the
    server answers and however many attempts fail, the old content is a
    prefix of the new one; and no other file changes. *)
Theorem download_file_only_appends (net : network) (url destination_path : str)
    (max_retries : nat) (w : world) (old : str) :
  1 ≤ max_retries →
  files w !! destination_path = Some old →
  let out := download_file net url destination_path max_retries w in
  (∃ extra, files out.1 !! destination_path = Some (old ++ extra))
  ∧ (∀ p, p ≠ destination_path → files out.1 !! p = files w !! p).
Proof.
  intros Hn Hold out. subst out. unfold download_file.
  destruct (makedirs (dirname destination_path)) as [[]|e].
  - destruct max_retries as [|k]; [lia|].
    destruct (download_loop_steps net url destination_path (S k) k 0 w eq_refl)
      as (_ & Hframe & Happ).
    split; [by apply Happ|done].
  - cbn. split; [|done]. exists []. by rewrite app_nil_r.
Qed.

Lemma download_file_only_appends_witness :
  let out := download_file (failing_get 9) "http://h/dev.json" "d/dev.json" 3 one_file in
  (∃ extra, files out.1 !! ("d/dev.json" : str) = Some (("[{}]" : str) ++ extra))
  ∧ (∀ p, p ≠ ("d/dev.json" : str) → files out.1 !! p = files one_file !! p).
Proof.
  apply (download_file_only_appends (failing_get 9) "http://h/dev.json" "d/dev.json" 3
           one_file "[{}]"); [lia|reflexivity].
Defined.

(** X12: with [max_retries] at least 1, [download_file] for a destination
    without a directory part raises [FileNotFoundError] before any
    request; for any other destination the requests it sends are those of
    [k] attempts, each a HEAD followed or not by a GET, with [k] between
    1 and [max_retries], and when it raises an instance of [Exception],
    all [max_retries] attempts have been made. *)
Theorem download_file_attempts (net : network) (url destination_path : str)
    (max_retries : nat) (w : world) :
  1 ≤ max_retries →
  let out := download_file net url destination_path max_retries w in
  (dirname destination_path = [] →
   out = (w, Raise (Exn FileNotFoundError "[Errno 2] No such file or directory: ''")))
  ∧ (dirname destination_path ≠ [] →
     ∃ sent k,
       requests out.1 = requests w ++ sent
       ∧ Attempts url k sent
       ∧ 1 ≤ k ≤ max_retries
       ∧ (∀ e, out.2 = Raise e → is_Exception e = true → k = max_retries)).
Proof.
  intros Hn out. subst out. split; intros Hdir.
  - by apply download_file_no_directory.
  - rewrite download_file_loop by done.
    destruct max_retries as [|k]; [lia|].
    by destruct (download_loop_steps net url destination_path (S k) k 0 w eq_refl)
      as (H & _ & _).
Qed.

Lemma download_file_attempts_witness :
  let out := download_file (failing_get 9) "http://h/dev.json" "d/dev.json" 3 one_file in
  (dirname "d/dev.json" = [] →
   out = (one_file,
          Raise (Exn FileNotFoundError "[Errno 2] No such file or directory: ''")))
  ∧ (dirname "d/dev.json" ≠ [] →
     ∃ sent k,
       requests out.1 = requests one_file ++ sent
       ∧ Attempts "http://h/dev.json" k sent
       ∧ 1 ≤ k ≤ 3
       ∧ (∀ e, out.2 = Raise e → is_Exception e = true → k = 3)).
Proof.
  apply (download_file_attempts (failing_get 9) "http://h/dev.json" "d/dev.json" 3 one_file).
  lia.
Defined.

(** X13: when [load_dataset] has to download (the file is absent, or a
    reload is forced) and the server announces a length that is not
    greater than that of the local file, a single HEAD request is sent
    and nothing is written: a forced reload parses the old file, and
    for an absent file (announced length 0, as when the header is
    missing) [FileNotFoundError] is raised.  Only for a file path without
    a directory part is not even the HEAD request sent: creating the
    directory raises. *)
Theorem load_dataset_skips_download (json_load : str → result (list item))
    (json_loads : str → result item) (net : network) (self : benchmark)
    (entry : dataset_entry) (force_reload : bool) (w : world) (total_size : nat) :
  let file_path := path_join (data_folder self) (entry_name entry) in
  exists_ file_path w = false ∨ force_reload = true →
  on_head net (requests w) (entry_url entry) = Ok total_size →
  total_size ≤ length (default [] (files w !! file_path)) →
  load_dataset json_load json_loads net self (Some entry) force_reload w
  = match dirname file_path with
    | [] =>
        (w, Raise (Exn FileNotFoundError "[Errno 2] No such file or directory: ''"))
    | _ :: _ =>
        (send (Head (entry_url entry)) w,
         match files w !! file_path with
         | None => Raise (Exn FileNotFoundError ("File not found: " ++ file_path))
         | Some _ =>
             bind (load_json json_load json_loads file_path w)
               (fun data => Ok (Some data))
         end)
    end.
Proof.
  intros file_path Hdl Hhead Hsize. unfold load_dataset. fold file_path.
  assert (negb (exists_ file_path w) || force_reload = true) as ->.
  { destruct Hdl as [->| ->]; [done|]. by rewrite orb_true_r. }
  unfold download_file. destruct (dirname file_path) as [|c d]; [done|].
  cbn [makedirs seq download_loop]. unfold download_attempt.
  rewrite Hhead. rewrite bool_decide_false.
  2:{ destruct (files w !! file_path); simpl in *; lia. }
  cbn [bind]. unfold load_json. cbn [send files].
  by destruct (files w !! file_path).
Qed.

Lemma load_dataset_skips_download_witness :
  load_dataset (fun _ => Ok []) (fun _ => Raise (Exn JSONDecodeError [])) (failing_get 4)
    (Bench "d" ALL None None None) (Some (Entry "dev.json" "http://h/dev.json")) true
    one_file
  = (send (Head "http://h/dev.json") one_file, Ok (Some [])).
Proof.
  apply (load_dataset_skips_download (fun _ => Ok [])
           (fun _ => Raise (Exn JSONDecodeError [])) (failing_get 4)
           (Bench "d" ALL None None None) (Entry "dev.json" "http://h/dev.json") true
           one_file 4).
  - right. reflexivity.
  - reflexivity.
  - vm_compute. lia.
Defined.

(** ** [DatasetType.from_value] *)

Lemma value_lower t : lower (value t) = value t.
Proof. by destruct t. Qed.

Lemma value_inj a b : value a = value b → a = b.
Proof. destruct a, b; intros H; try done; vm_compute in H; discriminate. Qed.

Lemma from_value_inl {D : Type} (value_ : str) (default_ : D) t :
  from_value value_ default_ = inl t ↔ lower value_ = value t.
Proof.
  unfold from_value, members. cbn [find].
  repeat case_bool_decide; (split; [intros Hv|intros Hv]);
    first [ discriminate Hv
          | by injection Hv as <-
          | f_equal; apply value_inj; congruence
          | destruct t; congruence ].
Qed.

(** X14: [DatasetType.from_value] returns a member exactly when the
    lower-cased value is that member's value, so the value of every
    member is mapped back to the member; it returns the default, as it
    was passed, exactly when no member has that value.  Called without
    a default, what it returns for an unknown value is the string
    validate, not a member. *)
Theorem from_value_cases {D : Type} (value_ : str) (default_ : D) :
  (∀ t, from_value value_ default_ = inl t ↔ lower value_ = value t)
  ∧ (from_value value_ default_ = inr default_ ↔ ∀ t, lower value_ ≠ value t)
  ∧ (∀ t, from_value (value t) default_ = inl t)
  ∧ match from_value_default value_ with
    | inl t => lower value_ = value t
    | inr fallback => fallback = ("validate" : str) ∧ ∀ t, lower value_ ≠ value t
    end.
Proof.
  assert (Hinr : ∀ (E : Type) (d : E),
    from_value value_ d = inr d ↔ ∀ t, lower value_ ≠ value t).
  { intros E d. split.
    - intros H t Ht. apply (from_value_inl value_ d) in Ht. congruence.
    - intros H. unfold from_value.
      destruct (find _ members) as [t|] eqn:E'; [|done].
      exfalso. apply (H t). apply (from_value_inl value_ d). unfold from_value.
      by rewrite E'. }
  split_and!.
  - apply from_value_inl.
  - apply Hinr.
  - intros t. apply from_value_inl, value_lower.
  - unfold from_value_default.
    destruct (from_value value_ ("validate" : str)) as [t|d] eqn:E'.
    + by apply from_value_inl in E'.
    + assert (d = ("validate" : str)) as ->.
      { unfold from_value in E'. destruct (find _ _); congruence. }
      split; [done|]. by apply (Hinr _ ("validate" : str)).
Qed.

(** ** [HotpotQA.load_data] *)

Section load_data_facts.
Context (json_load : str → result (list item)) (json_loads : str → result item).
Context (net : network) (manifest : result (gmap (list ascii) datasets)).

Lemma load_dataset_requests self entry force_reload w :
  ∃ sent,
    requests (load_dataset json_load json_loads net self entry force_reload w).1
    = requests w ++ sent.
Proof.
  unfold load_dataset. destruct entry as [entry|]; [|exists []; by rewrite app_nil_r].
  destruct (negb _ || _).
  - destruct (download_loop_requests net (entry_url entry)
                (path_join (data_folder self) (entry_name entry)) 3 (seq 0 3) w)
      as [sent Hs].
    unfold download_file. destruct (makedirs _) as [[]|e].
    + destruct (download_loop _ _ _ _ _ _) as [w' r]. by exists sent.
    + exists []. by rewrite app_nil_r.
  - exists []. by rewrite app_nil_r.
Qed.

(** One partition: what [load_partition] may change. *)
Lemma load_partition_step which entry assign force_reload self w :
  (∀ data b, data_folder (assign data b) = data_folder b
             ∧ dataset_type (assign data b) = dataset_type b) →
  let out :=
    load_partition json_load json_loads net which entry assign force_reload self w in
  data_folder out.1.2 = data_folder self
  ∧ dataset_type out.1.2 = dataset_type self
  ∧ (∃ sent, requests out.1.1 = requests w ++ sent)
  ∧ (selects (dataset_type self) which = false → out = (w, self, Ok ()))
  ∧ (selects (dataset_type self) which = true →
     (∀ e, out.2 = Raise e → out.1.2 = self)
     ∧ (out.2 = Ok () →
        ∃ data, out.1.2 = assign data self ∧ (data = None ↔ entry = None))).
Proof.
  intros Hassign. unfold load_partition.
  destruct (selects _ _).
  2:{ cbn. split_and!; [done|done|exists []; by rewrite app_nil_r|done|done]. }
  destruct (load_dataset_requests self entry force_reload w) as [sent Hs].
  destruct (load_dataset _ _ _ _ _ _ _) as [w' [data|e]] eqn:E; cbn in *.
  - destruct (Hassign data self) as [-> ->].
    split_and!; [done|done|by exists sent|done|]. intros _. split; [done|].
    intros _. exists data. split; [done|].
    unfold load_dataset in E. destruct entry as [entry|]; [|by injection E as _ <-].
    destruct (if negb _ || _ then _ else _) as [w'' [[]|e]]; cbn in E; [|congruence].
    destruct (load_json _ _ _ _); cbn in E; [|congruence].
    injection E as _ <-. done.
  - split_and!; [done|done|by exists sent|done|]. intros _. split; [done|]. congruence.
Qed.

End load_data_facts.

Lemma load_data_unselected (json_load : str → result (list item))
    (json_loads : str → result item) (net : network)
    (manifest : result (gmap (list ascii) datasets)) (force_reload : bool)
    (self : benchmark) (w : world) (which : DatasetType) :
  selects (dataset_type self) which = false →
  partition_named (load_data json_load json_loads net manifest force_reload self w).1.2
    (value which)
  = partition_named self (value which).
Proof.
  intros Hw. unfold load_data.
  destruct manifest as [benchmarks|e0]; [|done].
  destruct (benchmarks !! _) as [entries|]; [|done].
  pose proof (load_partition_step json_load json_loads net TRAIN (ds_train entries)
                set_train force_reload self w ltac:(done)) as H1.
  destruct (load_partition _ _ _ TRAIN _ _ _ _ _) as [[w1 self1] r1]. cbn in H1.
  destruct H1 as (_ & Ht1 & _ & Hoff1 & Hon1).
  pose proof (load_partition_step json_load json_loads net VALIDATE (ds_validate entries)
                set_validate force_reload self1 w1 ltac:(done)) as H2.
  destruct (load_partition _ _ _ VALIDATE _ _ _ _ _) as [[w2 self2] r2]. cbn in H2.
  destruct H2 as (_ & Ht2 & _ & Hoff2 & Hon2).
  pose proof (load_partition_step json_load json_loads net TEST (ds_test entries)
                set_test force_reload self2 w2 ltac:(done)) as H3.
  destruct (load_partition _ _ _ TEST _ _ _ _ _) as [[w3 self3] r3]. cbn in H3.
  destruct H3 as (_ & _ & _ & Hoff3 & Hon3).
  rewrite Ht1 in Hoff2, Hon2. rewrite Ht2, Ht1 in Hoff3, Hon3.
  assert (Hp1 : partition_named self1 (value which) = partition_named self (value which)).
  { destruct (selects (dataset_type self) TRAIN) eqn:Hsel.
    - destruct Hon1 as [Hr Hk]; [done|]. destruct r1 as [[]|e]; [|by rewrite (Hr e)].
      destruct Hk as (data & -> & _); [done|]. destruct which; try done. congruence.
    - by injection (Hoff1 eq_refl) as _ -> _. }
  assert (Hp2 : partition_named self2 (value which) = partition_named self1 (value which)).
  { destruct (selects (dataset_type self) VALIDATE) eqn:Hsel.
    - destruct Hon2 as [Hr Hk]; [done|]. destruct r2 as [[]|e]; [|by rewrite (Hr e)].
      destruct Hk as (data & -> & _); [done|]. destruct which; try done. congruence.
    - by injection (Hoff2 eq_refl) as _ -> _. }
  assert (Hp3 : partition_named self3 (value which) = partition_named self2 (value which)).
  { destruct (selects (dataset_type self) TEST) eqn:Hsel.
    - destruct Hon3 as [Hr Hk]; [done|]. destruct r3 as [[]|e]; [|by rewrite (Hr e)].
      destruct Hk as (data & -> & _); [done|]. destruct which; try done. congruence.
    - by injection (Hoff3 eq_refl) as _ -> _. }
  destruct r1 as [[]|e1]; cbn; [|done].
  destruct r2 as [[]|e2]; cbn; [|by rewrite Hp2].
  by rewrite Hp3, Hp2.
Qed.

(** X15: [load_data] changes neither the folder nor the type of the
    benchmark, and no partition its type does not select, also when it
    raises; its requests are added after those already sent.  When the
    manifest cannot be read, or has no entry for the benchmark
    ([ValueError]), nothing is changed and nothing is sent. *)
Theorem load_data_scope (json_load : str → result (list item))
    (json_loads : str → result item) (net : network)
    (manifest : result (gmap (list ascii) datasets)) (force_reload : bool)
    (self : benchmark) (w : world) :
  let out := load_data json_load json_loads net manifest force_reload self w in
  data_folder out.1.2 = data_folder self
  ∧ dataset_type out.1.2 = dataset_type self
  ∧ (∀ which, selects (dataset_type self) which = false →
       partition_named out.1.2 (value which) = partition_named self (value which))
  ∧ (∃ sent, requests out.1.1 = requests w ++ sent)
  ∧ (∀ benchmarks, manifest = Ok benchmarks → benchmarks !! ("hotpotqa" : str) = None →
       out = (w, self,
              Raise (Exn ValueError "Benchmark hotpotqa not found in benchmarks.json")))
  ∧ (∀ e, manifest = Raise e → out = (w, self, Raise e)).
Proof.
  cbv zeta.
  pose proof (load_data_unselected json_load json_loads net manifest force_reload self w)
    as Hkeep.
  revert Hkeep. unfold load_data.
  assert (Hnil : ∃ sent, requests w = requests w ++ sent)
    by (exists []; by rewrite app_nil_r).
  destruct manifest as [benchmarks|e0]; [|cbn; intros; split_and!; try done; congruence].
  destruct (benchmarks !! _) as [entries|] eqn:Hb;
    [|cbn; intros; split_and!; try done; congruence].
  assert (Hno : ∀ b : gmap (list ascii) datasets,
    Ok benchmarks = Ok b → b !! ("hotpotqa" : str) = None → False)
    by (intros b [= <-] Hn; congruence).
  pose proof (load_partition_step json_load json_loads net TRAIN (ds_train entries)
                set_train force_reload self w ltac:(done)) as H1.
  destruct (load_partition _ _ _ TRAIN _ _ _ _ _) as [[w1 self1] r1]. cbn in H1.
  destruct H1 as (Hf1 & Ht1 & [s1 Hs1] & _).
  pose proof (load_partition_step json_load json_loads net VALIDATE (ds_validate entries)
                set_validate force_reload self1 w1 ltac:(done)) as H2.
  destruct (load_partition _ _ _ VALIDATE _ _ _ _ _) as [[w2 self2] r2]. cbn in H2.
  destruct H2 as (Hf2 & Ht2 & [s2 Hs2] & _).
  pose proof (load_partition_step json_load json_loads net TEST (ds_test entries)
                set_test force_reload self2 w2 ltac:(done)) as H3.
  destruct (load_partition _ _ _ TEST _ _ _ _ _) as [[w3 self3] r3]. cbn in H3.
  destruct H3 as (Hf3 & Ht3 & [s3 Hs3] & _).
  destruct r1 as [[]|e1]; cbn.
  2:{ intros Hkeep. split_and!; [done|done|done|by exists s1| |congruence].
      intros b Hb1 Hb2. destruct (Hno b Hb1 Hb2). }
  destruct r2 as [[]|e2]; cbn.
  2:{ intros Hkeep.
      split_and!; [congruence|congruence|done|exists (s1 ++ s2)| |congruence].
      - by rewrite Hs2, Hs1, <-app_assoc.
      - intros b Hb1 Hb2. destruct (Hno b Hb1 Hb2). }
  intros Hkeep.
  split_and!; [congruence|congruence|done|exists (s1 ++ s2 ++ s3)| |congruence].
  - by rewrite Hs3, Hs2, Hs1, <-!app_assoc.
  - intros b Hb1 Hb2. destruct (Hno b Hb1 Hb2).
Qed.

(** X16: after [load_data] has returned, every partition the type of the
    benchmark selects is [None] exactly when the manifest has no entry for
    it; so a partition loaded earlier is cleared when its entry has gone,
    and a selected partition with an entry is loaded. *)
Theorem load_data_loaded (json_load : str → result (list item))
    (json_loads : str → result item) (net : network)
    (benchmarks : gmap (list ascii) datasets) (entries : datasets)
    (force_reload : bool) (self self' : benchmark) (w w' : world)
    (which : DatasetType) :
  benchmarks !! ("hotpotqa" : str) = Some entries →
  load_data json_load json_loads net (Ok benchmarks) force_reload self w
  = (w', self', Ok ()) →
  which ≠ ALL → selects (dataset_type self) which = true →
  ∃ stored,
    partition_named self' (value which) = Some stored
    ∧ (stored = None ↔ entry_of which entries = None).
Proof.
  intros Hb. unfold load_data. rewrite Hb.
  pose proof (load_partition_step json_load json_loads net TRAIN (ds_train entries)
                set_train force_reload self w ltac:(done)) as H1.
  destruct (load_partition _ _ _ TRAIN _ _ _ _ _) as [[w1 self1] r1]. cbn in H1.
  destruct H1 as (Hf1 & Ht1 & _ & Hoff1 & Hon1).
  destruct r1 as [[]|e1]; [|congruence].
  pose proof (load_partition_step json_load json_loads net VALIDATE (ds_validate entries)
                set_validate force_reload self1 w1 ltac:(done)) as H2.
  destruct (load_partition _ _ _ VALIDATE _ _ _ _ _) as [[w2 self2] r2]. cbn in H2.
  destruct H2 as (Hf2 & Ht2 & _ & Hoff2 & Hon2).
  destruct r2 as [[]|e2]; [|congruence].
  pose proof (load_partition_step json_load json_loads net TEST (ds_test entries)
                set_test force_reload self2 w2 ltac:(done)) as H3.
  destruct (load_partition _ _ _ TEST _ _ _ _ _) as [[w3 self3] r3]. cbn in H3.
  destruct H3 as (Hf3 & Ht3 & _ & Hoff3 & Hon3).
  rewrite Ht1 in Hoff2, Hon2. rewrite Ht2, Ht1 in Hoff3, Hon3.
  intros [= -> -> ->] Hall Hsel.
  assert (H1 : selects (dataset_type self) TRAIN = true →
            ∃ data, _train_data self' = data ∧ (data = None ↔ ds_train entries = None)).
  { intros Hs. destruct Hon1 as [_ Hk]; [done|]. destruct Hk as (data & -> & Hd); [done|].
    exists data. split; [|done].
    destruct (selects (dataset_type self) VALIDATE) eqn:Hv.
    - destruct Hon2 as [_ Hk]; [done|]. destruct Hk as (d2 & -> & _); [done|].
      destruct (selects (dataset_type self) TEST) eqn:Hte.
      + destruct Hon3 as [_ Hk]; [done|]. by destruct Hk as (d3 & -> & _).
      + by injection (Hoff3 eq_refl) as _ ->.
    - injection (Hoff2 eq_refl) as _ ->.
      destruct (selects (dataset_type self) TEST) eqn:Hte.
      + destruct Hon3 as [_ Hk]; [done|]. by destruct Hk as (d3 & -> & _).
      + by injection (Hoff3 eq_refl) as _ ->. }
  assert (H2 : selects (dataset_type self) VALIDATE = true →
            ∃ data, _validate_data self' = data
                    ∧ (data = None ↔ ds_validate entries = None)).
  { intros Hs. destruct Hon2 as [_ Hk]; [done|]. destruct Hk as (data & -> & Hd); [done|].
    exists data. split; [|done].
    destruct (selects (dataset_type self) TEST) eqn:Hte.
    - destruct Hon3 as [_ Hk]; [done|]. by destruct Hk as (d3 & -> & _).
    - by injection (Hoff3 eq_refl) as _ ->. }
  assert (H3 : selects (dataset_type self) TEST = true →
            ∃ data, _test_data self' = data ∧ (data = None ↔ ds_test entries = None)).
  { intros Hs. destruct Hon3 as [_ Hk]; [done|]. destruct Hk as (data & -> & Hd); [done|].
    by exists data. }
  destruct which; [| | |done].
  - destruct (H1 Hsel) as (data & <- & Hd). by eexists.
  - destruct (H2 Hsel) as (data & <- & Hd). by eexists.
  - destruct (H3 Hsel) as (data & <- & Hd). by eexists.
Qed.

Lemma load_data_loaded_witness :
  ∃ stored,
    partition_named (set_validate (Some []) (fresh_bench VALIDATE)) (value VALIDATE)
    = Some stored
    ∧ (stored = None ↔ entry_of VALIDATE dev_entries = None).
Proof.
  apply (load_data_loaded (fun _ => Ok []) (fun _ => Raise (Exn JSONDecodeError []))
           (failing_get 4) dev_manifest dev_entries false (fresh_bench VALIDATE)
           (set_validate (Some []) (fresh_bench VALIDATE)) one_file one_file VALIDATE).
  - reflexivity.
  - reflexivity.
  - discriminate.
  - reflexivity.
Defined.

(** X17: a benchmark constructed for one partition cannot be run on
    another: when [HotpotQA(data_folder, dataset_type)] has returned and
    the type does not select a partition, [run] on that partition logs
    that it is not loaded and raises [ValueError], without calling the
    callback. *)
Theorem HotpotQA_init_then_run {W : Type}
    (json_load : str → result (list item)) (json_loads : str → result item)
    (net : network) (manifest : result (gmap (list ascii) datasets))
    (normalize_path : str → str) (folder : option str) (t which : DatasetType)
    (w w' : world) (self : benchmark)
    (callback : str → list (str * list str) → W → W * result pyval)
    (sample_limit : option Z) (verbose : bool) (st : run_state) :
  HotpotQA_init json_load json_loads net manifest normalize_path folder t w
  = (w', Ok self) →
  which ≠ ALL → selects t which = false →
  run callback self (value which) sample_limit verbose st
  = (log_all [ErrorNotLoaded which] st,
     Raise (Exn ValueError ("Dataset " ++ dquote :: value which ++ dquote :: " not loaded"))).
Proof.
  unfold HotpotQA_init. intros Hinit Hall Hsel.
  destruct (makedirs _) as [[]|e0]; [|congruence].
  set (fresh := {| data_folder := _; dataset_type := t; _train_data := None;
                   _validate_data := None; _test_data := None |}) in Hinit.
  pose proof (load_data_unselected json_load json_loads net manifest false fresh w which
                Hsel) as Hkeep.
  destruct (load_data _ _ _ _ _ _ _) as [[w1 self1] r]. cbn in Hkeep, Hinit.
  destruct r as [[]|e]; cbn in Hinit; [|congruence]. injection Hinit as -> ->.
  unfold run. destruct which; [| | |done]; cbn in Hkeep |- *.
  - injection Hkeep as Hk. unfold train_data. by rewrite Hk.
  - injection Hkeep as Hk. unfold validate_data. by rewrite Hk.
  - injection Hkeep as Hk. unfold test_data. by rewrite Hk.
Qed.

Lemma HotpotQA_init_then_run_witness :
  run echo (set_validate (Some []) (fresh_bench VALIDATE)) (value TEST) None false
    (RunState () [] [])
  = (log_all [ErrorNotLoaded TEST] (RunState () [] []),
     Raise (Exn ValueError ("Dataset " ++ dquote :: value TEST ++ dquote :: " not loaded"))).
Proof.
  apply (HotpotQA_init_then_run (fun _ => Ok []) (fun _ => Raise (Exn JSONDecodeError []))
           (failing_get 4) (Ok dev_manifest) (fun p => p) (Some ("d" : str)) VALIDATE TEST
           one_file one_file).
  - reflexivity.
  - discriminate.
  - reflexivity.
Defined.

(** ** The store of [LLMConfig] over many calls *)

Section store_facts.
Context (resolve : str → str) (models_json : str).

Lemma load_cases model path fs st :
  let P := config_path_of resolve models_json path in
  let out := load resolve models_json model path fs st in
  (∃ c, _instance_cache st !! (P, model) = Some c ∧ out = (st, Ok c))
  ∨ (_instance_cache st !! (P, model) = None
     ∧ ∃ e, out.2 = Raise e
       ∧ _instance_cache out.1 = _instance_cache st ∧ next_id out.1 = next_id st
       ∧ ((fs !! P = None ∧ out.1 = st
           ∧ e = Exn FileNotFoundError ("Config file not found: " ++ P))
          ∨ (fs !! P = Some (Raise e) ∧ _file_cache st !! P = None ∧ out.1 = st)
          ∨ (∃ data, is_Some (fs !! P) ∧ _file_cache out.1 !! P = Some data
               ∧ _file_cache st ⊆ _file_cache out.1
               ∧ data !! model = None
               ∧ e = Exn ValueError
                       ("Model " ++ dquote :: model ++ dquote :: " not found in " ++ P))))
  ∨ (_instance_cache st !! (P, model) = None
     ∧ ∃ data e,
         is_Some (fs !! P) ∧ _file_cache out.1 !! P = Some data
         ∧ _file_cache st ⊆ _file_cache out.1
         ∧ data !! model = Some e
         ∧ out.2 = Ok (instance_of model e (next_id st))
         ∧ _instance_cache out.1
           = <[(P, model) := instance_of model e (next_id st)]> (_instance_cache st)
         ∧ next_id out.1 = S (next_id st)).
Proof.
  intros P out. subst out. unfold load. fold P.
  destruct (_instance_cache st !! (P, model)) as [c|] eqn:Hc; [left; by exists c|].
  right. destruct (fs !! P) as [content|] eqn:Hfs.
  2:{ left. split; [done|]. eexists. cbn. split_and!; [done..|]. left. done. }
  destruct (_file_cache st !! P) as [data|] eqn:Hf.
  - destruct (data !! model) as [e|] eqn:He.
    + right. split; [done|]. exists data, e. cbn. split_and!; done.
    + left. split; [done|]. eexists. cbn. split_and!; [done..|].
      right. right. exists data. split_and!; done.
  - destruct content as [data|e0].
    + assert (Hsub : _file_cache st ⊆ <[P := data]> (_file_cache st))
        by (by apply insert_subseteq).
      destruct (data !! model) as [e|] eqn:He.
      * right. split; [done|]. exists data, e. cbn.
        split_and!; [done|apply lookup_insert_eq|done..].
      * left. split; [done|]. eexists. cbn. split_and!; [done..|].
        right. right. exists data. split_and!; [done|apply lookup_insert_eq|done..].
    + left. split; [done|]. exists e0. cbn. split_and!; [done..|]. right. left. done.
Qed.

End store_facts.

(** X18: [LLMConfig.load] keeps the store coherent: every cached object
    carries the model name of its key, and no two keys hold the same
    object.  Both caches only grow, at most one identity is given out,
    and a returned object has the name asked for and is cached under the
    resolved path and that name. *)
Theorem load_keeps_store_coherent (resolve : str → str) (models_json : str)
    (model : str) (path : option str) (fs : config_files) (st : store) :
  coherent st →
  let out := load resolve models_json model path fs st in
  coherent out.1
  ∧ _instance_cache st ⊆ _instance_cache out.1
  ∧ _file_cache st ⊆ _file_cache out.1
  ∧ next_id st ≤ next_id out.1 ≤ S (next_id st)
  ∧ (∀ c, out.2 = Ok c →
       name c = model
       ∧ _instance_cache out.1 !! (config_path_of resolve models_json path, model)
         = Some c).
Proof.
  intros Hst out. subst out.
  destruct (load_cases resolve models_json model path fs st)
    as [(c & Hc & ->)|[(Hc & e & Hr & Hi & Hn & Hcase)|(Hc & data & e & _ & _ & Hsub & _
         & Hr & Hi & Hn)]].
  - cbn. split_and!; [done|done|done|lia|lia|]. intros c' [= <-].
    split; [|done]. by destruct (Hst _ _ Hc) as (-> & _).
  - split_and!.
    + intros k c. rewrite Hi, Hn. apply Hst.
    + by rewrite Hi.
    + destruct Hcase as [(_ & -> & _)|[(_ & _ & ->)|(data & _ & _ & Hsub & _)]]; done.
    + lia.
    + lia.
    + intros c. rewrite Hr. done.
  - split_and!; [|rewrite Hi; by apply insert_subseteq|done|lia|lia|].
    + intros k c. rewrite Hi, Hn. intros Hk.
      destruct (decide (k = (config_path_of resolve models_json path, model))) as [->|Hne].
      * rewrite lookup_insert_eq in Hk. injection Hk as <-. cbn.
        split_and!; [done|lia|]. intros k' c' Hk' Hid.
        destruct (decide (k' = (config_path_of resolve models_json path, model)))
          as [->|Hne']; [done|].
        rewrite lookup_insert_ne in Hk' by done.
        destruct (Hst _ _ Hk') as (_ & Hlt & _). lia.
      * rewrite lookup_insert_ne in Hk by done.
        destruct (Hst _ _ Hk) as (Hname & Hlt & Huniq).
        split_and!; [done|lia|]. intros k' c' Hk' Hid.
        destruct (decide (k' = (config_path_of resolve models_json path, model)))
          as [->|Hne'].
        -- rewrite lookup_insert_eq in Hk'. injection Hk' as <-. cbn in Hid. lia.
        -- rewrite lookup_insert_ne in Hk' by done. by apply (Huniq k' c').
    + intros c. rewrite Hr, Hi. intros [= <-]. split; [done|]. apply lookup_insert_eq.
Qed.

Lemma load_keeps_store_coherent_witness :
  let out := load id "models.json" "m1" None fs_one empty_store in
  coherent out.1
  ∧ _instance_cache empty_store ⊆ _instance_cache out.1
  ∧ _file_cache empty_store ⊆ _file_cache out.1
  ∧ next_id empty_store ≤ next_id out.1 ≤ S (next_id empty_store)
  ∧ (∀ c, out.2 = Ok c →
       name c = ("m1" : str)
       ∧ _instance_cache out.1 !! (config_path_of id "models.json" None, ("m1" : str))
         = Some c).
Proof.
  apply (load_keeps_store_coherent id "models.json" "m1" None fs_one empty_store).
  intros k c H. vm_compute in H. discriminate.
Defined.

(** X19: a [load] that raises caches no instance and gives out no
    identity, so a later call tries again; the file cache only grows.
    For a missing file the error is [FileNotFoundError] and the store
    is unchanged; when the file is there and its parsed content is
    cached afterwards, the error is the [ValueError] for a model that
    content does not have; and when it is not cached afterwards, the
    error is the one reading the file raised. *)
Theorem load_failure_caches_no_instance (resolve : str → str) (models_json : str)
    (model : str) (path : option str) (fs : config_files) (st st' : store) (e : exn) :
  let P := config_path_of resolve models_json path in
  load resolve models_json model path fs st = (st', Raise e) →
  _instance_cache st' = _instance_cache st
  ∧ next_id st' = next_id st
  ∧ _instance_cache st' !! (P, model) = None
  ∧ _file_cache st ⊆ _file_cache st'
  ∧ (fs !! P = None →
       st' = st ∧ e = Exn FileNotFoundError ("Config file not found: " ++ P))
  ∧ (∀ data, is_Some (fs !! P) → _file_cache st' !! P = Some data →
       data !! model = None
       ∧ e = Exn ValueError
               ("Model " ++ dquote :: model ++ dquote :: " not found in " ++ P))
  ∧ (is_Some (fs !! P) → _file_cache st' !! P = None → st' = st ∧ fs !! P = Some (Raise e)).
Proof.
  cbv zeta. intros Hload.
  pose proof (load_cases resolve models_json model path fs st) as H.
  cbv zeta in H. rewrite Hload in H. cbn [fst snd] in H.
  destruct H as [(c & Hc & Heq)|[(Hc & e' & Hr & Hi & Hn & Hcase)|(Hc & data & e' & _ & _
                  & _ & _ & Hr & _)]].
  - congruence.
  - injection Hr as <-.
    split_and!; [done|done|by rewrite Hi| | | |].
    + destruct Hcase as [(_ & -> & _)|[(_ & _ & ->)|(data & _ & _ & Hsub & _)]]; done.
    + intros Hfs. destruct Hcase as [(_ & -> & ->)|[(Hx & _)|(data & [x Hx] & _)]];
        [done|congruence..].
    + intros data [x Hx] Hf.
      destruct Hcase as [(Hy & _)|[(_ & Hy & ->)|(data' & _ & Hf' & _ & Hm & ->)]];
        [congruence|congruence|]. split; [congruence|done].
    + intros [x Hx] Hf.
      destruct Hcase as [(Hy & _)|[(Hy & _ & ->)|(data' & _ & Hf' & _)]];
        [congruence|done|congruence].
  - congruence.
Qed.

Lemma load_failure_caches_no_instance_witness :
  _instance_cache store_one = _instance_cache store_one
  ∧ next_id store_one = next_id store_one
  ∧ _instance_cache store_one !! (config_path_of id "models.json" None, ("m2" : str)) = None
  ∧ _file_cache store_one ⊆ _file_cache store_one
  ∧ (fs_two !! config_path_of id "models.json" None = None →
       store_one = store_one
       ∧ Exn ValueError ("Model " ++ dquote :: "m2" ++ dquote :: " not found in models.json")
         = Exn FileNotFoundError
             ("Config file not found: " ++ config_path_of id "models.json" None))
  ∧ (∀ data, is_Some (fs_two !! config_path_of id "models.json" None) →
       _file_cache store_one !! config_path_of id "models.json" None = Some data →
       data !! ("m2" : str) = None
       ∧ Exn ValueError ("Model " ++ dquote :: "m2" ++ dquote :: " not found in models.json")
         = Exn ValueError
             ("Model " ++ dquote :: "m2" ++ dquote :: " not found in "
              ++ config_path_of id "models.json" None))
  ∧ (is_Some (fs_two !! config_path_of id "models.json" None) →
     _file_cache store_one !! config_path_of id "models.json" None = None →
     store_one = store_one
     ∧ fs_two !! config_path_of id "models.json" None
       = Some (Raise (Exn ValueError
                        ("Model " ++ dquote :: "m2" ++ dquote :: " not found in models.json")))).
Proof.
  apply (load_failure_caches_no_instance id "models.json" "m2" None fs_two store_one
           store_one
           (Exn ValueError ("Model " ++ dquote :: "m2" ++ dquote :: " not found in models.json"))).
  reflexivity.
Defined.

(** ** [AsyncLLM.register_provider] *)

(** X20: registering a class for a provider changes the creation of the
    models of that provider only.  When the configuration cannot be
    loaded, and for a model of another provider, creating the model has
    the same outcome with and without the registration: the same instance
    or exception, store and environment.  For a model of that provider an
    instance that is returned is one of the registered class.
    Registering twice for one provider keeps the last class, and no other
    key of the registry changes. *)
Theorem register_provider_frame (resolve : str → str) (models_json : str)
    (ext : externals) (registry : gmap (list ascii) llm_class) (S : str)
    (C C' : llm_class) (model : str) (path : option str) (kwargs : keywords)
    (fs : config_files) (st : store) (environ : gmap (list ascii) (list ascii)) :
  let after := AsyncLLM_new resolve models_json ext (register_provider S C registry)
                 model path kwargs fs st environ in
  let before := AsyncLLM_new resolve models_json ext registry model path kwargs fs st
                  environ in
  let loaded := load resolve models_json model path fs st in
  (∀ e, loaded.2 = Raise e → after = before ∧ after = (loaded.1, environ, Raise e))
  ∧ (∀ config, loaded.2 = Ok config →
       (lower (provider config) ≠ lower S → after = before)
       ∧ (lower (provider config) = lower S →
          ∀ inst, after.2 = Ok inst → class_of (llm_body_of inst) = C))
  ∧ register_provider S C (register_provider S C' registry)
    = register_provider S C registry
  ∧ (∀ k, k ≠ lower S → register_provider S C registry !! k = registry !! k).
Proof.
  cbv zeta. unfold AsyncLLM_new, register_provider.
  destruct (load resolve models_json model path fs st) as [st' [config|e]]; cbn.
  - split_and!; [done| |apply insert_insert_eq|by intros; apply lookup_insert_ne].
    intros ? [= <-]. split.
    + intros Hne. by rewrite lookup_insert_ne.
    + intros ->. rewrite lookup_insert_eq.
      pose proof (construct_class ext C config kwargs environ) as Hclass.
      destruct (construct ext C config kwargs environ) as [environ' [body|e]]; cbn in *;
        [|done].
      intros inst [= <-]. cbn. by destruct (Hclass body eq_refl).
  - split_and!; [|done|apply insert_insert_eq|by intros; apply lookup_insert_ne].
    by intros ? [= <-].
Qed.

(** ** [Agent.llm] and [Agent.reset] *)

(** X21: the client of an agent is created on first use and kept: once
    [llm] has returned a client, it returns that client again whatever
    has become of the SDKs, the registry, the files, the store and the
    environment, without a call to the factory.  After [reset] the next
    use calls the class the registry then gives for the cached
    configuration object, the one the first client was made for, also
    when the file has changed; when the call returns, the agent holds a
    new client, which is another object than the first one, and when it
    raises, the agent stays without a client. *)
Theorem agent_llm_is_lazy (resolve : str → str) (models_json : str) (ext : externals)
    (registry : gmap (list ascii) llm_class) (self self1 : Agents.Agent)
    (fs : config_files) (st st1 : store)
    (environ environ1 : gmap (list ascii) (list ascii)) (client : llm) :
  Agents._llm self = None →
  Agents.Agent_llm resolve models_json ext registry self fs st environ
  = (self1, st1, environ1, Ok client) →
  Agents._llm self1 = Some client
  ∧ Agents.config self1 = Agents.config self
  ∧ (∀ ext' registry' fs' st' environ',
       Agents.Agent_llm resolve models_json ext' registry' self1 fs' st' environ'
       = (self1, st', environ', Ok client))
  ∧ ∃ config,
      _instance_cache st1
        !! (config_path_of resolve models_json None, Agents.model (Agents.config self))
      = Some config
      ∧ (∀ c, config_of (llm_body_of client) = Some c → c = config)
      ∧ ∀ ext' registry' fs' environ',
          let cls := default AsyncOpenAILLM (registry' !! lower (provider config)) in
          let created := construct ext' cls config ∅ environ' in
          let again :=
            Agents.Agent_llm resolve models_json ext' registry' (Agents.reset self1)
              fs' st1 environ' in
          match created.2 with
          | Ok body =>
              let client' := LLM (next_id st1) body in
              again = (Agents.Agent_ (Agents.config self) (Some client'),
                       allocated st1, created.1, Ok client')
              ∧ client' ≠ client
          | Raise e => again = (Agents.reset self1, st1, created.1, Raise e)
          end.
Proof.
  intros Hnone. unfold Agents.Agent_llm at 1. rewrite Hnone. unfold AsyncLLM_new.
  destruct (load resolve models_json (Agents.model (Agents.config self)) None fs st)
    as [st0 [config|e]] eqn:Hload; [|congruence].
  pose proof (construct_class ext
                (match registry !! lower (provider config) with
                 | Some cls => cls
                 | None => AsyncOpenAILLM
                 end) config ∅ environ) as Hclass.
  destruct (construct ext _ config ∅ environ) as [environ0 [body|e]]; [|congruence].
  intros [= <- <- <- <-]. cbn [Agents._llm Agents.config]. split_and!; [done|done|done|].
  pose proof (load_Ok_cached resolve models_json _ None fs st st0 config Hload) as Hc.
  exists config. split_and!; [exact Hc| |].
  - intros c Hcfg. cbn in Hcfg.
    destruct (Hclass body eq_refl) as [Hcls Hconfig].
    destruct body as [? ?|? ?|? ?|?|? ?]; try (cbn in Hcfg; discriminate);
      (rewrite Hconfig in Hcfg by (intros ?; rewrite <-Hcls; done)); congruence.
  - intros ext' registry' fs' environ'. cbv zeta.
    unfold Agents.Agent_llm, Agents.reset. cbn [Agents._llm Agents.config].
    unfold AsyncLLM_new.
    rewrite (load_hit resolve models_json _ None fs' (allocated st0) config Hc).
    unfold default.
    destruct (construct ext' _ config ∅ environ') as [environ2 [body'|e]]; cbn; [|done].
    split; [done|]. intros [= Hid _]. lia.
Qed.

Lemma agent_llm_is_lazy_witness :
  Agents._llm tgi_agent_used = Some tgi_client
  ∧ Agents.config tgi_agent_used = Agents.config tgi_agent
  ∧ (∀ ext' registry' fs' st' environ',
       Agents.Agent_llm id "models.json" ext' registry' tgi_agent_used fs' st' environ'
       = (tgi_agent_used, st', environ', Ok tgi_client))
  ∧ ∃ config,
      _instance_cache (allocated tgi_store)
        !! (config_path_of id "models.json" None, Agents.model (Agents.config tgi_agent))
      = Some config
      ∧ (∀ c, config_of (llm_body_of tgi_client) = Some c → c = config)
      ∧ ∀ ext' registry' fs' environ',
          let cls := default AsyncOpenAILLM (registry' !! lower (provider config)) in
          let created := construct ext' cls config ∅ environ' in
          let again :=
            Agents.Agent_llm id "models.json" ext' registry' (Agents.reset tgi_agent_used)
              fs' (allocated tgi_store) environ' in
          match created.2 with
          | Ok body =>
              let client' := LLM (next_id (allocated tgi_store)) body in
              again = (Agents.Agent_ (Agents.config tgi_agent) (Some client'),
                       allocated (allocated tgi_store), created.1, Ok client')
              ∧ client' ≠ tgi_client
          | Raise e =>
              again = (Agents.reset tgi_agent_used, allocated tgi_store, created.1, Raise e)
          end.
Proof.
  apply (agent_llm_is_lazy id "models.json" sdk_needs_key _provider_registry tgi_agent
           tgi_agent_used tgi_files empty_store (allocated tgi_store) keyed_environ
           keyed_environ tgi_client); reflexivity.
Defined.

(** ** [AsyncOllamaLLM.__init__]: the environment, again, and the host *)

Lemma contains_here sep text : contains sep (sep ++ text) = true.
Proof.
  assert (H : bool_decide (sep `prefix_of` sep ++ text) = true)
    by (apply bool_decide_eq_true_2; by apply prefix_app_r).
  destruct (sep ++ text); cbn [contains]; by rewrite H.
Qed.

Lemma contains_later sep a : ∀ text,
  contains sep text = true → contains sep (a ++ text) = true.
Proof.
  induction a as [|c a IH]; intros text H; [done|].
  cbn [app contains]. rewrite (IH _ H). apply orb_true_r.
Qed.

Lemma contains_loopback entries :
  contains "localhost" (join "," (entries ++ ["localhost" : str; "127.0.0.1" : str])) = true.
Proof.
  destruct entries as [|e entries].
  - apply (contains_here "localhost" ",127.0.0.1").
  - rewrite join_app_last by done.
    apply contains_later, contains_later. apply (contains_here "localhost" ",127.0.0.1").
Qed.

(** X22: after [AsyncOllamaLLM.__init__] without an injected client,
    NO_PROXY mentions localhost or 127.0.0.1; constructing any further
    client then leaves the environment as it is; and an environment whose
    NO_PROXY mentions one of the two already is not changed at all. *)
Theorem ollama_init_idempotent (config config' : LLMConfig) (client : option nat)
    (environ : gmap (list ascii) (list ascii)) :
  let environ1 := (AsyncOllamaLLM_init config None environ).1 in
  (contains "localhost" (no_proxy_of environ1) = true
   ∨ contains "127.0.0.1" (no_proxy_of environ1) = true)
  ∧ (AsyncOllamaLLM_init config' client environ1).1 = environ1
  ∧ (contains "localhost" (no_proxy_of environ) = true
     ∨ contains "127.0.0.1" (no_proxy_of environ) = true → environ1 = environ).
Proof.
  cbv zeta.
  assert (Hmention :
    contains "localhost" (no_proxy_of (AsyncOllamaLLM_init config None environ).1) = true
    ∨ contains "127.0.0.1" (no_proxy_of (AsyncOllamaLLM_init config None environ).1) = true).
  { unfold AsyncOllamaLLM_init, no_proxy_of. cbn [fst].
    destruct (contains "localhost" (default [] (environ !! ("NO_PROXY" : str)))) eqn:Hl;
      [by left|].
    destruct (contains "127.0.0.1" (default [] (environ !! ("NO_PROXY" : str)))) eqn:H1;
      [by right|].
    cbn [negb andb]. rewrite lookup_insert_eq. left. cbn [default].
    apply contains_loopback. }
  split_and!; [done| |].
  - destruct client as [handle|]; [done|].
    unfold AsyncOllamaLLM_init at 1. cbn [fst].
    fold (no_proxy_of (AsyncOllamaLLM_init config None environ).1).
    destruct Hmention as [-> | ->]; [done|]. by rewrite andb_false_r.
  - unfold AsyncOllamaLLM_init, no_proxy_of. cbn [fst].
    intros [-> | ->]; [done|]. by rewrite andb_false_r.
Qed.

Lemma removesuffix_cases suffix text :
  (text = removesuffix suffix text ++ suffix)
  ∨ (removesuffix suffix text = text ∧ ¬ suffix `suffix_of` text).
Proof.
  unfold removesuffix, endswith. case_bool_decide as H; [left|by right].
  destruct H as [k ->]. rewrite length_app, Nat.add_sub.
  by rewrite take_app_length.
Qed.

(** X23: the host of the Ollama client.  Without a base URL it is
    http://localhost:11434; otherwise the base URL is the host, followed
    by /v1 or nothing, followed by slashes only: the trailing slashes are
    dropped, then one /v1 at most, and when no /v1 was dropped the host
    ends neither with /v1 nor with a slash. *)
Theorem ollama_host_of_base_url (config : LLMConfig)
    (environ : gmap (list ascii) (list ascii)) :
  ∃ host,
    _client (AsyncOllamaLLM_init config None environ).2 = AsyncOllama host
    ∧ (base_url config = [] → host = ("http://localhost:11434" : str))
    ∧ (base_url config ≠ [] →
       ∃ v k,
         base_url config = host ++ v ++ replicate k "/"%char
         ∧ (v = ("/v1" : str) ∨ (v = [] ∧ ¬ ("/v1" : str) `suffix_of` host))
         ∧ (v = [] → last host ≠ Some "/"%char)).
Proof.
  unfold AsyncOllamaLLM_init. cbn [snd _client].
  destruct (base_url config) as [|c url] eqn:Hurl; [by eexists|].
  eexists. split; [done|]. split; [done|]. intros _.
  destruct (rstrip_replicate "/" (c :: url)) as (k & Hk & Hlast).
  destruct (removesuffix_cases "/v1" (rstrip "/" (c :: url))) as [Hv|[Hsame Hno]].
  - exists ("/v1" : str), k. split_and!; [|by left|done].
    rewrite app_assoc, <-Hv. exact Hk.
  - exists [], k. rewrite Hsame. split_and!; [exact Hk|by right|done].
Qed.

(** ** The samples [run] takes *)

(** X24: the samples [run] takes are a prefix of the partition: all of
    it without a limit, its first [k] samples (or all, when it has fewer)
    for a limit [k] that is not negative, and all but its last [-k]
    samples for a negative one. *)
Theorem limit_takes_prefix (num_samples : option Z) (data : list item) :
  limit num_samples data `prefix_of` data
  ∧ (num_samples = None → limit num_samples data = data)
  ∧ (∀ k, num_samples = Some k →
       ((0 <= k)%Z →
          length (limit num_samples data) = Nat.min (Z.to_nat k) (length data))
       ∧ ((k < 0)%Z →
          length (limit num_samples data) = length data - Z.to_nat (- k))).
Proof.
  destruct num_samples as [k|]; cbn; [|done].
  unfold slice_to. split_and!; [|done|].
  - destruct (0 <=? k)%Z; apply prefix_take.
  - intros ? [= <-]. split; intros Hk.
    + rewrite (proj2 (Z.leb_le 0 k)) by done. by rewrite length_take.
    + rewrite (proj2 (Z.leb_gt 0 k)) by done. rewrite length_take. lia.
Qed.

(** ** The logger *)

(** The loggers [get_logger] gives: the root logger for the empty name
    and for the name root, and for any other name the logger of that
    name. *)
Lemma get_logger_cases name :
  (Logger.get_logger name = Logger.Root ↔ name = [] ∨ name = ("root" : str))
  ∧ ∀ n, Logger.get_logger name = Logger.Named n →
         n = name ∧ n ≠ [] ∧ n ≠ ("root" : str).
Proof.
  unfold Logger.get_logger.
  destruct (decide (name = [])) as [->|H1]; [by split; [split; [left|]|]|].
  rewrite (bool_decide_eq_false_2 _ H1). cbn [orb].
  destruct (decide (name = ("root" : str))) as [->|H2]; [by split; [split; [right|]|]|].
  rewrite (bool_decide_eq_false_2 _ H2). split.
  - split; [done|]. by intros [?|?].
  - by intros n [= <-].
Qed.

(** X25: inside [suppress_logging] the target logger has the given level
    and every other logger the level it had; on exit, whether the body
    returned or raised and whatever it did to the loggers, the outcome is
    the body's, the target logger has the level it had on entry, and the
    handlers and the levels of the other loggers are as the body left
    them. *)
Theorem suppress_logging_restores {A : Type} (level : nat) (target : option Logger.logger)
    (body : Logger.logging → Logger.logging * result A) (lg : Logger.logging) :
  let target_logger := default Logger.Root target in
  let inside := Logger.setLevel target_logger level lg in
  let out := Logger.suppress_logging level target body lg in
  Logger.level_of target_logger inside = level
  ∧ (∀ l, l ≠ target_logger → Logger.level_of l inside = Logger.level_of l lg)
  ∧ out.2 = (body inside).2
  ∧ Logger.level_of target_logger out.1 = Logger.level_of target_logger lg
  ∧ Logger.root_handlers out.1 = Logger.root_handlers (body inside).1
  ∧ (∀ l, l ≠ target_logger →
       Logger.level_of l out.1 = Logger.level_of l (body inside).1).
Proof.
  assert (Hset : ∀ T v g, Logger.level_of T (Logger.setLevel T v g) = v).
  { intros [|name] v g; cbn; [done|]. by rewrite lookup_insert_eq. }
  assert (Hother : ∀ T l v g, l ≠ T →
    Logger.level_of l (Logger.setLevel T v g) = Logger.level_of l g).
  { intros [|name] [|name'] v g Hne; cbn; try done.
    rewrite lookup_insert_ne; [done|congruence]. }
  assert (Hhandlers : ∀ T v g,
    Logger.root_handlers (Logger.setLevel T v g) = Logger.root_handlers g).
  { by intros [|name] v g. }
  cbv zeta. unfold Logger.suppress_logging.
  destruct (body _) as [lg' outcome]. cbn [fst snd].
  split_and!; [apply Hset|by intros; apply Hother|done|apply Hset|apply Hhandlers|].
  by intros; apply Hother.
Qed.

(** X26: [setup_logging] configures the root logger at most once.  After
    a call the root logger has a handler, so any later call, whatever its
    arguments, returns without changing anything; a call on a root logger
    that has handlers changes nothing.  On a root logger without handlers
    the level is set and the console handler comes first, with at most
    the file handler after it; when opening the log file raises, the
    console handler alone stays installed. *)
Theorem setup_logging_once (open_log open_log' : str → option exn)
    (log_file log_file' : option str) (level level' : nat) (lg : Logger.logging) :
  let first := Logger.setup_logging open_log log_file level lg in
  Logger.root_handlers first.1 ≠ []
  ∧ Logger.setup_logging open_log' log_file' level' first.1 = (first.1, Ok ())
  ∧ Logger.named_levels first.1 = Logger.named_levels lg
  ∧ (Logger.root_handlers lg ≠ [] → first = (lg, Ok ()))
  ∧ (Logger.root_handlers lg = [] →
       Logger.root_level first.1 = level
       ∧ head (Logger.root_handlers first.1) = Some Logger.ConsoleHandler
       ∧ length (Logger.root_handlers first.1) ≤ 2
       ∧ (∀ e, first.2 = Raise e →
            Logger.root_handlers first.1 = [Logger.ConsoleHandler])).
Proof.
  cbv zeta.
  assert (Hagain : ∀ g, Logger.root_handlers g ≠ [] →
    Logger.setup_logging open_log' log_file' level' g = (g, Ok ())).
  { intros g Hg. unfold Logger.setup_logging. by destruct (Logger.root_handlers g). }
  destruct lg as [lvl hs named]. unfold Logger.setup_logging at 1 3 4 5 6 7 8 9.
  cbn [Logger.root_handlers].
  destruct hs as [|h hs].
  2:{ cbn [fst snd Logger.root_handlers Logger.named_levels].
      split_and!; [done|by apply Hagain|done|done|done]. }
  destruct log_file as [[|c f]|]; [| |];
    try (destruct (makedirs (dirname (c :: f))) as [[]|e0] eqn:Hm; [|]);
    try destruct (open_log (c :: f)) as [e|] eqn:Ho;
    cbn; rewrite ?Hm; cbn; rewrite ?Ho; cbn;
    (split_and!; [done|first [done|by apply Hagain]|done|done|]); intros _;
    (split_and!; [done|done|lia|]); intros e'; done.
Qed.
